(** * Clinical data loading: a shallow embedding of the ETL core

    The development follows three source files of the repository:
    - [src/database/enhanced_data_loader.py]   (module [EnhancedDataLoader]),
    - [src/database/simple_enhanced_loader.py] (module [SimpleEnhancedLoader]),
    - [src/database/comprehensive_validator.py] (module [ComprehensiveValidator]).

    Everything the Python code obtains from the outside world (pandas
    parsers, the file system, the outcome of a write or of a query) is an
    explicit parameter, so that a theorem quantifies over every behaviour
    of the environment.  Side effects are made visible as traces of
    events and as log entries. *)

From stdpp Require Import gmap strings list fin_maps.
From Stdlib Require Import Ascii ZArith Lia.

Open Scope string_scope.
Open Scope list_scope.
Open Scope nat_scope.

(** ** Strings: the few [str] operations the loaders use *)

Module Str.

Definition upper_ascii (c : ascii) : ascii :=
  let n := nat_of_ascii c in
  if (97 <=? n)%nat && (n <=? 122)%nat then ascii_of_nat (n - 32) else c.

Definition lower_ascii (c : ascii) : ascii :=
  let n := nat_of_ascii c in
  if (65 <=? n)%nat && (n <=? 90)%nat then ascii_of_nat (n + 32) else c.

(** [s.upper()] and [s.lower()], on ASCII text: the letters [a] to [z]
    and [A] to [Z] change case and every other character is kept, so a
    label with a letter outside ASCII is not rendered as Python would. *)
Fixpoint upper (s : string) : string :=
  match s with
  | EmptyString => EmptyString
  | String c s' => String (upper_ascii c) (upper s')
  end.

Fixpoint lower (s : string) : string :=
  match s with
  | EmptyString => EmptyString
  | String c s' => String (lower_ascii c) (lower s')
  end.

(** [pat in s] on Python strings. *)
Fixpoint contains (pat s : string) : bool :=
  String.prefix pat s ||
  match s with
  | EmptyString => false
  | String _ s' => contains pat s'
  end.

(** [name in names] on a list of labels. *)
Definition mem (name : string) (names : list string) : bool :=
  existsb (String.eqb name) names.

End Str.

(** ** Data frames

    A frame is kept row-major: the column labels, then one list of cells
    per row, aligned with the labels.  [CNull] stands for every value that
    [pd.isnull] accepts ([None], [NaN], [NaT]); the payload of a typed
    cell is whatever the pandas parser produced for it. *)

Module Frame.

Inductive cell : Type :=
| CNull
| CInf (negative : bool)
| CStr (s : string)
| CNum (n : Z)
| CTime (t : Z)
| CDate (d : Z)
| CBool (b : bool).

Definition is_null (c : cell) : bool :=
  match c with CNull => true | _ => false end.

Record DataFrame : Type := mkDataFrame {
  columns : list string;
  rows : list (list cell)
}.

(** [len(df)] *)
Definition len (df : DataFrame) : nat := length (rows df).

(** The cells of row [r] standing under the label [name]. *)
Fixpoint get_col (name : string) (cols : list string) (r : list cell) : list cell :=
  match cols, r with
  | c :: cols', x :: r' =>
      if String.eqb c name then x :: get_col name cols' r' else get_col name cols' r'
  | _, _ => []
  end.

(** Row [r] with [f] applied under the label [name]. *)
Fixpoint map_col (name : string) (f : cell -> cell) (cols : list string) (r : list cell)
  : list cell :=
  match cols, r with
  | c :: cols', x :: r' =>
      (if String.eqb c name then f x else x) :: map_col name f cols' r'
  | _, _ => r
  end.

(** [df[name]] is a Series when the label [name] occurs once among the
    columns; when it occurs more often, [df[name]] is the frame of the
    columns that carry it. *)
Definition is_series (name : string) (df : DataFrame) : bool :=
  length (List.filter (String.eqb name) (columns df)) =? 1.

(** [df[name] = f(df[name])], cell by cell. *)
Definition assign_col (name : string) (f : cell -> cell) (df : DataFrame) : DataFrame :=
  {| columns := columns df; rows := map (map_col name f (columns df)) (rows df) |}.

(** [df.columns = df.columns.str.upper(); df = df.rename(columns=mapping)] *)
Definition rename_upper (mapping : gmap string string) (df : DataFrame) : DataFrame :=
  {| columns := map (fun c => default (Str.upper c) (mapping !! Str.upper c)) (columns df);
     rows := rows df |}.

(** [df.replace([np.inf, -np.inf], None)] followed by
    [df.where(pd.notnull(df), None)]: the infinities become null, and
    every null already is [CNull]. *)
Definition null_of_inf (c : cell) : cell :=
  match c with CInf _ => CNull | _ => c end.

Definition normalize_nulls (df : DataFrame) : DataFrame :=
  {| columns := columns df; rows := map (map null_of_inf) (rows df) |}.

(** A row has a null under the label [name]. *)
Definition null_under (name : string) (cols : list string) (r : list cell) : bool :=
  existsb is_null (get_col name cols r).

(** [df.dropna(subset=[name])] *)
Definition dropna (name : string) (df : DataFrame) : DataFrame :=
  {| columns := columns df;
     rows := List.filter (fun r => negb (null_under name (columns df) r)) (rows df) |}.

(** [df.iloc[start:stop]] *)
Definition iloc (start stop : nat) (df : DataFrame) : DataFrame :=
  {| columns := columns df; rows := firstn (stop - start) (skipn start (rows df)) |}.

End Frame.

Import Frame.

(** ** pandas conversions

    The parsers are parameters.  With [errors='coerce'] a value that does
    not parse becomes null and nothing is raised; [astype('boolean')] has
    no such mode and raises on the first value it cannot convert.
    [pd.to_datetime] and [pd.to_numeric] convert a Series: given the
    frame that a label occurring more than once selects, the first
    raises a [ValueError] and the second a [TypeError], whatever the
    cells hold.  [astype('boolean')] accepts a frame and converts it
    column by column. *)

Record Pandas : Type := mkPandas {
  parse_datetime : cell -> option Z;
  date_of : Z -> Z;
  parse_numeric : cell -> option Z;
  parse_boolean : cell -> option bool
}.

Section Conversions.

Context (pd : Pandas).

(** [pd.to_datetime(x, errors='coerce')] *)
Definition to_datetime (c : cell) : cell :=
  match c with
  | CNull => CNull
  | _ => match parse_datetime pd c with Some t => CTime t | None => CNull end
  end.

(** [pd.to_datetime(x, errors='coerce').dt.date] *)
Definition to_date (c : cell) : cell :=
  match to_datetime c with
  | CTime t => CDate (date_of pd t)
  | c' => c'
  end.

(** [pd.to_numeric(x, errors='coerce')], with or without a downcast. *)
Definition to_numeric (c : cell) : cell :=
  match c with
  | CNull => CNull
  | _ => match parse_numeric pd c with Some n => CNum n | None => CNull end
  end.

(** One cell of [astype('boolean')]: [None] is a raised exception. *)
Definition boolean_cell (c : cell) : option cell :=
  match c with
  | CNull => Some CNull
  | _ => match parse_boolean pd c with Some b => Some (CBool b) | None => None end
  end.

Definition to_boolean_or_null (c : cell) : cell := default CNull (boolean_cell c).

(** [df[name].astype('boolean')] succeeds when every cell converts. *)
Definition astype_boolean_ok (name : string) (df : DataFrame) : bool :=
  forallb (fun r => forallb (fun c => match boolean_cell c with Some _ => true | None => false end)
                      (get_col name (columns df) r)) (rows df).

End Conversions.

(** ** Exceptions, messages and events *)

(** The text of a Python exception. *)
Definition exn : Type := string.

(** The result of a call that may raise. *)
Inductive outcome (A : Type) : Type :=
| Returned (a : A)
| Raised (e : exn).
Arguments Returned {A} a.
Arguments Raised {A} e.

(** The strings the loaders append to their [errors] and [warnings]
    lists, one constructor per format string of the source. *)
Inductive message : Type :=
| CsvMissing (table : string)                 (* "CSV file does not exist: ..." *)
| CsvEmpty (table : string)                   (* "CSV file is empty: ..." *)
| CsvNoDataRows (table : string)              (* "CSV file has no data rows: ..." *)
| CsvMissingColumns (missing : gset string)   (* "Missing columns: ..." *)
| CsvValidationError (e : exn)                (* "Error validating CSV: ..." *)
| NoDataInCsv                                 (* "No data in CSV file" *)
| NoValidDataAfterCleaning                    (* "No valid data after cleaning" *)
| BatchFailedAfter (batch_num attempts : nat) (* "Failed to load batch N after M attempts" *)
| RowCountMismatch (expected got : nat)       (* "Row count mismatch: expected E, got G" *)
| UnexpectedError (table : string) (e : exn)  (* "Unexpected error loading T: ..." *)
| CsvNotFound (table : string)                (* "CSV file not found: ..." *)
| BatchError (table : string) (batch_num : nat) (e : exn) (* "T batch N: ..." *)
| ImportError (table : string) (e : exn).     (* "T: ..." *)

(** What [logger.warning] receives inside [clean_dataframe]. *)
Inductive log_entry : Type :=
| ConvertFailed (col_name col_type : string)
    (* "Failed to convert column C to T: ...", without the text of the exception *)
| DroppedNullPk (dropped_count : nat) (pk_col : string).
    (* "Dropped N rows with null primary key C" *)

(** The observable actions of a run, in the order they happen. *)
Inductive event : Type :=
| Begin (table : string)
| Finish (table : string)
| Skip (table : string)
| Truncate (table : string) (ok : bool)
| Write (table : string) (batch_num attempt : nat) (batch : list (list cell)) (ok : bool)
| Sleep (seconds : nat)
| Count (table : string) (ok : bool).

(** ** The target store, as far as introspection goes *)

(** What [inspect(engine)] reports for a relation: the columns with the
    text of their types, and the constrained columns of the primary key. *)
Record Inspection : Type := mkInspection {
  insp_columns : list (string * string);
  insp_pk : list string
}.

(** The dictionary [get_table_schema] returns: the empty dictionary, or
    one with the keys [columns] and [primary_keys]. *)
Inductive schema_dict : Type :=
| SchemaEmpty
| SchemaOf (cols : list (string * string)) (primary_keys : list string).

(** [schema.get('columns', {}).items()] *)
Definition schema_columns (s : schema_dict) : list (string * string) :=
  match s with SchemaEmpty => [] | SchemaOf cols _ => cols end.

(** [schema.get('primary_keys', [])] *)
Definition schema_primary_keys (s : schema_dict) : list string :=
  match s with SchemaEmpty => [] | SchemaOf _ pks => pks end.

(** ** The relational store and the queries the verifiers issue

    A row maps a column to its value; a column without a value is NULL.
    Only the statements of the integrity checks are modelled on the
    store itself: the loaders' writes are driven by the environment. *)

Module Sql.

Abbreviation row := (gmap string string).

Record relation : Type := mkRelation {
  rel_columns : list string;
  rel_rows : list row
}.

(** The relations of the schema [clinical_data], by name. *)
Abbreviation store := (gmap string relation).

Inductive statement : Type :=
| SelectCount (table : string)
    (* SELECT COUNT( * ) FROM clinical_data.T *)
| SelectCountNull (table col : string)
    (* SELECT COUNT( * ) FROM clinical_data.T WHERE col IS NULL *)
| SelectCountOrphans (child_table child_col parent_table parent_col : string).
    (* SELECT COUNT( * ) FROM clinical_data.C c
       LEFT JOIN clinical_data.P p ON c.ccol = p.pcol
       WHERE c.ccol IS NOT NULL AND p.pcol IS NULL *)

(** [a = b] in SQL: never true when a side is NULL. *)
Definition sql_eq (a b : option string) : bool :=
  match a, b with
  | Some x, Some y => String.eqb x y
  | _, _ => false
  end.

Definition is_null (v : option string) : bool :=
  match v with None => true | Some _ => false end.

(** [c LEFT JOIN p ON c.ccol = p.pcol]: every child row paired with
    each parent row that matches it, or with no row at all. *)
Definition left_join (child parent : list row) (ccol pcol : string)
  : list (row * option row) :=
  flat_map
    (fun c =>
       match List.filter (fun p => sql_eq (c !! ccol) (p !! pcol)) parent with
       | [] => [(c, None)]
       | matches => map (fun p => (c, Some p)) matches
       end)
    child.

(** The column [col] of the right side of a joined row: NULL when the
    join found no parent. *)
Definition right_col (p : option row) (col : string) : option string :=
  match p with Some r => r !! col | None => None end.

Definition lookup_relation (db : store) (table : string) (cols : list string)
  : outcome relation :=
  match db !! table with
  | None => Raised ("relation does not exist: " +:+ table)
  | Some r =>
      if forallb (fun c => Str.mem c (rel_columns r)) cols then Returned r
      else Raised ("column does not exist in " +:+ table)
  end.

(** [conn.execute(text(q)).scalar()] in a transaction that has not
    failed, with the store after the call.  The three statements are
    all [SELECT]s. *)
Definition execute (q : statement) (db : store) : outcome nat * store :=
  match q with
  | SelectCount t =>
      match lookup_relation db t [] with
      | Returned r => (Returned (length (rel_rows r)), db)
      | Raised e => (Raised e, db)
      end
  | SelectCountNull t col =>
      match lookup_relation db t [col] with
      | Returned r =>
          (Returned (length (List.filter (fun x => is_null (x !! col)) (rel_rows r))), db)
      | Raised e => (Raised e, db)
      end
  | SelectCountOrphans ct ccol pt pcol =>
      match lookup_relation db ct [ccol], lookup_relation db pt [pcol] with
      | Returned c, Returned p =>
          (Returned
             (length
                (List.filter
                   (fun '(cr, pr) => negb (is_null (cr !! ccol)) && is_null (right_col pr pcol))
                   (left_join (rel_rows c) (rel_rows p) ccol pcol))), db)
      | Raised e, _ => (Raised e, db)
      | _, Raised e => (Raised e, db)
      end
  end.

(** A connection that is kept over several statements.  The first
    statement begins a transaction, which nothing commits before the
    connection is closed.  When a statement fails, PostgreSQL aborts
    the transaction, and until a rollback every later statement on the
    connection fails in its turn; the verifiers never roll back. *)
Record connection : Type := mkConnection {
  conn_store : store;
  in_failed_transaction : bool
}.

(** [engine.connect()], once it has returned. *)
Definition connection_on (db : store) : connection :=
  {| conn_store := db; in_failed_transaction := false |}.

(** The text of [InFailedSqlTransaction]. *)
Definition in_failed_sql_transaction : exn :=
  "current transaction is aborted, commands ignored until end of transaction block".

(** [conn.execute(text(q)).scalar()] on such a connection. *)
Definition run (q : statement) (conn : connection) : outcome nat * connection :=
  if in_failed_transaction conn then (Raised in_failed_sql_transaction, conn)
  else
    match execute q (conn_store conn) with
    | (Returned n, db) => (Returned n, {| conn_store := db; in_failed_transaction := false |})
    | (Raised e, db) => (Raised e, {| conn_store := db; in_failed_transaction := true |})
    end.

End Sql.

(** ** [enhanced_data_loader.py] *)

Module EnhancedDataLoader.

(** The loading configuration set in [__init__]. *)
Record Config : Type := mkConfig {
  batch_size : nat;
  max_retries : nat;
  retry_delay : nat
}.

Definition default_config : Config :=
  {| batch_size := 1000; max_retries := 3; retry_delay := 5 |}.

(** [self.loading_order] *)
Definition loading_order : list string :=
  [ "organizations"; "payers"; "patients"; "providers"; "encounters";
    "conditions"; "medications"; "procedures"; "observations";
    "immunizations"; "allergies"; "care_plans" ].

(** [self.column_mappings], as written. *)
Definition column_mappings_items : list (string * list (string * string)) :=
  [
    ("patients",
      [ ("ID", "id"); ("BIRTHDATE", "birth_date");
        ("DEATHDATE", "death_date"); ("SSN", "ssn");
        ("DRIVERS", "drivers"); ("PASSPORT", "passport");
        ("PREFIX", "prefix"); ("FIRST", "first_name");
        ("MIDDLE", "middle_name"); ("LAST", "last_name");
        ("SUFFIX", "suffix"); ("MAIDEN", "maiden_name");
        ("MARITAL", "marital_status"); ("RACE", "race");
        ("ETHNICITY", "ethnicity"); ("GENDER", "gender");
        ("BIRTHPLACE", "birth_place"); ("ADDRESS", "address");
        ("CITY", "city"); ("STATE", "state");
        ("COUNTY", "county"); ("FIPS", "fips");
        ("ZIP", "zip"); ("LAT", "latitude");
        ("LON", "longitude"); ("HEALTHCARE_EXPENSES", "healthcare_expenses");
        ("HEALTHCARE_COVERAGE", "healthcare_coverage"); ("INCOME", "income") ]);
    ("organizations",
      [ ("ID", "id"); ("NAME", "name");
        ("ADDRESS", "address"); ("CITY", "city");
        ("STATE", "state"); ("ZIP", "zip");
        ("LAT", "latitude"); ("LON", "longitude");
        ("PHONE", "phone"); ("REVENUE", "revenue");
        ("UTILIZATION", "utilization") ]);
    ("providers",
      [ ("ID", "id"); ("ORGANIZATION", "organization_id");
        ("NAME", "name"); ("GENDER", "gender");
        ("SPECIALITY", "speciality"); ("ADDRESS", "address");
        ("CITY", "city"); ("STATE", "state");
        ("ZIP", "zip"); ("LAT", "latitude");
        ("LON", "longitude"); ("ENCOUNTERS", "utilization") ]);
    ("payers",
      [ ("ID", "id"); ("NAME", "name");
        ("OWNERSHIP", "ownership"); ("ADDRESS", "address");
        ("CITY", "city"); ("STATE", "state");
        ("ZIP", "zip"); ("PHONE", "phone");
        ("AMOUNT_COVERED", "amount_covered"); ("AMOUNT_UNCOVERED", "amount_uncovered");
        ("REVENUE", "revenue"); ("COVERED_ENCOUNTERS", "covered_encounters");
        ("UNCOVERED_ENCOUNTERS", "uncovered_encounters"); ("COVERED_MEDICATIONS", "covered_medications");
        ("UNCOVERED_MEDICATIONS", "uncovered_medications"); ("COVERED_PROCEDURES", "covered_procedures");
        ("UNCOVERED_PROCEDURES", "uncovered_procedures"); ("COVERED_IMMUNIZATIONS", "covered_immunizations");
        ("UNCOVERED_IMMUNIZATIONS", "uncovered_immunizations"); ("UNIQUE_CUSTOMERS", "unique_customers");
        ("QOLS_AVG", "qols_avg"); ("MEMBER_MONTHS", "member_months") ]);
    ("encounters",
      [ ("ID", "id"); ("START", "start_time");
        ("STOP", "stop_time"); ("PATIENT", "patient_id");
        ("ORGANIZATION", "organization_id"); ("PROVIDER", "provider_id");
        ("PAYER", "payer_id"); ("ENCOUNTERCLASS", "encounter_class");
        ("CODE", "code"); ("DESCRIPTION", "description");
        ("BASE_ENCOUNTER_COST", "base_encounter_cost"); ("TOTAL_CLAIM_COST", "total_claim_cost");
        ("PAYER_COVERAGE", "payer_coverage"); ("REASONCODE", "reason_code");
        ("REASONDESCRIPTION", "reason_description") ]);
    ("conditions",
      [ ("START", "start_date"); ("STOP", "stop_date");
        ("PATIENT", "patient_id"); ("ENCOUNTER", "encounter_id");
        ("SYSTEM", "system"); ("CODE", "code");
        ("DESCRIPTION", "description") ]);
    ("medications",
      [ ("START", "start_date"); ("STOP", "stop_date");
        ("PATIENT", "patient_id"); ("PAYER", "payer_id");
        ("ENCOUNTER", "encounter_id"); ("CODE", "code");
        ("DESCRIPTION", "description"); ("BASE_COST", "base_cost");
        ("PAYER_COVERAGE", "payer_coverage"); ("DISPENSES", "dispenses");
        ("TOTALCOST", "total_cost"); ("REASONCODE", "reason_code");
        ("REASONDESCRIPTION", "reason_description") ])
  ].

Definition column_mappings : gmap string (gmap string string) :=
  list_to_map (map (fun '(t, m) => (t, list_to_map m)) column_mappings_items).

(** *** Schema lookup and cleaning *)

(** [get_table_schema]: an introspection that raises yields the empty
    dictionary. *)
Definition get_table_schema (inspection : outcome Inspection) : schema_dict :=
  match inspection with
  | Returned i => SchemaOf (insp_columns i) (insp_pk i)
  | Raised _ => SchemaEmpty
  end.

(** The branch of the [if]/[elif] chain a column type selects. *)
Inductive conversion : Type :=
| Timestamp | Date | Numeric | Integer | Boolean | Unconverted.

Definition conversion_of (col_type : string) : conversion :=
  if Str.contains "timestamp" col_type || Str.contains "datetime" col_type then Timestamp
  else if Str.contains "date" col_type then Date
  else if Str.contains "numeric" col_type || Str.contains "decimal" col_type
          || Str.contains "float" col_type then Numeric
  else if Str.contains "integer" col_type || Str.contains "int" col_type then Integer
  else if Str.contains "boolean" col_type || Str.contains "bool" col_type then Boolean
  else Unconverted.

Section Cleaning.

Context (pd : Pandas).

(** One turn of the loop over [schema['columns']].  The [except]
    branch is reached from [pd.to_datetime] and [pd.to_numeric] when
    [df[col_name]] is not a Series, and from [astype('boolean')] when a
    value does not convert; it logs a warning and leaves the frame as
    it was. *)
Definition convert_column (col : string * string) (acc : DataFrame * list log_entry)
  : DataFrame * list log_entry :=
  let '(col_name, col_info_type) := col in
  let '(df, log) := acc in
  if Str.mem col_name (columns df) then
    let col_type := Str.lower col_info_type in
    let coerced f :=
      if is_series col_name df then (assign_col col_name f df, log)
      else (df, log ++ [ConvertFailed col_name col_type]) in
    match conversion_of col_type with
    | Timestamp => coerced (to_datetime pd)
    | Date => coerced (to_date pd)
    | Numeric => coerced (to_numeric pd)
    | Integer => coerced (to_numeric pd)
    | Boolean =>
        if astype_boolean_ok pd col_name df
        then (assign_col col_name (to_boolean_or_null pd) df, log)
        else (df, log ++ [ConvertFailed col_name col_type])
    | Unconverted => (df, log)
    end
  else (df, log).

Definition convert_types (schema : schema_dict) (df : DataFrame)
  : DataFrame * list log_entry :=
  fold_left (fun acc col => convert_column col acc) (schema_columns schema) (df, []).

(** One turn of the loop over the primary key columns. *)
Definition drop_null_pk (pk_col : string) (acc : DataFrame * list log_entry)
  : DataFrame * list log_entry :=
  let '(df, log) := acc in
  if Str.mem pk_col (columns df) then
    let initial_count := len df in
    let df' := dropna pk_col df in
    let dropped_count := initial_count - len df' in
    if 0 <? dropped_count
    then (df', log ++ [DroppedNullPk dropped_count pk_col])
    else (df', log)
  else (df, log).

(** The frame as it stands before the types are converted. *)
Definition prepare (table_name : string) (df : DataFrame) : DataFrame :=
  normalize_nulls
    match column_mappings !! table_name with
    | Some mapping => rename_upper mapping df
    | None => df
    end.

(** [clean_dataframe], with what it logs as warnings. *)
Definition clean_dataframe (inspection : outcome Inspection)
    (df : DataFrame) (table_name : string) : DataFrame * list log_entry :=
  let df := prepare table_name df in
  let schema := get_table_schema inspection in
  let converted := convert_types schema df in
  let pk_columns := schema_primary_keys schema in
  fold_left (fun acc pk_col => drop_null_pk pk_col acc) pk_columns converted.

End Cleaning.

(** *** Loading one table *)

(** The CSV file of a table, as the loader sees it. *)
Record CsvFile : Type := mkCsvFile {
  csv_exists : bool;
  csv_size : nat;
  csv_sample : outcome DataFrame;   (* pd.read_csv(csv_path, nrows=5) *)
  csv_read : outcome DataFrame      (* pd.read_csv(csv_path) *)
}.

(** What the store and the file system answer while one table loads.
    [to_sql b a] is the result of the write of batch [b] (counted from
    1) at attempt [a] (counted from 0): [None] when it goes through. *)
Record TableEnv : Type := mkTableEnv {
  csv : CsvFile;
  inspection : outcome Inspection;
  truncate : option exn;
  to_sql : nat -> nat -> option exn;
  select_count : outcome nat
}.

Record TableStats : Type := mkTableStats {
  total_rows_in_csv : nat;
  rows_loaded : nat;
  batches_processed : nat;
  errors : list message;
  warnings : list message;
  success : bool
}.

Definition initial_stats : TableStats :=
  {| total_rows_in_csv := 0; rows_loaded := 0; batches_processed := 0;
     errors := []; warnings := []; success := false |}.

Definition set_total_rows (n : nat) (st : TableStats) : TableStats :=
  {| total_rows_in_csv := n; rows_loaded := rows_loaded st;
     batches_processed := batches_processed st; errors := errors st;
     warnings := warnings st; success := success st |}.

Definition set_rows_loaded (n : nat) (st : TableStats) : TableStats :=
  {| total_rows_in_csv := total_rows_in_csv st; rows_loaded := n;
     batches_processed := batches_processed st; errors := errors st;
     warnings := warnings st; success := success st |}.

Definition batch_done (n : nat) (st : TableStats) : TableStats :=
  {| total_rows_in_csv := total_rows_in_csv st; rows_loaded := rows_loaded st + n;
     batches_processed := batches_processed st + 1; errors := errors st;
     warnings := warnings st; success := success st |}.

Definition add_errors (ms : list message) (st : TableStats) : TableStats :=
  {| total_rows_in_csv := total_rows_in_csv st; rows_loaded := rows_loaded st;
     batches_processed := batches_processed st; errors := errors st ++ ms;
     warnings := warnings st; success := success st |}.

Definition add_warning (m : message) (st : TableStats) : TableStats :=
  {| total_rows_in_csv := total_rows_in_csv st; rows_loaded := rows_loaded st;
     batches_processed := batches_processed st; errors := errors st;
     warnings := warnings st ++ [m]; success := success st |}.

Definition set_success (b : bool) (st : TableStats) : TableStats :=
  {| total_rows_in_csv := total_rows_in_csv st; rows_loaded := rows_loaded st;
     batches_processed := batches_processed st; errors := errors st;
     warnings := warnings st; success := b |}.

(** [validate_csv_file] *)
Definition validate_csv_file (f : CsvFile) (table_name : string) : bool * list message :=
  if negb (csv_exists f) then (false, [CsvMissing table_name])
  else if csv_size f =? 0 then (false, [CsvEmpty table_name])
  else
    match csv_sample f with
    | Raised e => (false, [CsvValidationError e])
    | Returned df_sample =>
        if len df_sample =? 0 then (false, [CsvNoDataRows table_name])
        else
          match column_mappings !! table_name with
          | Some mapping =>
              let expected_columns : gset string := dom mapping in
              let actual_columns : gset string :=
                list_to_set (map Str.upper (columns df_sample)) in
              let missing_columns := expected_columns ∖ actual_columns in
              if decide (missing_columns = ∅) then (true, [])
              else (true, [CsvMissingColumns missing_columns])
          | None => (true, [])
          end
    end.

(** [load_table_batch]: every exception of the write is caught here,
    so the [except] branch of the retry loop around it never runs. *)
Definition load_table_batch (write : option exn) (df_batch : DataFrame) : bool * nat :=
  match write with
  | None => (true, len df_batch)
  | Some _ => (false, 0)
  end.

Section Loading.

Context (cfg : Config) (pd : Pandas) (env : TableEnv) (table_name : string).

(** [for attempt in range(self.max_retries)], for one batch; the
    list holds the attempts still to come. *)
Fixpoint retry_loop (df_batch : DataFrame) (batch_num : nat) (attempts : list nat)
    (st : TableStats) : TableStats * list event :=
  match attempts with
  | [] => (st, [])
  | attempt :: later =>
      let '(ok, loaded) := load_table_batch (to_sql env batch_num attempt) df_batch in
      let ev := Write table_name batch_num attempt (rows df_batch) ok in
      if ok then (batch_done loaded st, [ev])
      else if attempt <? max_retries cfg - 1 then
        let '(st', tr) := retry_loop df_batch batch_num later st in
        (st', ev :: Sleep (retry_delay cfg) :: tr)
      else
        let st1 := add_errors [BatchFailedAfter batch_num (max_retries cfg)] st in
        let '(st', tr) := retry_loop df_batch batch_num later st1 in
        (st', ev :: tr)
  end.

(** [for batch_num in range(total_batches)] *)
Fixpoint batch_loop (df_clean : DataFrame) (batch_nums : list nat) (st : TableStats)
  : TableStats * list event :=
  match batch_nums with
  | [] => (st, [])
  | batch_num :: later =>
      let start_idx := batch_num * batch_size cfg in
      let end_idx := (batch_num + 1) * batch_size cfg `min` len df_clean in
      let df_batch := iloc start_idx end_idx df_clean in
      let '(st1, tr1) :=
        retry_loop df_batch (batch_num + 1) (seq 0 (max_retries cfg)) st in
      let '(st2, tr2) := batch_loop df_clean later st1 in
      (st2, tr1 ++ tr2)
  end.

Definition total_batches (df_clean : DataFrame) : nat :=
  (len df_clean + batch_size cfg - 1) / batch_size cfg.

(** The verification that closes a load: the count of the store
    replaces the summed count when they differ. *)
Definition verify_loaded (actual_count : nat) (st : TableStats) : TableStats :=
  if actual_count =? rows_loaded st then st
  else set_rows_loaded actual_count
         (add_warning (RowCountMismatch (rows_loaded st) actual_count) st).

(** The part of [load_table_with_retry] from the truncate on. *)
Definition load_cleaned (df_clean : DataFrame) (st : TableStats)
  : TableStats * list event :=
  match truncate env with
  | Some e =>
      (add_errors [UnexpectedError table_name e] st, [Truncate table_name false])
  | None =>
      if batch_size cfg =? 0 then
        (add_errors [UnexpectedError table_name "division by zero"] st,
         [Truncate table_name true])
      else
        let '(st1, tr) := batch_loop df_clean (seq 0 (total_batches df_clean)) st in
        match select_count env with
        | Raised e =>
            (add_errors [UnexpectedError table_name e] st1,
             Truncate table_name true :: tr ++ [Count table_name false])
        | Returned actual_count =>
            let st2 := verify_loaded actual_count st1 in
            (set_success (length (errors st2) =? 0) st2,
             Truncate table_name true :: tr ++ [Count table_name true])
        end
  end.

(** [load_table_with_retry] *)
Definition load_table_with_retry : TableStats * list event :=
  let st := initial_stats in
  let '(is_valid, issues) := validate_csv_file (csv env) table_name in
  if negb is_valid then (add_errors issues st, [])
  else
    match csv_read (csv env) with
    | Raised e => (add_errors [UnexpectedError table_name e] st, [])
    | Returned df =>
        let st := set_total_rows (len df) st in
        if len df =? 0 then (set_success true (add_warning NoDataInCsv st), [])
        else
          let '(df_clean, _) := clean_dataframe pd (inspection env) df table_name in
          if len df_clean =? 0
          then (set_success true (add_warning NoValidDataAfterCleaning st), [])
          else load_cleaned df_clean st
    end.

End Loading.

(** *** The integrity check of the loader *)

(** The relationships [validate_referential_integrity] checks:
    child table, child column, parent table, parent column. *)
Definition relationships : list (string * string * string * string) :=
  [ ("providers", "organization_id", "organizations", "id");
    ("encounters", "patient_id", "patients", "id");
    ("encounters", "organization_id", "organizations", "id");
    ("encounters", "provider_id", "providers", "id");
    ("encounters", "payer_id", "payers", "id");
    ("conditions", "patient_id", "patients", "id");
    ("conditions", "encounter_id", "encounters", "id");
    ("medications", "patient_id", "patients", "id");
    ("medications", "encounter_id", "encounters", "id");
    ("medications", "payer_id", "payers", "id") ].

Record IntegrityDetail : Type := mkIntegrityDetail {
  child_table : string;
  child_column : string;
  parent_table : string;
  parent_column : string;
  orphaned_records : nat
}.

Record IntegrityResults : Type := mkIntegrityResults {
  checks_performed : nat;
  violations_found : nat;
  details : list IntegrityDetail;
  error : option exn
}.

Definition initial_integrity : IntegrityResults :=
  {| checks_performed := 0; violations_found := 0; details := []; error := None |}.

(** The loop over the relationships; a query that raises leaves the
    loop through the enclosing [except], so that every query is issued
    in a transaction that has not failed. *)
Fixpoint check_relationships (rels : list (string * string * string * string))
    (db : Sql.store) (res : IntegrityResults) : IntegrityResults * Sql.store :=
  match rels with
  | [] => (res, db)
  | (child_table, child_col, parent_table, parent_col) :: later =>
      let checks := checks_performed res + 1 in
      match Sql.execute (Sql.SelectCountOrphans child_table child_col parent_table parent_col) db with
      | (Raised e, db') =>
          ({| checks_performed := checks; violations_found := violations_found res;
              details := details res; error := Some e |}, db')
      | (Returned violation_count, db') =>
          let res' :=
            if 0 <? violation_count then
              {| checks_performed := checks;
                 violations_found := violations_found res + violation_count;
                 details := details res ++
                   [ {| child_table := child_table; child_column := child_col;
                        parent_table := parent_table; parent_column := parent_col;
                        orphaned_records := violation_count |} ];
                 error := error res |}
            else
              {| checks_performed := checks; violations_found := violations_found res;
                 details := details res; error := error res |} in
          check_relationships later db' res'
      end
  end.

(** [validate_referential_integrity]; [connect] is the exception of
    [self.engine.connect()], if it raises. *)
Definition validate_referential_integrity (connect : option exn) (db : Sql.store)
  : IntegrityResults * Sql.store :=
  match connect with
  | Some e =>
      ({| checks_performed := 0; violations_found := 0; details := []; error := Some e |}, db)
  | None => check_relationships relationships db initial_integrity
  end.

(** *** The whole run *)

Record Env : Type := mkEnv {
  database_valid : bool;            (* validate_database_connection() *)
  tables : string -> TableEnv;
  connect : option exn;
  loaded_store : Sql.store;         (* the store once the tables are loaded *)
  report_write : option exn         (* what mkdir, open or write of the report raises *)
}.

Record LoadingStats : Type := mkLoadingStats {
  tables_processed : nat;
  total_rows_loaded : nat;
  all_errors : list message;
  all_warnings : list message;
  table_stats : gmap string TableStats;
  integrity_check : option IntegrityResults
}.

Definition initial_loading_stats : LoadingStats :=
  {| tables_processed := 0; total_rows_loaded := 0; all_errors := [];
     all_warnings := []; table_stats := ∅; integrity_check := None |}.

Section Run.

Context (cfg : Config) (pd : Pandas) (env : Env).

(** [for table_name in self.loading_order] *)
Fixpoint load_tables (order : list string) (ls : LoadingStats)
  : LoadingStats * list event :=
  match order with
  | [] => (ls, [])
  | table_name :: later =>
      if negb (csv_exists (csv (tables env table_name))) then
        let ls1 :=
          {| tables_processed := tables_processed ls;
             total_rows_loaded := total_rows_loaded ls;
             all_errors := all_errors ls;
             all_warnings := all_warnings ls ++ [CsvNotFound table_name];
             table_stats := table_stats ls;
             integrity_check := integrity_check ls |} in
        let '(ls', tr) := load_tables later ls1 in
        (ls', Skip table_name :: tr)
      else
        let '(stats, tr1) :=
          load_table_with_retry cfg pd (tables env table_name) table_name in
        let ls1 :=
          {| tables_processed := tables_processed ls + 1;
             total_rows_loaded := total_rows_loaded ls + rows_loaded stats;
             all_errors := all_errors ls ++ errors stats;
             all_warnings := all_warnings ls ++ warnings stats;
             table_stats := <[table_name := stats]> (table_stats ls);
             integrity_check := integrity_check ls |} in
        let '(ls', tr) := load_tables later ls1 in
        (ls', Begin table_name :: tr1 ++ Finish table_name :: tr)
  end.

(** [load_all_tables]: the report is written after the integrity check
    and outside any [try], so what its [mkdir], [open] or [write] raises
    leaves the function; the statistics are those of the loader object
    at that point. *)
Definition load_all_tables : outcome bool * LoadingStats * list event :=
  if negb (database_valid env) then (Returned false, initial_loading_stats, [])
  else
    let '(ls, tr) := load_tables loading_order initial_loading_stats in
    let '(integrity_results, _) :=
      validate_referential_integrity (connect env) (loaded_store env) in
    let ls' :=
      {| tables_processed := tables_processed ls;
         total_rows_loaded := total_rows_loaded ls;
         all_errors := all_errors ls;
         all_warnings := all_warnings ls;
         table_stats := table_stats ls;
         integrity_check := Some integrity_results |} in
    match report_write env with
    | Some e => (Raised e, ls', tr)
    | None => (Returned (length (all_errors ls') =? 0), ls', tr)
    end.

End Run.

End EnhancedDataLoader.

(** ** [simple_enhanced_loader.py] *)

Module SimpleEnhancedLoader.

Record Stats : Type := mkStats {
  tables_loaded : nat;
  total_rows : nat;
  errors : list message;
  warnings : list message
}.

Definition initial_stats : Stats :=
  {| tables_loaded := 0; total_rows := 0; errors := []; warnings := [] |}.

Definition add_error (m : message) (st : Stats) : Stats :=
  {| tables_loaded := tables_loaded st; total_rows := total_rows st;
     errors := errors st ++ [m]; warnings := warnings st |}.

(** What the outside world answers while one table is imported.
    [prepared] is the frame the [import_*] function has built when it
    reaches its truncate (read, renamed, converted, cleaned, reduced to
    the expected columns), or the exception raised on the way;
    [to_sql b] is the result of the write of batch [b], counted from 1. *)
Record TableEnv : Type := mkTableEnv {
  prepared : outcome DataFrame;
  truncate : option exn;
  to_sql : nat -> option exn
}.

(** [truncate_table]: the exception is caught and turned into [False]. *)
Definition truncate_table (env : TableEnv) (table_name : string) : bool * list event :=
  match truncate env with
  | None => (true, [Truncate table_name true])
  | Some _ => (false, [Truncate table_name false])
  end.

Section ImportTable.

Context (env : TableEnv) (table_name : string).

(** [for batch_num in range(num_batches)] *)
Fixpoint batch_loop (df : DataFrame) (batch_size : nat) (batch_nums : list nat)
    (loaded_rows : nat) (st : Stats) : nat * Stats * list event :=
  match batch_nums with
  | [] => (loaded_rows, st, [])
  | batch_num :: later =>
      let start_idx := batch_num * batch_size in
      let end_idx := (batch_num + 1) * batch_size `min` len df in
      let batch_df := iloc start_idx end_idx df in
      match to_sql env (batch_num + 1) with
      | None =>
          let '(n, st', tr) :=
            batch_loop df batch_size later (loaded_rows + len batch_df) st in
          (n, st', Write table_name (batch_num + 1) 0 (rows batch_df) true :: tr)
      | Some e =>
          let st1 := add_error (BatchError table_name (batch_num + 1) e) st in
          let '(n, st', tr) := batch_loop df batch_size later loaded_rows st1 in
          (n, st', Write table_name (batch_num + 1) 0 (rows batch_df) false :: tr)
      end
  end.

(** [load_with_batch_processing]; the callers keep the default
    [batch_size=1000].  With [batch_size=0] and a frame that has rows
    the division of the source raises a [ZeroDivisionError], where the
    division here gives no batch: the function is the source's for a
    batch size that is not zero, which is how it is called and how the
    statements about it take it. *)
Definition load_with_batch_processing (df : DataFrame) (batch_size : nat) (st : Stats)
  : nat * Stats * list event :=
  let total_rows := len df in
  if total_rows =? 0 then (0, st, [])
  else
    let num_batches := (total_rows + batch_size - 1) / batch_size in
    batch_loop df batch_size (seq 0 num_batches) 0 st.

(** The common shape of [import_patients], [import_organizations],
    ...: the result is [None] when the function runs off its end,
    which it does when the truncate fails. *)
Definition import_table (st : Stats) : option nat * Stats * list event :=
  match prepared env with
  | Raised e => (Some 0, add_error (ImportError table_name e) st, [])
  | Returned df =>
      let '(truncated, tr0) := truncate_table env table_name in
      if truncated then
        let '(loaded_rows, st', tr) := load_with_batch_processing df 1000 st in
        (Some loaded_rows, st', tr0 ++ tr)
      else (None, st, tr0)
  end.

End ImportTable.

(** The names in [loading_functions]. *)
Definition loading_functions : list string :=
  [ "organizations"; "payers"; "patients"; "providers"; "encounters";
    "conditions"; "medications" ].

(** [for table_name, load_func in loading_functions]; comparing the
    [None] of a failed truncate with [0] raises a [TypeError], which
    nothing catches. *)
Fixpoint load_loop (envs : string -> TableEnv) (fns : list string) (st : Stats)
  : outcome Stats * list event :=
  match fns with
  | [] => (Returned st, [])
  | table_name :: later =>
      let '(rows_loaded, st1, tr1) := import_table (envs table_name) table_name st in
      match rows_loaded with
      | None =>
          (Raised "'>' not supported between instances of 'NoneType' and 'int'",
           Begin table_name :: tr1)
      | Some n =>
          let st2 :=
            if 0 <? n then
              {| tables_loaded := tables_loaded st1 + 1; total_rows := total_rows st1 + n;
                 errors := errors st1; warnings := warnings st1 |}
            else st1 in
          let '(res, tr) := load_loop envs later st2 in
          (res, Begin table_name :: tr1 ++ Finish table_name :: tr)
      end
  end.

(** [load_all_data]; the integrity check and the summary that follow
    the loop only read the store and are left out. *)
Definition load_all_data (envs : string -> TableEnv) : outcome bool * list event :=
  match load_loop envs loading_functions initial_stats with
  | (Returned st, tr) => (Returned (length (errors st) =? 0), tr)
  | (Raised e, tr) => (Raised e, tr)
  end.

(** *** The integrity check of the simple loader *)

(** The relationships in [checks]. *)
Definition checks : list (string * string * string * string) :=
  [ ("providers", "organization_id", "organizations", "id");
    ("encounters", "patient_id", "patients", "id");
    ("encounters", "provider_id", "providers", "id");
    ("encounters", "organization_id", "organizations", "id");
    ("conditions", "patient_id", "patients", "id");
    ("conditions", "encounter_id", "encounters", "id");
    ("medications", "patient_id", "patients", "id");
    ("medications", "encounter_id", "encounters", "id") ].

(** [for child_table, child_col, parent_table, parent_col in checks];
    a query that raises is logged and the loop goes on, on the same
    connection. *)
Fixpoint check_loop (cs : list (string * string * string * string)) (conn : Sql.connection)
    (violations : nat) : nat * Sql.connection :=
  match cs with
  | [] => (violations, conn)
  | (child_table, child_col, parent_table, parent_col) :: later =>
      match Sql.run (Sql.SelectCountOrphans child_table child_col parent_table parent_col) conn with
      | (Returned violation_count, conn') =>
          check_loop later conn'
            (if 0 <? violation_count then violations + violation_count else violations)
      | (Raised _, conn') => check_loop later conn' violations
      end
  end.

(** [validate_referential_integrity]; [connect] is the exception of
    [self.engine.connect()], if it raises. *)
Definition validate_referential_integrity (connect : option exn) (db : Sql.store)
  : bool * Sql.store :=
  match connect with
  | Some _ => (false, db)
  | None =>
      let '(violations, conn) := check_loop checks (Sql.connection_on db) 0 in
      (violations =? 0, Sql.conn_store conn)
  end.

(** *** What the [import_*] functions do to the frame they read *)

(** [validate_and_clean_data]; what it logs is left out. *)
Definition validate_and_clean_data (df : DataFrame) : DataFrame := normalize_nulls df.

(** [df[col] = convert(df[col], errors='coerce')]: a label the frame
    lacks raises a [KeyError]; under a label it has more than once
    [df[col]] is a frame, on which the conversion raises. *)
Definition convert_in_place (f : cell -> cell) (col : string) (df : DataFrame)
  : outcome DataFrame :=
  match List.filter (String.eqb col) (columns df) with
  | [] => Raised ("KeyError: " +:+ col)
  | [_] => Returned (assign_col col f df)
  | _ => Raised ("cannot convert the columns labelled " +:+ col)
  end.

(** [if col in df.columns: df[col] = convert(df[col], errors='coerce')] *)
Definition convert_if_present (f : cell -> cell) (col : string) (df : DataFrame)
  : outcome DataFrame :=
  if Str.mem col (columns df) then convert_in_place f col df else Returned df.

(** A run of conversions, left at the first that raises. *)
Fixpoint convert_each (step : string -> DataFrame -> outcome DataFrame)
    (cols : list string) (df : DataFrame) : outcome DataFrame :=
  match cols with
  | [] => Returned df
  | col :: later =>
      match step col df with
      | Returned df' => convert_each step later df'
      | Raised e => Raised e
      end
  end.

(** [df[[col for col in names if col in df.columns]]] *)
Definition select_columns (names : list string) (df : DataFrame) : DataFrame :=
  let kept := List.filter (fun col => Str.mem col (columns df)) names in
  {| columns := flat_map (fun col => List.filter (String.eqb col) (columns df)) kept;
     rows := map (fun r => flat_map (fun col => get_col col (columns df) r) kept) (rows df) |}.

(** What tells one [import_*] function from another: its mapping (for
    payers it depends on the labels of the file), the columns it
    converts to timestamps without looking whether they are there, those
    it converts when they are there, and the numeric ones. *)
Record ImportSpec : Type := mkImportSpec {
  column_mapping : list string -> list (string * string);
  timestamp_columns : list string;
  date_columns : list string;
  numeric_columns : list string
}.

Definition patients_spec : ImportSpec :=
  {| column_mapping := fun _ =>
       [ ("ID", "id"); ("BIRTHDATE", "birth_date");
         ("DEATHDATE", "death_date"); ("SSN", "ssn");
         ("DRIVERS", "drivers"); ("PASSPORT", "passport");
         ("PREFIX", "prefix"); ("FIRST", "first_name");
         ("MIDDLE", "middle_name"); ("LAST", "last_name");
         ("SUFFIX", "suffix"); ("MAIDEN", "maiden_name");
         ("MARITAL", "marital_status"); ("RACE", "race");
         ("ETHNICITY", "ethnicity"); ("GENDER", "gender");
         ("BIRTHPLACE", "birth_place"); ("ADDRESS", "address");
         ("CITY", "city"); ("STATE", "state");
         ("COUNTY", "county"); ("FIPS", "fips");
         ("ZIP", "zip"); ("LAT", "latitude");
         ("LON", "longitude"); ("HEALTHCARE_EXPENSES", "healthcare_expenses");
         ("HEALTHCARE_COVERAGE", "healthcare_coverage"); ("INCOME", "income") ];
     timestamp_columns := [];
     date_columns := ["birth_date"; "death_date"];
     numeric_columns :=
       ["latitude"; "longitude"; "healthcare_expenses"; "healthcare_coverage"; "income"] |}.

Definition organizations_spec : ImportSpec :=
  {| column_mapping := fun _ =>
       [ ("ID", "id"); ("NAME", "name");
         ("ADDRESS", "address"); ("CITY", "city");
         ("STATE", "state"); ("ZIP", "zip");
         ("LAT", "latitude"); ("LON", "longitude");
         ("PHONE", "phone"); ("REVENUE", "revenue");
         ("UTILIZATION", "utilization") ];
     timestamp_columns := [];
     date_columns := [];
     numeric_columns := ["latitude"; "longitude"; "revenue"; "utilization"] |}.

Definition providers_spec : ImportSpec :=
  {| column_mapping := fun _ =>
       [ ("ID", "id"); ("ORGANIZATION", "organization_id");
         ("NAME", "name"); ("GENDER", "gender");
         ("SPECIALITY", "speciality"); ("ADDRESS", "address");
         ("CITY", "city"); ("STATE", "state");
         ("ZIP", "zip"); ("LAT", "latitude");
         ("LON", "longitude"); ("ENCOUNTERS", "utilization") ];
     timestamp_columns := [];
     date_columns := [];
     numeric_columns := ["latitude"; "longitude"; "utilization"] |}.

(** The mapping of [import_payers]: the two core labels, and those of
    [optional_mappings] the file has. *)
Definition optional_mappings : list (string * string) :=
  [ ("OWNERSHIP", "ownership"); ("ADDRESS", "address");
    ("CITY", "city"); ("STATE", "state");
    ("ZIP", "zip"); ("PHONE", "phone") ].

Definition payers_spec : ImportSpec :=
  {| column_mapping := fun df_columns =>
       [ ("ID", "id"); ("NAME", "name") ]
       ++ List.filter (fun '(csv_col, _) => Str.mem csv_col df_columns) optional_mappings;
     timestamp_columns := [];
     date_columns := [];
     numeric_columns := [] |}.

Definition encounters_spec : ImportSpec :=
  {| column_mapping := fun _ =>
       [ ("ID", "id"); ("START", "start_time");
         ("STOP", "stop_time"); ("PATIENT", "patient_id");
         ("ORGANIZATION", "organization_id"); ("PROVIDER", "provider_id");
         ("PAYER", "payer_id"); ("ENCOUNTERCLASS", "encounter_class");
         ("CODE", "code"); ("DESCRIPTION", "description");
         ("BASE_ENCOUNTER_COST", "base_encounter_cost"); ("TOTAL_CLAIM_COST", "total_claim_cost");
         ("PAYER_COVERAGE", "payer_coverage"); ("REASONCODE", "reason_code");
         ("REASONDESCRIPTION", "reason_description") ];
     timestamp_columns := ["start_time"; "stop_time"];
     date_columns := [];
     numeric_columns := ["base_encounter_cost"; "total_claim_cost"; "payer_coverage"] |}.

Definition conditions_spec : ImportSpec :=
  {| column_mapping := fun _ =>
       [ ("START", "start_date"); ("STOP", "stop_date");
         ("PATIENT", "patient_id"); ("ENCOUNTER", "encounter_id");
         ("SYSTEM", "system"); ("CODE", "code");
         ("DESCRIPTION", "description") ];
     timestamp_columns := ["start_date"; "stop_date"];
     date_columns := [];
     numeric_columns := [] |}.

Definition medications_spec : ImportSpec :=
  {| column_mapping := fun _ =>
       [ ("START", "start_date"); ("STOP", "stop_date");
         ("PATIENT", "patient_id"); ("PAYER", "payer_id");
         ("ENCOUNTER", "encounter_id"); ("CODE", "code");
         ("DESCRIPTION", "description"); ("BASE_COST", "base_cost");
         ("PAYER_COVERAGE", "payer_coverage"); ("DISPENSES", "dispenses");
         ("TOTALCOST", "total_cost"); ("REASONCODE", "reason_code");
         ("REASONDESCRIPTION", "reason_description") ];
     timestamp_columns := ["start_date"; "stop_date"];
     date_columns := [];
     numeric_columns := ["base_cost"; "payer_coverage"; "dispenses"; "total_cost"] |}.

(** The [import_*] function of a table, by the name it has in
    [loading_functions]. *)
Definition import_spec (table_name : string) : option ImportSpec :=
  list_to_map (M := gmap string ImportSpec)
    [ ("organizations", organizations_spec); ("payers", payers_spec);
      ("patients", patients_spec); ("providers", providers_spec);
      ("encounters", encounters_spec); ("conditions", conditions_spec);
      ("medications", medications_spec) ] !! table_name.

(** The frame an [import_*] function has built when it reaches its
    truncate, from the frame it read. *)
Definition prepare_import (pd : Pandas) (spec : ImportSpec) (df : DataFrame)
  : outcome DataFrame :=
  let mapping := column_mapping spec (map Str.upper (columns df)) in
  let df := rename_upper (list_to_map mapping) df in
  match convert_each (convert_in_place (to_datetime pd)) (timestamp_columns spec) df with
  | Raised e => Raised e
  | Returned df =>
      match convert_each (convert_if_present (to_datetime pd)) (date_columns spec) df with
      | Raised e => Raised e
      | Returned df =>
          match convert_each (convert_if_present (to_numeric pd)) (numeric_columns spec) df with
          | Raised e => Raised e
          | Returned df =>
              let df := validate_and_clean_data df in
              Returned (select_columns (map snd mapping) df)
          end
      end
  end.

(** The environment of an import whose [pd.read_csv] answers [read]. *)
Definition import_env (pd : Pandas) (spec : ImportSpec) (read : outcome DataFrame)
    (truncate : option exn) (to_sql : nat -> option exn) : TableEnv :=
  {| prepared :=
       match read with
       | Returned df => prepare_import pd spec df
       | Raised e => Raised e
       end;
     truncate := truncate;
     to_sql := to_sql |}.

End SimpleEnhancedLoader.

(** ** [comprehensive_validator.py] *)

Module ComprehensiveValidator.

Record Relationship : Type := mkRelationship {
  name : string;
  child_table : string;
  child_column : string;
  parent_table : string;
  parent_column : string;
  allow_null : bool
}.

(** The relationships [validate_referential_integrity] declares. *)
Definition relationships : list Relationship :=
  [
    {| name := "providers_organization"; child_table := "providers"; child_column := "organization_id";
       parent_table := "organizations"; parent_column := "id"; allow_null := true |};
    {| name := "encounters_patient"; child_table := "encounters"; child_column := "patient_id";
       parent_table := "patients"; parent_column := "id"; allow_null := false |};
    {| name := "encounters_provider"; child_table := "encounters"; child_column := "provider_id";
       parent_table := "providers"; parent_column := "id"; allow_null := true |};
    {| name := "encounters_organization"; child_table := "encounters"; child_column := "organization_id";
       parent_table := "organizations"; parent_column := "id"; allow_null := true |};
    {| name := "encounters_payer"; child_table := "encounters"; child_column := "payer_id";
       parent_table := "payers"; parent_column := "id"; allow_null := true |};
    {| name := "conditions_patient"; child_table := "conditions"; child_column := "patient_id";
       parent_table := "patients"; parent_column := "id"; allow_null := false |};
    {| name := "conditions_encounter"; child_table := "conditions"; child_column := "encounter_id";
       parent_table := "encounters"; parent_column := "id"; allow_null := true |};
    {| name := "medications_patient"; child_table := "medications"; child_column := "patient_id";
       parent_table := "patients"; parent_column := "id"; allow_null := false |};
    {| name := "medications_encounter"; child_table := "medications"; child_column := "encounter_id";
       parent_table := "encounters"; parent_column := "id"; allow_null := true |};
    {| name := "medications_payer"; child_table := "medications"; child_column := "payer_id";
       parent_table := "payers"; parent_column := "id"; allow_null := true |}
  ].

Inductive issue : Type :=
| NullInNonNullable (count : nat)   (* "Found N null values in non-nullable foreign key" *)
| OrphanedRecords (count : nat)     (* "Found N orphaned records" *)
| ValidationError (e : exn).        (* "Validation error: ..." *)

Record RelResult : Type := mkRelResult {
  relationship : string;
  child_records : nat;
  orphaned_records : nat;
  null_references : nat;
  valid : bool;
  issues : list issue
}.

Record IntegrityResults : Type := mkIntegrityResults {
  total_checks : nat;
  passed_checks : nat;
  failed_checks : nat;
  violations : list (string * nat);   (* relationship, count; the type is 'orphaned_records' *)
  relationship_details : gmap string RelResult;
  error : option exn
}.

Definition initial_results : IntegrityResults :=
  {| total_checks := 0; passed_checks := 0; failed_checks := 0; violations := [];
     relationship_details := ∅; error := None |}.

(** The [except] branch of one check, then the store of the result. *)
Definition check_failed (e : exn) (r : RelResult) (res : IntegrityResults)
  : IntegrityResults :=
  let r' :=
    {| relationship := relationship r; child_records := child_records r;
       orphaned_records := orphaned_records r; null_references := null_references r;
       valid := false; issues := issues r ++ [ValidationError e] |} in
  {| total_checks := total_checks res; passed_checks := passed_checks res;
     failed_checks := failed_checks res + 1; violations := violations res;
     relationship_details := <[relationship r := r']> (relationship_details res);
     error := error res |}.

(** One turn of [for rel in relationships]; the three queries go to the
    connection of the whole loop. *)
Definition check_relationship (rel : Relationship) (acc : IntegrityResults * Sql.connection)
  : IntegrityResults * Sql.connection :=
  let '(res0, conn) := acc in
  let res :=
    {| total_checks := total_checks res0 + 1; passed_checks := passed_checks res0;
       failed_checks := failed_checks res0; violations := violations res0;
       relationship_details := relationship_details res0; error := error res0 |} in
  let r0 :=
    {| relationship := name rel; child_records := 0; orphaned_records := 0;
       null_references := 0; valid := true; issues := [] |} in
  match Sql.run (Sql.SelectCount (child_table rel)) conn with
  | (Raised e, conn1) => (check_failed e r0 res, conn1)
  | (Returned children, conn1) =>
      let r1 :=
        {| relationship := name rel; child_records := children; orphaned_records := 0;
           null_references := 0; valid := true; issues := [] |} in
      match Sql.run (Sql.SelectCountNull (child_table rel) (child_column rel)) conn1 with
      | (Raised e, conn2) => (check_failed e r1 res, conn2)
      | (Returned nulls, conn2) =>
          let null_issue := negb (allow_null rel) && (0 <? nulls) in
          let r2 :=
            {| relationship := name rel; child_records := children; orphaned_records := 0;
               null_references := nulls; valid := negb null_issue;
               issues := if null_issue then [NullInNonNullable nulls] else [] |} in
          match Sql.run
                  (Sql.SelectCountOrphans (child_table rel) (child_column rel)
                     (parent_table rel) (parent_column rel)) conn2 with
          | (Raised e, conn3) => (check_failed e r2 res, conn3)
          | (Returned orphans, conn3) =>
              let orphaned := 0 <? orphans in
              let r3 :=
                {| relationship := name rel; child_records := children;
                   orphaned_records := orphans; null_references := nulls;
                   valid := valid r2 && negb orphaned;
                   issues := issues r2 ++
                     (if orphaned then [OrphanedRecords orphans] else []) |} in
              ({| total_checks := total_checks res;
                  passed_checks := passed_checks res + (if valid r3 then 1 else 0);
                  failed_checks := failed_checks res + (if valid r3 then 0 else 1);
                  violations := violations res ++
                    (if orphaned then [(name rel, orphans)] else []);
                  relationship_details := <[name rel := r3]> (relationship_details res);
                  error := error res |}, conn3)
          end
      end
  end.

Definition check_relationships (rels : list Relationship) (conn : Sql.connection)
  : IntegrityResults * Sql.connection :=
  fold_left (fun acc rel => check_relationship rel acc) rels (initial_results, conn).

(** [validate_referential_integrity]; [connect] is the exception of
    [self.engine.connect()], if it raises. *)
Definition validate_referential_integrity (connect : option exn) (db : Sql.store)
  : IntegrityResults * Sql.store :=
  match connect with
  | Some e =>
      ({| total_checks := 0; passed_checks := 0; failed_checks := 0; violations := [];
          relationship_details := ∅; error := Some e |}, db)
  | None =>
      let '(integrity_results, conn) :=
        check_relationships relationships (Sql.connection_on db) in
      (integrity_results, Sql.conn_store conn)
  end.

(** *** The structure of the tables *)

(** An entry of [expected_tables]. *)
Record Expectations : Type := mkExpectations {
  required_columns : list string;
  primary_key : string;
  expected_min_rows : nat
}.

Definition expected_tables : list (string * Expectations) :=
  [ ("patients",
      {| required_columns := ["id"; "birth_date"; "gender"; "first_name"; "last_name"];
         primary_key := "id"; expected_min_rows := 50 |});
    ("organizations",
      {| required_columns := ["id"; "name"];
         primary_key := "id"; expected_min_rows := 10 |});
    ("providers",
      {| required_columns := ["id"; "name"; "organization_id"];
         primary_key := "id"; expected_min_rows := 10 |});
    ("payers",
      {| required_columns := ["id"; "name"];
         primary_key := "id"; expected_min_rows := 5 |});
    ("encounters",
      {| required_columns := ["id"; "start_time"; "patient_id"];
         primary_key := "id"; expected_min_rows := 100 |});
    ("conditions",
      {| required_columns := ["start_date"; "patient_id"; "code"; "description"];
         primary_key := "id"; expected_min_rows := 50 |});
    ("medications",
      {| required_columns := ["start_date"; "patient_id"; "description"];
         primary_key := "id"; expected_min_rows := 50 |}) ].

Inductive structure_issue : Type :=
| RowCountBelow (row_count expected : nat)   (* "Row count N below expected minimum M" *)
| MissingRequiredColumn (col : string)       (* "Missing required column: C" *)
| PrimaryKeyNulls (pk_col : string) (count : nat)
                                             (* "Primary key C has N null values" *)
| TableDoesNotExist                          (* "Table does not exist" *)
| StructureError (e : exn).                  (* "Validation error: ..." *)

(** The result of one table; of [column_validation] only the [exists]
    of each required column is kept, the store of the model having
    neither types nor nullability. *)
Record TableResult : Type := mkTableResult {
  table_exists : bool;
  row_count : nat;
  column_validation : list (string * bool);
  primary_key_valid : bool;
  meets_min_rows : bool;
  table_issues : list structure_issue
}.

(** One turn of [for table_name, expectations in expected_tables.items()];
    the catalogue queries are read off the store, the counts are
    queries.  A count is asked only of a relation the catalogue lists,
    and a null count only of a column the catalogue lists for it, so
    that none of them fails and the transaction of the loop goes on. *)
Definition validate_table (table_name : string) (expectations : Expectations)
    (db : Sql.store) : TableResult :=
  match db !! table_name with
  | None =>
      {| table_exists := false; row_count := 0; column_validation := [];
         primary_key_valid := false; meets_min_rows := false;
         table_issues := [TableDoesNotExist] |}
  | Some r =>
      match (Sql.execute (Sql.SelectCount table_name) db).1 with
      | Raised e =>
          {| table_exists := true; row_count := 0; column_validation := [];
             primary_key_valid := false; meets_min_rows := false;
             table_issues := [StructureError e] |}
      | Returned count =>
          let meets := expected_min_rows expectations <=? count in
          let issues1 :=
            if meets then []
            else [RowCountBelow count (expected_min_rows expectations)] in
          let existing_columns := Sql.rel_columns r in
          let validation :=
            map (fun req_col => (req_col, Str.mem req_col existing_columns))
              (required_columns expectations) in
          let issues2 :=
            issues1 ++
            flat_map (fun req_col =>
                        if Str.mem req_col existing_columns then []
                        else [MissingRequiredColumn req_col])
              (required_columns expectations) in
          let pk_col := primary_key expectations in
          if Str.mem pk_col existing_columns then
            match (Sql.execute (Sql.SelectCountNull table_name pk_col) db).1 with
            | Raised e =>
                {| table_exists := true; row_count := count;
                   column_validation := validation;
                   primary_key_valid := false; meets_min_rows := meets;
                   table_issues := issues2 ++ [StructureError e] |}
            | Returned null_pk_count =>
                {| table_exists := true; row_count := count;
                   column_validation := validation;
                   primary_key_valid := null_pk_count =? 0; meets_min_rows := meets;
                   table_issues :=
                     issues2 ++
                     (if 0 <? null_pk_count
                      then [PrimaryKeyNulls pk_col null_pk_count] else []) |}
            end
          else
            {| table_exists := true; row_count := count;
               column_validation := validation;
               primary_key_valid := false; meets_min_rows := meets;
               table_issues := issues2 |}
      end
  end.

(** [validate_table_structure]: the results by table, and the [error]
    entry a failed connection leaves. *)
Definition validate_table_structure (connect : option exn) (db : Sql.store)
  : gmap string TableResult * option exn :=
  match connect with
  | Some e => (∅, Some e)
  | None =>
      (fold_left
         (fun table_validation '(table_name, expectations) =>
            <[table_name := validate_table table_name expectations db]> table_validation)
         expected_tables ∅,
       None)
  end.

End ComprehensiveValidator.

(** ** Vocabulary of the statements *)


(** A row has a null under one of the primary key columns the frame has. *)
Definition null_pk_row (cols pks : list string) (r : list cell) : bool :=
  existsb (fun pk => Str.mem pk cols && null_under pk cols r) pks.

(** The warnings about dropped rows: how many there are, and how many
    rows they account for. *)
Definition pk_warnings (log : list log_entry) : nat :=
  length (List.filter (fun e => match e with DroppedNullPk _ _ => true | _ => false end) log).

Definition dropped_total (log : list log_entry) : nat :=
  fold_right (fun e n => match e with DroppedNullPk k _ => k + n | _ => n end) 0 log.






(** The claim on dropped rows as the specification words it: cleaning
    never adds rows, and every dropped row has a warning of its own. *)
Definition one_warning_per_dropped_row : Prop :=
  forall (pd : Pandas) (inspection : outcome Inspection) (df : DataFrame)
         (table_name : string),
    let r := EnhancedDataLoader.clean_dataframe pd inspection df table_name in
    len r.1 <= len df /\ pk_warnings r.2 = len df - len r.1.


(** A pandas whose parsers accept nothing, and one that reads digits. *)
Definition pandas_rejecting : Pandas :=
  {| parse_datetime := fun _ => None; date_of := fun t => t;
     parse_numeric := fun _ => None; parse_boolean := fun _ => None |}.

(** A store description and an extract of organizations used as a
    running example: the [revenue] of the one row does not parse. *)
Definition organizations_inspection : Inspection :=
  {| insp_columns := [("id", "VARCHAR(36)"); ("revenue", "NUMERIC(12, 2)")];
     insp_pk := ["id"] |}.

Definition organizations_extract : DataFrame :=
  {| columns := ["Id"; "Revenue"]; rows := [[CStr "o1"; CStr "n/a"]] |}.

(** The first of the given attempts at which a write goes through. *)
Fixpoint first_success (write : nat -> option exn) (attempts : list nat) : option nat :=
  match attempts with
  | [] => None
  | a :: later =>
      match write a with
      | None => Some a
      | Some _ => first_success write later
      end
  end.

(** Counting the events of a trace. *)
Definition is_write (e : event) : bool :=
  match e with Write _ _ _ _ _ => true | _ => false end.

Definition is_sleep (e : event) : bool :=
  match e with Sleep _ => true | _ => false end.

Definition write_attempts (tr : list event) : nat := length (List.filter is_write tr).

Definition sleeps (tr : list event) : nat := length (List.filter is_sleep tr).

(** A failed attempt followed by the wait before the next one. *)
Definition failed_attempts (table : string) (b : nat) (batch : list (list cell))
    (delay : nat) (attempts : list nat) : list event :=
  flat_map (fun a => [Write table b a batch false; Sleep delay]) attempts.

(** The retry claim as the specification words it: after the first
    attempt, up to [max_retries] more are made, so a batch whose write
    fails [k <= max_retries] times and then goes through is loaded. *)
Definition retries_after_first_attempt (cfg : EnhancedDataLoader.Config) : Prop :=
  forall (env : EnhancedDataLoader.TableEnv) (table : string) (df_batch : DataFrame)
         (b k : nat) (st : EnhancedDataLoader.TableStats),
    k <= EnhancedDataLoader.max_retries cfg ->
    (forall a, a < k -> EnhancedDataLoader.to_sql env b a <> None) ->
    EnhancedDataLoader.to_sql env b k = None ->
    let r :=
      EnhancedDataLoader.retry_loop cfg env table df_batch b
        (seq 0 (EnhancedDataLoader.max_retries cfg)) st in
    write_attempts r.2 = k + 1 /\
    EnhancedDataLoader.rows_loaded r.1 = EnhancedDataLoader.rows_loaded st + len df_batch.

(** A store that refuses the first [n] writes of every batch. *)
Definition failing_first (n : nat) : nat -> nat -> option exn :=
  fun _ attempt => if attempt <? n then Some "connection reset" else None.

Definition one_row : DataFrame := {| columns := ["id"]; rows := [[CStr "o1"]] |}.

(** The batch [i] (counted from 0) of a cleaned frame, whether one of
    its attempts goes through, and what the batches that go through add
    up to. *)
Definition batch_of (cfg : EnhancedDataLoader.Config) (df : DataFrame) (i : nat) : DataFrame :=
  iloc (i * EnhancedDataLoader.batch_size cfg)
       ((i + 1) * EnhancedDataLoader.batch_size cfg `min` len df) df.

Definition batch_succeeds (cfg : EnhancedDataLoader.Config) (env : EnhancedDataLoader.TableEnv)
    (i : nat) : bool :=
  match first_success (EnhancedDataLoader.to_sql env (i + 1))
          (seq 0 (EnhancedDataLoader.max_retries cfg)) with
  | Some _ => true
  | None => false
  end.

Definition summed_rows (cfg : EnhancedDataLoader.Config) (env : EnhancedDataLoader.TableEnv)
    (df : DataFrame) (batch_nums : list nat) : nat :=
  sum_list (map (fun i => if batch_succeeds cfg env i then len (batch_of cfg df i) else 0)
              batch_nums).

(** The trace of the attempts on batch [i] of a cleaned frame. *)
Definition attempts_on_batch (cfg : EnhancedDataLoader.Config)
    (env : EnhancedDataLoader.TableEnv) (table_name : string) (df_clean : DataFrame)
    (i : nat) : list event :=
  (EnhancedDataLoader.retry_loop cfg env table_name (batch_of cfg df_clean i) (i + 1)
     (seq 0 (EnhancedDataLoader.max_retries cfg)) EnhancedDataLoader.initial_stats).2.

(** The errors the batches that never go through leave behind. *)
Definition batch_failures (cfg : EnhancedDataLoader.Config) (env : EnhancedDataLoader.TableEnv)
    (batch_nums : list nat) : list message :=
  flat_map
    (fun i =>
       if batch_succeeds cfg env i then []
       else if EnhancedDataLoader.max_retries cfg =? 0 then []
       else [BatchFailedAfter (i + 1) (EnhancedDataLoader.max_retries cfg)])
    batch_nums.

(** The environment of a load of the running example. *)
Definition organizations_env (insp : outcome Inspection) (writes : nat -> nat -> option exn)
    (count : outcome nat) : EnhancedDataLoader.TableEnv :=
  {| EnhancedDataLoader.csv :=
       EnhancedDataLoader.mkCsvFile true 64
         (Returned organizations_extract) (Returned organizations_extract);
     EnhancedDataLoader.inspection := insp;
     EnhancedDataLoader.truncate := None;
     EnhancedDataLoader.to_sql := writes;
     EnhancedDataLoader.select_count := count |}.

(** The tables a run turns to, in order: loaded or skipped. *)
Definition visited (tr : list event) : list string :=
  flat_map (fun e => match e with Begin t | Skip t => [t] | _ => [] end) tr.

(** The events of the load of one table, as opposed to those of the run. *)
Definition table_level (e : event) : bool :=
  match e with Begin _ | Finish _ | Skip _ => false | _ => true end.

(** The batch [i] of the simple loader, which has one attempt per batch. *)
Definition simple_batch_of (df : DataFrame) (batch_size i : nat) : DataFrame :=
  iloc (i * batch_size) ((i + 1) * batch_size `min` len df) df.

Definition accepted (write : option exn) : bool :=
  match write with None => true | Some _ => false end.

(** In [order], every occurrence of [child] has [parent] before it;
    [seen] tells whether [parent] already occurred. *)
Fixpoint parent_first (parent child : string) (order : list string) (seen : bool) : bool :=
  match order with
  | [] => true
  | t :: later =>
      (if String.eqb t child then seen else true)
      && parent_first parent child later (seen || String.eqb t parent)
  end.

(** The pass over a table is over: it was loaded, or skipped for want of
    a file. *)
Definition pass_over (table : string) (tr : list event) : Prop :=
  Finish table ∈ tr \/ Skip table ∈ tr.

(** A run in which every file is there and empty: each load stops at the
    validation of its file. *)
Definition empty_files_run : EnhancedDataLoader.Env :=
  {| EnhancedDataLoader.database_valid := true;
     EnhancedDataLoader.tables := fun _ =>
       {| EnhancedDataLoader.csv :=
            EnhancedDataLoader.mkCsvFile true 0 (Raised "empty") (Raised "empty");
          EnhancedDataLoader.inspection := Raised "not reached";
          EnhancedDataLoader.truncate := None;
          EnhancedDataLoader.to_sql := fun _ _ => None;
          EnhancedDataLoader.select_count := Returned 0 |};
     EnhancedDataLoader.connect := Some "not connected";
     EnhancedDataLoader.loaded_store := ∅;
     EnhancedDataLoader.report_write := None |}.

(** A run of the simple loader in which the truncate of [patients] fails. *)
Definition patients_locked : string -> SimpleEnhancedLoader.TableEnv :=
  fun table =>
    {| SimpleEnhancedLoader.prepared := Returned one_row;
       SimpleEnhancedLoader.truncate :=
         if String.eqb table "patients" then Some "lock timeout" else None;
       SimpleEnhancedLoader.to_sql := fun _ => None |}.

(** The anti-join of the specification, written from its words: the
    child rows whose field is not null and that no parent row matches. *)
Definition has_parent (parent : list Sql.row) (pcol : string) (v : string) : bool :=
  existsb (fun p => match p !! pcol with Some w => String.eqb v w | None => false end) parent.

Definition orphaned (parent : list Sql.row) (ccol pcol : string) (c : Sql.row) : bool :=
  match c !! ccol with
  | None => false
  | Some v => negb (has_parent parent pcol v)
  end.

Definition anti_join_count (child parent : list Sql.row) (ccol pcol : string) : nat :=
  length (List.filter (orphaned parent ccol pcol) child).

(** The child rows whose field is null. *)
Definition null_count (child : list Sql.row) (ccol : string) : nat :=
  length (List.filter (fun c => Sql.is_null (c !! ccol)) child).

(** What the verifier must report for a relationship whose two
    relations are in the store with their columns. *)
Definition reports_counts (db : Sql.store) (rel : ComprehensiveValidator.Relationship)
    (res : ComprehensiveValidator.RelResult) : Prop :=
  forall child parent,
    db !! ComprehensiveValidator.child_table rel = Some child ->
    db !! ComprehensiveValidator.parent_table rel = Some parent ->
    Str.mem (ComprehensiveValidator.child_column rel) (Sql.rel_columns child) = true ->
    Str.mem (ComprehensiveValidator.parent_column rel) (Sql.rel_columns parent) = true ->
    ComprehensiveValidator.child_records res = length (Sql.rel_rows child) /\
    ComprehensiveValidator.orphaned_records res =
      anti_join_count (Sql.rel_rows child) (Sql.rel_rows parent)
        (ComprehensiveValidator.child_column rel) (ComprehensiveValidator.parent_column rel) /\
    ComprehensiveValidator.null_references res =
      null_count (Sql.rel_rows child) (ComprehensiveValidator.child_column rel) /\
    (ComprehensiveValidator.valid res = true <->
       ComprehensiveValidator.orphaned_records res = 0 /\
       (ComprehensiveValidator.allow_null rel = false ->
        ComprehensiveValidator.null_references res = 0)).


(** A store with the seven relations of the checks, all of them empty. *)
Definition empty_relation (cols : list string) : Sql.relation :=
  {| Sql.rel_columns := cols; Sql.rel_rows := [] |}.

Definition clean_store : Sql.store :=
  list_to_map
    [ ("organizations", empty_relation ["id"]);
      ("payers", empty_relation ["id"]);
      ("patients", empty_relation ["id"]);
      ("providers", empty_relation ["id"; "organization_id"]);
      ("encounters",
        empty_relation ["id"; "patient_id"; "organization_id"; "provider_id"; "payer_id"]);
      ("conditions", empty_relation ["patient_id"; "encounter_id"]);
      ("medications", empty_relation ["patient_id"; "encounter_id"; "payer_id"]) ].

(** A store after a run in which five encounters name a provider that
    does not exist, one names the provider there is, and one names none. *)
Definition encounter (id : string) (provider : option string) : Sql.row :=
  match provider with
  | Some p => list_to_map [("id", id); ("provider_id", p)]
  | None => list_to_map [("id", id)]
  end.

Definition ghost_encounters : list Sql.row :=
  [ encounter "e1" (Some "ghost"); encounter "e2" (Some "ghost");
    encounter "e3" (Some "p1"); encounter "e4" (Some "ghost");
    encounter "e5" None; encounter "e6" (Some "ghost");
    encounter "e7" (Some "ghost") ].


(** The same providers and encounters in a store that has no other
    relation: the check of [providers_organization], which comes first,
    finds no [organizations]. *)
Definition ghost_provider_store : Sql.store :=
  list_to_map
    [ ("providers",
        {| Sql.rel_columns := ["id"];
           Sql.rel_rows := [list_to_map [("id", "p1")]] |});
      ("encounters",
        {| Sql.rel_columns := ["id"; "provider_id"];
           Sql.rel_rows := ghost_encounters |}) ].

Definition encounters_provider : ComprehensiveValidator.Relationship :=
  {| ComprehensiveValidator.name := "encounters_provider";
     ComprehensiveValidator.child_table := "encounters";
     ComprehensiveValidator.child_column := "provider_id";
     ComprehensiveValidator.parent_table := "providers";
     ComprehensiveValidator.parent_column := "id";
     ComprehensiveValidator.allow_null := true |}.

(** The relation [table] is in the store and has the column [col]. *)
Definition has_column (db : Sql.store) (table col : string) : bool :=
  match db !! table with
  | Some r => Str.mem col (Sql.rel_columns r)
  | None => false
  end.

(** The two relations of a relationship are in the store with the
    columns it names: the three queries of its check go through when
    the transaction has not failed before. *)
Definition checkable (db : Sql.store) (rel : ComprehensiveValidator.Relationship) : bool :=
  has_column db (ComprehensiveValidator.child_table rel)
    (ComprehensiveValidator.child_column rel)
  && has_column db (ComprehensiveValidator.parent_table rel)
       (ComprehensiveValidator.parent_column rel).


(** ** Vocabulary of the further properties *)

(** The rows a trace shows as accepted by the store, in the order of
    their writes. *)
Definition written_rows (tr : list event) : list (list cell) :=
  flat_map (fun e => match e with Write _ _ _ batch true => batch | _ => [] end) tr.

(** The rows a trace shows as offered to the store at a first attempt. *)
Definition offered_rows (tr : list event) : list (list cell) :=
  flat_map (fun e => match e with Write _ _ 0 batch _ => batch | _ => [] end) tr.

(** [df.iloc[i * size : min((i + 1) * size, len(df))]], the slice the
    batch loops of both loaders take for batch [i]. *)
Definition batch_slice (size i : nat) (df : DataFrame) : DataFrame :=
  iloc (i * size) (Nat.min ((i + 1) * size) (len df)) df.

(** A table of a run has a file, and what its load reports. *)
Definition has_file (env : EnhancedDataLoader.Env) (t : string) : bool :=
  EnhancedDataLoader.csv_exists (EnhancedDataLoader.csv (EnhancedDataLoader.tables env t)).

Definition stats_of (cfg : EnhancedDataLoader.Config) (pd : Pandas)
    (env : EnhancedDataLoader.Env) (t : string) : EnhancedDataLoader.TableStats :=
  (EnhancedDataLoader.load_table_with_retry cfg pd (EnhancedDataLoader.tables env t) t).1.

(** The count the orphan query of a relationship returns, if it does. *)
Definition orphans (db : Sql.store) (rel : string * string * string * string) : option nat :=
  let '(child_table, child_col, parent_table, parent_col) := rel in
  match (Sql.execute (Sql.SelectCountOrphans child_table child_col parent_table parent_col) db).1
  with
  | Returned n => Some n
  | Raised _ => None
  end.

(** The relationships a check that gives up at the first query that
    raises gets through. *)
Fixpoint answered (db : Sql.store) (rels : list (string * string * string * string))
  : list (string * string * string * string) :=
  match rels with
  | [] => []
  | rel :: later =>
      match orphans db rel with
      | Some _ => rel :: answered db later
      | None => []
      end
  end.

(** The orphans of the relationships whose query returns, added up. *)
Definition orphan_total (db : Sql.store) (rels : list (string * string * string * string))
  : nat :=
  sum_list (map (fun rel => default 0 (orphans db rel)) rels).

(** The detail the loader records for a relationship with orphans. *)
Definition detail_of (rel : string * string * string * string) (n : nat)
  : EnhancedDataLoader.IntegrityDetail :=
  let '(child_table, child_col, parent_table, parent_col) := rel in
  {| EnhancedDataLoader.child_table := child_table;
     EnhancedDataLoader.child_column := child_col;
     EnhancedDataLoader.parent_table := parent_table;
     EnhancedDataLoader.parent_column := parent_col;
     EnhancedDataLoader.orphaned_records := n |}.

(** The record stored under a name says the relationship is valid. *)
Definition valid_at (m : gmap string ComprehensiveValidator.RelResult) (n : string) : bool :=
  match m !! n with
  | Some entry => ComprehensiveValidator.valid entry
  | None => false
  end.

(** A store with all seven relations, in which one encounter names a
    provider that does not exist. *)
Definition one_orphan_store : Sql.store :=
  <["encounters" :=
      {| Sql.rel_columns := ["id"; "patient_id"; "organization_id"; "provider_id"; "payer_id"];
         Sql.rel_rows := [encounter "e1" (Some "ghost"); encounter "e2" None] |}]>
    clean_store.

(** The relationship a record of the validator is about. *)
Definition key_of (rel : ComprehensiveValidator.Relationship)
  : string * string * string * string :=
  (ComprehensiveValidator.child_table rel, ComprehensiveValidator.child_column rel,
   ComprehensiveValidator.parent_table rel, ComprehensiveValidator.parent_column rel).

(** The relationships the validator gets through before a query fails
    on its connection. *)
Fixpoint checked (db : Sql.store) (rels : list ComprehensiveValidator.Relationship)
  : list ComprehensiveValidator.Relationship :=
  match rels with
  | [] => []
  | rel :: later => if checkable db rel then rel :: checked db later else []
  end.

(** The record of a check whose first query failed. *)
Definition unchecked (entry : ComprehensiveValidator.RelResult) : Prop :=
  ComprehensiveValidator.child_records entry = 0 /\
  ComprehensiveValidator.orphaned_records entry = 0 /\
  ComprehensiveValidator.null_references entry = 0 /\
  ComprehensiveValidator.valid entry = false /\
  ComprehensiveValidator.issues entry
    = [ComprehensiveValidator.ValidationError Sql.in_failed_sql_transaction].

(** The errors the batches of a frame leave in the simple loader, in
    batches of [n] rows. *)
Definition rejected_batches (env : SimpleEnhancedLoader.TableEnv) (table_name : string)
    (df : DataFrame) (n : nat) : list message :=
  flat_map (fun i => match SimpleEnhancedLoader.to_sql env (i + 1) with
                     | Some e => [BatchError table_name (i + 1) e]
                     | None => []
                     end) (seq 0 ((len df + n - 1) / n)).

(** What an import adds to the errors of a run that goes on after it. *)
Definition import_errors (env : SimpleEnhancedLoader.TableEnv) (table_name : string)
  : list message :=
  match SimpleEnhancedLoader.prepared env with
  | Raised e => [ImportError table_name e]
  | Returned df => rejected_batches env table_name df 1000
  end.

(** An import whose frame is ready and whose truncate fails. *)
Definition import_breaks (env : SimpleEnhancedLoader.TableEnv) : bool :=
  match SimpleEnhancedLoader.prepared env, SimpleEnhancedLoader.truncate env with
  | Returned _, Some _ => true
  | _, _ => false
  end.

(** The seconds a trace spends waiting. *)
Definition total_sleep (tr : list event) : nat :=
  sum_list (flat_map (fun e => match e with Sleep d => [d] | _ => [] end) tr).

(** * Properties *)

(** ** Frames *)

Section FrameFacts.

Lemma filter_filter_andb {A} (f g : A -> bool) (l : list A) :
  List.filter f (List.filter g l) = List.filter (fun x => g x && f x) l.
Proof.
  induction l as [|x l IH]; simpl; [reflexivity|].
  destruct (g x); simpl; [destruct (f x)|]; rewrite IH; reflexivity.
Qed.

Lemma filter_negb_length {A} (f : A -> bool) (l : list A) :
  length (List.filter (fun x => negb (f x)) l) + length (List.filter f l) = length l.
Proof.
  induction l as [|x l IH]; simpl; [reflexivity|].
  destruct (f x); simpl; lia.
Qed.

Lemma filter_length_le {A} (f : A -> bool) (l : list A) :
  length (List.filter f l) <= length l.
Proof. induction l as [|x l IH]; simpl; [lia|]. destruct (f x); simpl; lia. Qed.


Lemma len_assign_col name f df : len (assign_col name f df) = len df.
Proof. unfold len, assign_col; simpl. apply length_map. Qed.

Lemma len_dropna_le name df : len (dropna name df) <= len df.
Proof. unfold len, dropna; simpl. apply filter_length_le. Qed.

Lemma len_prepare table_name df : len (EnhancedDataLoader.prepare table_name df) = len df.
Proof.
  unfold EnhancedDataLoader.prepare, len, normalize_nulls; simpl.
  rewrite length_map. destruct (_ !! table_name); reflexivity.
Qed.

End FrameFacts.

(** ** Cleaning *)

Section CleaningFacts.

Import EnhancedDataLoader.
Context (pd : Pandas).


(** What one turn of the conversion loop can do: nothing, log that the
    conversion failed, or assign the converted column. *)
Lemma convert_column_cases n t df log :
  convert_column pd (n, t) (df, log) = (df, log) \/
  convert_column pd (n, t) (df, log) = (df, log ++ [ConvertFailed n (Str.lower t)]) \/
  exists f, convert_column pd (n, t) (df, log) = (assign_col n f df, log).
Proof.
  unfold convert_column.
  destruct (Str.mem n (columns df)); [|by left].
  destruct (conversion_of (Str.lower t)); cbv zeta;
    try (destruct (is_series n df); [right; right; eexists; reflexivity | right; by left]).
  - destruct (astype_boolean_ok pd n df);
      [right; right; eexists; reflexivity | right; by left].
  - by left.
Qed.


(** One turn of the conversion loop keeps the labels and the rows in place. *)
Lemma convert_column_shape col df log :
  columns (convert_column pd col (df, log)).1 = columns df /\
  len (convert_column pd col (df, log)).1 = len df.
Proof.
  destruct col as [n t].
  destruct (convert_column_cases n t df log) as [-> | [-> | (f & ->)]]; cbn [fst]; try done.
  split; [reflexivity | apply len_assign_col].
Qed.

Lemma convert_loop_shape cols df log :
  columns (fold_left (fun acc col => convert_column pd col acc) cols (df, log)).1 = columns df /\
  len (fold_left (fun acc col => convert_column pd col acc) cols (df, log)).1 = len df.
Proof.
  revert df log; induction cols as [|col cols IH]; intros df log; simpl; [done|].
  destruct (convert_column pd col (df, log)) as [df1 log1] eqn:E.
  destruct (IH df1 log1) as [Hc Hl].
  pose proof (convert_column_shape col df log) as [Hc1 Hl1]. rewrite E in Hc1, Hl1.
  simpl in *. split; congruence.
Qed.


Abbreviation convert_loop cols start :=
  (fold_left (fun acc col => convert_column pd col acc) cols start).





Abbreviation drop_loop pks start :=
  (fold_left (fun acc pk_col => drop_null_pk pk_col acc) pks start).

(** One turn of the loop over the primary key columns. *)
Lemma drop_null_pk_spec pk df log :
  let r := drop_null_pk pk (df, log) in
  columns r.1 = columns df /\
  rows r.1 =
    List.filter (fun x => negb (Str.mem pk (columns df) && null_under pk (columns df) x))
      (rows df) /\
  dropped_total r.2 + len r.1 = dropped_total log + len df /\
  pk_warnings r.2 <= pk_warnings log + 1.
Proof.
  unfold drop_null_pk. destruct (Str.mem pk (columns df)) eqn:Hm; simpl.
  - assert (len (dropna pk df) <= len df) as Hle by apply len_dropna_le.
    assert (forall l : list log_entry, forall k p,
               dropped_total (l ++ [DroppedNullPk k p]) = dropped_total l + k) as Hsum.
    { induction l as [|[] l IHl]; intros; simpl; rewrite ?IHl; lia. }
    assert (forall l : list log_entry, forall k p,
               pk_warnings (l ++ [DroppedNullPk k p]) = pk_warnings l + 1) as Hcnt.
    { unfold pk_warnings. intros. rewrite List.filter_app, length_app. reflexivity. }
    destruct (0 <? len df - len (dropna pk df)) eqn:Hd; simpl.
    + rewrite Hsum, Hcnt. repeat split; lia.
    + apply Nat.ltb_ge in Hd. repeat split; lia.
  - repeat split; try lia.
    induction (rows df) as [|x l IH]; simpl; congruence.
Qed.

(** The loop over the primary key columns drops the rows with a null
    primary key, and those only. *)
Lemma drop_loop_spec pks df log :
  let r := drop_loop pks (df, log) in
  columns r.1 = columns df /\
  rows r.1 = List.filter (fun x => negb (null_pk_row (columns df) pks x)) (rows df) /\
  dropped_total r.2 + len r.1 = dropped_total log + len df /\
  pk_warnings r.2 <= pk_warnings log + length pks.
Proof.
  revert df log; induction pks as [|pk pks IH]; intros df log; cbn [fold_left length].
  { simpl. repeat split; try lia.
    induction (rows df) as [|x l IHl]; simpl; congruence. }
  destruct (drop_null_pk pk (df, log)) as [df1 log1] eqn:E.
  pose proof (drop_null_pk_spec pk df log) as (Hc & Hr & Hs & Hw).
  rewrite E in Hc, Hr, Hs, Hw; simpl in *.
  destruct (IH df1 log1) as (Hc' & Hr' & Hs' & Hw').
  split; [congruence|]. split; [|lia].
  rewrite Hr', Hr, Hc, filter_filter_andb.
  apply List.filter_ext. intros x. unfold null_pk_row; simpl.
  rewrite negb_orb. reflexivity.
Qed.

(** Neither loop writes a warning of the other. *)
Lemma convert_loop_drops cols df log :
  dropped_total (convert_loop cols (df, log)).2 = dropped_total log /\
  pk_warnings (convert_loop cols (df, log)).2 = pk_warnings log.
Proof.
  revert df log; induction cols as [|[n t] cols IH]; intros df log; cbn [fold_left]; [done|].
  destruct (convert_column pd (n, t) (df, log)) as [df1 log1] eqn:E.
  destruct (IH df1 log1) as [-> ->].
  assert (log1 = log \/ log1 = log ++ [ConvertFailed n (Str.lower t)]) as Hlog.
  { destruct (convert_column_cases n t df log) as [H | [H | (f & H)]];
      rewrite H in E; injection E as <- <-; [by left | by right | by left]. }
  destruct Hlog as [-> | ->]; [done|].
  unfold pk_warnings. rewrite List.filter_app, length_app; simpl.
  split; [|lia]. clear. induction log as [|[] l IHl]; simpl; rewrite ?IHl; lia.
Qed.





(** *** [astype('boolean')] looks at its own column only *)









End CleaningFacts.

(** ** Claims on cleaning *)

Section CleaningClaims.

Import EnhancedDataLoader.

(** C3 as stated fails: two organizations without an [id] are dropped
    and reported by a single warning that carries the count 2. *)
Lemma C3_one_warning_for_two_rows : ~ one_warning_per_dropped_row.
Proof.
  intros H.
  specialize (H pandas_rejecting
    (Returned {| insp_columns := [("id", "VARCHAR(36)"); ("name", "VARCHAR")];
                 insp_pk := ["id"] |})
    {| columns := ["Id"; "Name"];
       rows := [[CNull; CStr "a"]; [CStr "o1"; CStr "b"]; [CNull; CStr "c"]] |}
    "organizations").
  vm_compute in H. destruct H as [_ H]. discriminate.
Qed.

(** The same extract, evaluated: one row left, one warning for the two
    rows that were dropped. *)
Example two_null_ids_one_warning :
  clean_dataframe pandas_rejecting
    (Returned {| insp_columns := [("id", "VARCHAR(36)"); ("name", "VARCHAR")];
                 insp_pk := ["id"] |})
    {| columns := ["Id"; "Name"];
       rows := [[CNull; CStr "a"]; [CStr "o1"; CStr "b"]; [CNull; CStr "c"]] |}
    "organizations"
  = ({| columns := ["id"; "name"]; rows := [[CStr "o1"; CStr "b"]] |},
     [DroppedNullPk 2 "id"]).
Proof. reflexivity. Qed.

(** What cleaning does to the rows and what it logs about them. *)
Lemma clean_dataframe_rows
    (pd : Pandas) (inspection : outcome Inspection) (df : DataFrame) (table_name : string) :
  let schema := get_table_schema inspection in
  let pks := schema_primary_keys schema in
  let converted := (convert_types pd schema (prepare table_name df)).1 in
  let r := clean_dataframe pd inspection df table_name in
  len converted = len df /\
  rows r.1 =
    List.filter (fun x => negb (null_pk_row (columns converted) pks x)) (rows converted) /\
  dropped_total r.2 + len r.1 = len df /\
  pk_warnings r.2 <= length pks.
Proof.
  intros schema pks converted r. subst r converted. unfold clean_dataframe, convert_types.
  fold schema. fold pks.
  destruct (convert_loop_shape pd (schema_columns schema) (prepare table_name df) [])
    as [_ Hlen].
  destruct (convert_loop_drops pd (schema_columns schema) (prepare table_name df) [])
    as [Hd Hw].
  rewrite len_prepare in Hlen.
  destruct (fold_left _ (schema_columns schema) _) as [dfc logc] eqn:E.
  destruct (drop_loop_spec pks dfc logc) as (_ & Hr & Hs & Hp).
  simpl in *. change (pk_warnings []) with 0 in Hw.
  split; [exact Hlen|]. split; [exact Hr|]. split; lia.
Qed.

(** C3 (amended): after cleaning, the frame holds exactly the converted
    rows that have no null under a primary key column; the cleaned row
    count is at most the source row count, the difference is the number
    of rows with a null primary key, and it is also the sum of the
    counts carried by the warnings, of which there is at most one per
    primary key column (not one per row). *)
Theorem C3_cleaning_drops_null_pk_rows_only
    (pd : Pandas) (inspection : outcome Inspection) (df : DataFrame) (table_name : string) :
  let schema := get_table_schema inspection in
  let pks := schema_primary_keys schema in
  let converted := (convert_types pd schema (prepare table_name df)).1 in
  let r := clean_dataframe pd inspection df table_name in
  len converted = len df /\
  rows r.1 =
    List.filter (fun x => negb (null_pk_row (columns converted) pks x)) (rows converted) /\
  len r.1 <= len df /\
  len df - len r.1 =
    length (List.filter (null_pk_row (columns converted) pks) (rows converted)) /\
  dropped_total r.2 = len df - len r.1 /\
  pk_warnings r.2 <= length pks.
Proof.
  intros schema pks converted r.
  destruct (clean_dataframe_rows pd inspection df table_name) as (Hlen & Hr & Hs & Hp).
  fold schema pks converted r in Hlen, Hr, Hs, Hp.
  pose proof (filter_negb_length (null_pk_row (columns converted) pks) (rows converted))
    as Hsplit.
  pose proof (f_equal length Hr) as Hlr.
  unfold len in *.
  split; [exact Hlen|]. split; [exact Hr|]. repeat split; lia.
Qed.

(** C10: when the introspection raises, the schema lookup returns the
    empty dictionary; cleaning then converts nothing, drops nothing and
    logs nothing, so the cleaned frame is the source frame after the
    renaming and the null normalization, with the same row count, and
    it is that frame the load goes on with. *)
Theorem C10_failed_introspection_passes_rows_through
    (cfg : Config) (pd : Pandas) (env : TableEnv) (table_name : string)
    (e : exn) (df : DataFrame) (issues : list message) :
  inspection env = Raised e ->
  validate_csv_file (csv env) table_name = (true, issues) ->
  csv_read (csv env) = Returned df ->
  len df <> 0 ->
  get_table_schema (inspection env) = SchemaEmpty /\
  convert_types pd (get_table_schema (inspection env)) (prepare table_name df)
    = (prepare table_name df, []) /\
  clean_dataframe pd (inspection env) df table_name = (prepare table_name df, []) /\
  len (clean_dataframe pd (inspection env) df table_name).1 = len df /\
  load_table_with_retry cfg pd env table_name =
    load_cleaned cfg env table_name (prepare table_name df)
      (set_total_rows (len df) initial_stats).
Proof.
  intros Hi Hv Hr Hn. rewrite Hi.
  assert (clean_dataframe pd (Raised e) df table_name = (prepare table_name df, []))
    as Hclean by reflexivity.
  repeat split; try reflexivity.
  - simpl. apply len_prepare.
  - unfold load_table_with_retry. rewrite Hv, Hr, Hi, Hclean; simpl.
    apply Nat.eqb_neq in Hn. rewrite Hn, len_prepare, Hn. reflexivity.
Qed.

(** Ten organizations, one of them without an [id]: nine rows are kept
    and one warning reports the one dropped row. *)
Example organizations_one_null_id :
  let ids := ["o1"; "o2"; "o3"; "o4"; "o5"; "o6"; "o7"; "o8"; "o9"] in
  let df := {| columns := ["Id"]; rows := [CNull] :: map (fun i => [CStr i]) ids |} in
  clean_dataframe pandas_rejecting
    (Returned {| insp_columns := [("id", "VARCHAR(36)")]; insp_pk := ["id"] |})
    df "organizations"
  = ({| columns := ["id"]; rows := map (fun i => [CStr i]) ids |}, [DroppedNullPk 1 "id"]).
Proof. reflexivity. Qed.

End CleaningClaims.

Section CoercionClaims.

Import EnhancedDataLoader.





(** An extract with the headers [Revenue] and [REVENUE]: both columns
    are renamed to [revenue], [pd.to_numeric] raises on the frame they
    select, the values stay as they were and one warning names the
    column. *)
Example duplicate_label_is_left_unconverted :
  clean_dataframe pandas_rejecting (Returned organizations_inspection)
    {| columns := ["Id"; "Revenue"; "REVENUE"];
       rows := [[CStr "o1"; CStr "n/a"; CStr "12"]] |} "organizations"
  = ({| columns := ["id"; "revenue"; "revenue"];
        rows := [[CStr "o1"; CStr "n/a"; CStr "12"]] |},
     [ConvertFailed "revenue" "numeric(12, 2)"]).
Proof. reflexivity. Qed.

(** The extract whose [id] does not parse as the integer its column
    declares, evaluated: the row is gone and the only warning is the one
    about the null primary key. *)
Example unparsed_id_row_is_dropped :
  clean_dataframe pandas_rejecting
    (Returned {| insp_columns := [("id", "INTEGER")]; insp_pk := ["id"] |})
    {| columns := ["ID"]; rows := [[CStr "abc"]] |} "organizations"
  = ({| columns := ["id"]; rows := [] |}, [DroppedNullPk 1 "id"]).
Proof. reflexivity. Qed.

(** A boolean column with a value that does not convert: the column is
    left as it was, and one warning names it. *)
Example boolean_column_warning :
  clean_dataframe pandas_rejecting
    (Returned {| insp_columns := [("id", "VARCHAR(36)"); ("active", "BOOLEAN")];
                 insp_pk := ["id"] |})
    {| columns := ["id"; "active"]; rows := [[CStr "o1"; CStr "maybe"]] |} "accounts"
  = ({| columns := ["id"; "active"]; rows := [[CStr "o1"; CStr "maybe"]] |},
     [ConvertFailed "active" "boolean"]).
Proof. reflexivity. Qed.

End CoercionClaims.

(** ** The retry loop *)

Section RetryFacts.

Import EnhancedDataLoader.
Context (cfg : Config) (env : TableEnv) (table_name : string).

Abbreviation retry df b attempts st := (retry_loop cfg env table_name df b attempts st).

(** What the loop over the attempts [a, a+1, ..., max_retries - 1]
    returns, by the first attempt that goes through. *)
Lemma retry_loop_spec df b n a st :
  a + n = max_retries cfg ->
  retry df b (seq a n) st =
    match first_success (to_sql env b) (seq a n) with
    | Some k =>
        (batch_done (len df) st,
         failed_attempts table_name b (rows df) (retry_delay cfg) (seq a (k - a))
           ++ [Write table_name b k (rows df) true])
    | None =>
        match n with
        | 0 => (st, [])
        | S m =>
            (add_errors [BatchFailedAfter b (max_retries cfg)] st,
             failed_attempts table_name b (rows df) (retry_delay cfg) (seq a m)
               ++ [Write table_name b (a + m) (rows df) false])
        end
    end.
Proof.
  revert a st; induction n as [|n IH]; intros a st Hmax; [reflexivity|].
  cbn [seq retry_loop first_success]. unfold load_table_batch.
  destruct (to_sql env b a) as [e|] eqn:Hw.
  - destruct (a <? max_retries cfg - 1) eqn:Hlt.
    + apply Nat.ltb_lt in Hlt. rewrite IH by lia.
      destruct (first_success (to_sql env b) (seq (S a) n)) as [k|] eqn:Hk.
      * assert (S a <= k) as Hle.
        { clear -Hk. revert Hk. generalize (S a) as a0. induction n as [|n IHn];
            intros a0 Hk; simpl in Hk; [discriminate|].
          destruct (to_sql env b a0); [apply IHn in Hk; lia | injection Hk as <-; lia]. }
        replace (k - a) with (S (k - S a)) by lia. reflexivity.
      * destruct n as [|m]; [lia|].
        replace (a + S m) with (S a + m) by lia. reflexivity.
    + apply Nat.ltb_ge in Hlt. assert (n = 0) as -> by lia.
      simpl. replace (a + 0) with a by lia. reflexivity.
  - replace (a - a) with 0 by lia. reflexivity.
Qed.

Lemma first_success_some write a n k :
  first_success write (seq a n) = Some k ->
  a <= k < a + n /\ write k = None /\ forall a', a <= a' < k -> write a' <> None.
Proof.
  revert a; induction n as [|n IH]; intros a H; simpl in H; [discriminate|].
  destruct (write a) eqn:Hw.
  - apply IH in H as (Hr & Hk & Hb). split; [lia|]. split; [assumption|].
    intros a' Ha'. destruct (decide (a' = a)) as [->|]; [congruence | apply Hb; lia].
  - injection H as <-. split; [lia|]. split; [assumption|]. intros a' Ha'. lia.
Qed.

Lemma first_success_none write a n :
  first_success write (seq a n) = None <-> forall a', a <= a' < a + n -> write a' <> None.
Proof.
  revert a; induction n as [|n IH]; intros a; simpl.
  - split; [intros _ a' Ha'; lia | reflexivity].
  - destruct (write a) eqn:Hw.
    + rewrite IH. split; intros H a' Ha'.
      * destruct (decide (a' = a)) as [->|]; [congruence | apply H; lia].
      * apply H; lia.
    + split; [discriminate|]. intros H. exfalso. apply (H a); [lia | assumption].
Qed.

Lemma failed_attempts_counts b batch delay attempts :
  write_attempts (failed_attempts table_name b batch delay attempts) = length attempts /\
  sleeps (failed_attempts table_name b batch delay attempts) = length attempts.
Proof.
  unfold write_attempts, sleeps.
  induction attempts as [|a l [IH1 IH2]]; simpl; [done|]. split; lia.
Qed.

Lemma counts_app tr1 tr2 :
  write_attempts (tr1 ++ tr2) = write_attempts tr1 + write_attempts tr2 /\
  sleeps (tr1 ++ tr2) = sleeps tr1 + sleeps tr2.
Proof.
  unfold write_attempts, sleeps. rewrite !List.filter_app, !length_app. done.
Qed.

End RetryFacts.

Section RetryClaims.

Import EnhancedDataLoader.

Lemma failed_attempts_sleep table b batch delay attempts d :
  Sleep d ∈ failed_attempts table b batch delay attempts -> d = delay.
Proof.
  induction attempts as [|a l IH]; simpl; intros H; [inversion H|].
  apply elem_of_cons in H as [H | H]; [discriminate|].
  apply elem_of_cons in H as [H | H]; [by injection H | by apply IH].
Qed.

(** C2 as stated fails: with the configured [max_retries = 3], a write
    that is refused three times and would go through at the fourth
    attempt never gets that attempt; its batch is not loaded. *)
Lemma C2_no_fourth_attempt : ~ retries_after_first_attempt default_config.
Proof.
  intros H.
  specialize (H {| csv := mkCsvFile true 1 (Returned one_row) (Returned one_row);
                   inspection := Raised "unreachable"; truncate := None;
                   to_sql := failing_first 3; select_count := Returned 0 |}
                "organizations" one_row 1 3 initial_stats).
  simpl in H. destruct H as [H _]; [lia | | reflexivity | vm_compute in H; discriminate].
  intros a Ha. unfold failing_first.
  destruct (a <? 3) eqn:E; [discriminate | apply Nat.ltb_ge in E; lia].
Qed.

(** The same batch, evaluated: three refused writes with a wait after
    the first two, and the error of a batch that failed after 3 attempts. *)
Example three_attempts_then_failure :
  retry_loop default_config
    (organizations_env (Raised "unused") (failing_first 3) (Returned 0))
    "organizations" one_row 1 (seq 0 (max_retries default_config)) initial_stats
  = (add_errors [BatchFailedAfter 1 3] initial_stats,
     [ Write "organizations" 1 0 [[CStr "o1"]] false; Sleep 5;
       Write "organizations" 1 1 [[CStr "o1"]] false; Sleep 5;
       Write "organizations" 1 2 [[CStr "o1"]] false ]).
Proof. reflexivity. Qed.

(** C2 (amended): a batch receives at most [max_retries] write
    attempts in total, the first one included, and the loader waits
    [retry_delay] between two of them.  A batch whose write fails
    [k < max_retries] times and then goes through receives exactly
    [k + 1] attempts, and its rows are added to [rows_loaded].  A batch
    whose [max_retries] attempts all fail is recorded as failed after
    [max_retries] attempts. *)
Theorem C2_retry_budget
    (cfg : Config) (env : TableEnv) (table_name : string) (df_batch : DataFrame)
    (b : nat) (st : TableStats) :
  let r := retry_loop cfg env table_name df_batch b (seq 0 (max_retries cfg)) st in
  write_attempts r.2 <= max_retries cfg /\
  (forall d, Sleep d ∈ r.2 -> d = retry_delay cfg) /\
  (forall k,
      k < max_retries cfg ->
      (forall a, a < k -> to_sql env b a <> None) ->
      to_sql env b k = None ->
      r.2 = failed_attempts table_name b (rows df_batch) (retry_delay cfg) (seq 0 k)
              ++ [Write table_name b k (rows df_batch) true] /\
      write_attempts r.2 = k + 1 /\
      sleeps r.2 = k /\
      r.1 = batch_done (len df_batch) st /\
      rows_loaded r.1 = rows_loaded st + len df_batch) /\
  (0 < max_retries cfg ->
   (forall a, a < max_retries cfg -> to_sql env b a <> None) ->
   write_attempts r.2 = max_retries cfg /\
   sleeps r.2 = max_retries cfg - 1 /\
   r.1 = add_errors [BatchFailedAfter b (max_retries cfg)] st).
Proof.
  intros r. subst r.
  rewrite (retry_loop_spec cfg env table_name df_batch b (max_retries cfg) 0 st eq_refl).
  destruct (first_success (to_sql env b) (seq 0 (max_retries cfg))) as [k0|] eqn:E.
  - apply first_success_some in E as (Hr & Hw & Hb). simpl.
    destruct (counts_app
                (failed_attempts table_name b (rows df_batch) (retry_delay cfg)
                   (seq 0 (k0 - 0)))
                [Write table_name b k0 (rows df_batch) true]) as [Hc Hs].
    destruct (failed_attempts_counts table_name b (rows df_batch) (retry_delay cfg)
                (seq 0 (k0 - 0))) as [Hc1 Hs1].
    rewrite length_seq in Hc1, Hs1.
    change (write_attempts [Write table_name b k0 (rows df_batch) true]) with 1 in Hc.
    change (sleeps [Write table_name b k0 (rows df_batch) true]) with 0 in Hs.
    split; [lia|]. split; [|split].
    + intros d Hd. apply elem_of_app in Hd as [Hd | Hd].
      * eapply failed_attempts_sleep, Hd.
      * apply list_elem_of_singleton in Hd. discriminate.
    + intros k Hk Hfail Hok.
      assert (k = k0) as <-.
      { destruct (Nat.lt_trichotomy k k0) as [Hlt | [-> | Hgt]]; [|reflexivity|].
        - exfalso. apply (Hb k); [lia | assumption].
        - exfalso. apply (Hfail k0); [lia | assumption]. }
      replace (k - 0) with k in * by lia.
      split; [reflexivity|]. split; [lia|]. split; [lia|]. split; reflexivity.
    + intros _ Hall. exfalso. apply (Hall k0); [lia | assumption].
  - rewrite first_success_none in E.
    destruct (max_retries cfg) as [|m] eqn:Hm; simpl.
    + split; [unfold write_attempts; simpl; lia|]. split; [intros d Hd; inversion Hd|].
      split; [intros k Hk; lia | intros Hpos; lia].
    + destruct (counts_app
                  (failed_attempts table_name b (rows df_batch) (retry_delay cfg) (seq 0 m))
                  [Write table_name b m (rows df_batch) false]) as [Hc Hs].
      destruct (failed_attempts_counts table_name b (rows df_batch) (retry_delay cfg)
                  (seq 0 m)) as [Hc1 Hs1].
      rewrite length_seq in Hc1, Hs1.
      change (write_attempts [Write table_name b m (rows df_batch) false]) with 1 in Hc.
      change (sleeps [Write table_name b m (rows df_batch) false]) with 0 in Hs.
      split; [lia|]. split; [|split].
      * intros d Hd. apply elem_of_app in Hd as [Hd | Hd].
        -- eapply failed_attempts_sleep, Hd.
        -- apply list_elem_of_singleton in Hd. discriminate.
      * intros k Hk Hfail Hok. exfalso. apply (E k); [lia | assumption].
      * intros _ _. split; [lia|]. split; [lia | reflexivity].
Qed.

(** The amended C2 at the configured budget of three attempts: two
    refusals, then a write that goes through at the third attempt. *)
Lemma C2_retry_budget_witness :
  2 < max_retries default_config /\
  write_attempts
    (retry_loop default_config
       {| csv := mkCsvFile true 1 (Returned one_row) (Returned one_row);
          inspection := Raised "unreachable"; truncate := None;
          to_sql := failing_first 2; select_count := Returned 1 |}
       "organizations" one_row 1 (seq 0 (max_retries default_config)) initial_stats).2 = 3.
Proof.
  split; [simpl; lia|].
  destruct (C2_retry_budget default_config
              {| csv := mkCsvFile true 1 (Returned one_row) (Returned one_row);
                 inspection := Raised "unreachable"; truncate := None;
                 to_sql := failing_first 2; select_count := Returned 1 |}
              "organizations" one_row 1 initial_stats) as (_ & _ & H & _).
  destruct (H 2) as (_ & Hw & _); [simpl; lia | | reflexivity | exact Hw].
  intros a Ha. unfold to_sql, failing_first.
  destruct a as [|[|a]]; simpl; [discriminate | discriminate | lia].
Defined.

End RetryClaims.

(** ** The batch loop *)

Section BatchFacts.

Import EnhancedDataLoader.
Context (cfg : Config) (env : TableEnv) (table_name : string).

Abbreviation attempts_on := (attempts_on_batch cfg env table_name).

Lemma retry_loop_outcome df b st :
  let r := retry_loop cfg env table_name df b (seq 0 (max_retries cfg)) st in
  r.2 = (retry_loop cfg env table_name df b (seq 0 (max_retries cfg)) initial_stats).2 /\
  r.1 =
    match first_success (to_sql env b) (seq 0 (max_retries cfg)) with
    | Some _ => batch_done (len df) st
    | None =>
        if max_retries cfg =? 0 then st
        else add_errors [BatchFailedAfter b (max_retries cfg)] st
    end.
Proof.
  simpl.
  rewrite !(retry_loop_spec cfg env table_name df b (max_retries cfg) 0 _ eq_refl).
  destruct (first_success (to_sql env b) (seq 0 (max_retries cfg))); [done|].
  destruct (max_retries cfg); done.
Qed.

(** The loop over the batches: every batch has its attempts, in turn;
    the batches that go through are summed, the others leave an error. *)
Lemma batch_loop_spec df_clean batch_nums st :
  let r := batch_loop cfg env table_name df_clean batch_nums st in
  r.2 = flat_map (attempts_on df_clean) batch_nums /\
  rows_loaded r.1 = rows_loaded st + summed_rows cfg env df_clean batch_nums /\
  errors r.1 = errors st ++ batch_failures cfg env batch_nums /\
  warnings r.1 = warnings st /\
  total_rows_in_csv r.1 = total_rows_in_csv st.
Proof.
  revert st; induction batch_nums as [|i l IH]; intros st; cbn [batch_loop].
  { simpl. rewrite app_nil_r. unfold summed_rows; simpl. repeat split; try done; lia. }
  fold (batch_of cfg df_clean i).
  destruct (retry_loop_outcome (batch_of cfg df_clean i) (i + 1) st) as [Htr Hst].
  destruct (retry_loop cfg env table_name (batch_of cfg df_clean i) (i + 1)
              (seq 0 (max_retries cfg)) st) as [st1 tr1] eqn:E1.
  simpl in Htr, Hst.
  specialize (IH st1).
  destruct (batch_loop cfg env table_name df_clean l st1) as [st2 tr2] eqn:E2.
  simpl in IH. destruct IH as (IHt & IHr & IHe & IHw & IHc). simpl.
  unfold summed_rows, batch_failures, batch_succeeds in *. simpl.
  fold (attempts_on df_clean i) in Htr.
  rewrite IHt, IHr, IHe, IHw, IHc, Htr, Hst.
  destruct (first_success (to_sql env (i + 1)) (seq 0 (max_retries cfg))); simpl.
  - repeat split; try done; lia.
  - destruct (max_retries cfg =? 0); simpl; rewrite <- ?app_assoc;
      repeat split; try done; lia.
Qed.

End BatchFacts.

(** ** Claims on the load of one table *)

Section LoadFacts.

Import EnhancedDataLoader.
Context (cfg : Config) (pd : Pandas) (env : TableEnv) (table_name : string).

(** A load that gets as far as its batches is [load_cleaned] on the
    cleaned frame. *)
Lemma load_reaches_batches df issues :
  validate_csv_file (csv env) table_name = (true, issues) ->
  csv_read (csv env) = Returned df ->
  len df <> 0 ->
  len (clean_dataframe pd (inspection env) df table_name).1 <> 0 ->
  load_table_with_retry cfg pd env table_name =
    load_cleaned cfg env table_name (clean_dataframe pd (inspection env) df table_name).1
      (set_total_rows (len df) initial_stats).
Proof.
  intros Hv Hr Hn Hc. unfold load_table_with_retry. rewrite Hv, Hr; simpl.
  apply Nat.eqb_neq in Hn, Hc. rewrite Hn.
  destruct (clean_dataframe pd (inspection env) df table_name) as [df_clean log].
  simpl in *. rewrite Hc. reflexivity.
Qed.

(** [load_cleaned] when the truncate and the count go through. *)
Lemma load_cleaned_counted df_clean st actual :
  truncate env = None ->
  batch_size cfg <> 0 ->
  select_count env = Returned actual ->
  let batches := seq 0 (total_batches cfg df_clean) in
  let summed := rows_loaded st + summed_rows cfg env df_clean batches in
  let r := load_cleaned cfg env table_name df_clean st in
  r.2 = Truncate table_name true
          :: flat_map (attempts_on_batch cfg env table_name df_clean) batches
          ++ [Count table_name true] /\
  rows_loaded r.1 = actual /\
  errors r.1 = errors st ++ batch_failures cfg env batches /\
  warnings r.1 =
    warnings st ++ (if actual =? summed then [] else [RowCountMismatch summed actual]).
Proof.
  intros Ht Hb Hc batches summed. unfold load_cleaned. rewrite Ht, Hc.
  apply Nat.eqb_neq in Hb. rewrite Hb.
  destruct (batch_loop_spec cfg env table_name df_clean batches st)
    as (Htr & Hrows & Herr & Hwarn & _).
  destruct (batch_loop cfg env table_name df_clean
              (seq 0 (total_batches cfg df_clean)) st) as [st1 tr] eqn:E.
  fold batches in E. rewrite E in *. simpl in *.
  unfold verify_loaded. subst summed. rewrite <- Hrows.
  destruct (actual =? rows_loaded st1) eqn:Heq; simpl.
  - apply Nat.eqb_eq in Heq. rewrite app_nil_r. repeat split; congruence.
  - repeat split; congruence.
Qed.

End LoadFacts.

Section CountClaim.

Import EnhancedDataLoader.

(** C4: when a load has attempted all its batches and the store
    answers the closing [SELECT COUNT], the [rows_loaded] it reports is
    the count of the store, whatever the sum over the successful
    batches was; when the two differ, a row count mismatch warning with
    both numbers is appended, and when they agree there is none. *)
Theorem C4_reported_count_is_the_store_count
    (cfg : Config) (pd : Pandas) (env : TableEnv) (table_name : string)
    (df : DataFrame) (issues : list message) (actual : nat) :
  validate_csv_file (csv env) table_name = (true, issues) ->
  csv_read (csv env) = Returned df ->
  len df <> 0 ->
  len (clean_dataframe pd (inspection env) df table_name).1 <> 0 ->
  truncate env = None ->
  batch_size cfg <> 0 ->
  select_count env = Returned actual ->
  let df_clean := (clean_dataframe pd (inspection env) df table_name).1 in
  let batches := seq 0 (total_batches cfg df_clean) in
  let summed := summed_rows cfg env df_clean batches in
  let r := load_table_with_retry cfg pd env table_name in
  r.2 = Truncate table_name true
          :: flat_map (attempts_on_batch cfg env table_name df_clean) batches
          ++ [Count table_name true] /\
  rows_loaded r.1 = actual /\
  (actual <> summed -> warnings r.1 = [RowCountMismatch summed actual]) /\
  (actual = summed -> warnings r.1 = []).
Proof.
  intros Hv Hr Hn Hc Ht Hb Hs df_clean batches summed r. subst r.
  rewrite (load_reaches_batches cfg pd env table_name df issues Hv Hr Hn Hc).
  destruct (load_cleaned_counted cfg env table_name df_clean
              (set_total_rows (len df) initial_stats) actual Ht Hb Hs)
    as (Htr & Hrows & _ & Hwarn).
  fold df_clean. simpl in Hwarn. fold batches in Htr, Hwarn. fold summed in Hwarn.
  split; [exact Htr|]. split; [exact Hrows|]. rewrite Hwarn. split; intros H.
  - apply Nat.eqb_neq in H. rewrite H. reflexivity.
  - apply Nat.eqb_eq in H. rewrite H. reflexivity.
Qed.

(** C4 at the running example: one row is written, the store counts
    five; the load reports five and warns about the mismatch. *)
Lemma C4_reported_count_is_the_store_count_witness :
  let env := organizations_env (Returned organizations_inspection)
               (failing_first 0) (Returned 5) in
  let r := load_table_with_retry default_config pandas_rejecting env "organizations" in
  truncate env = None /\
  select_count env = Returned 5 /\
  rows_loaded r.1 = 5 /\
  warnings r.1 = [RowCountMismatch 1 5].
Proof.
  intros env r.
  assert (validate_csv_file (csv env) "organizations" =
            (true, (validate_csv_file (csv env) "organizations").2)) as Hv
    by (vm_compute; reflexivity).
  assert (len organizations_extract <> 0) as Hn by compute_done.
  assert (len (clean_dataframe pandas_rejecting (inspection env) organizations_extract
                 "organizations").1 <> 0) as Hc by compute_done.
  assert (batch_size default_config <> 0) as Hb by compute_done.
  destruct (C4_reported_count_is_the_store_count default_config pandas_rejecting env
              "organizations" organizations_extract _ 5 Hv eq_refl Hn Hc eq_refl Hb eq_refl)
    as (_ & Hrows & Hwarn & _).
  split; [reflexivity|]. split; [reflexivity|]. split; [exact Hrows|].
  apply Hwarn. compute_done.
Defined.

End CountClaim.

Section IntrospectionClaim.

Import EnhancedDataLoader.

(** C10 at the running example: the introspection raises, and the one
    row reaches the load with its unparsed revenue untouched. *)
Lemma C10_failed_introspection_passes_rows_through_witness :
  let env := organizations_env (Raised "connection refused") (failing_first 0) (Returned 1) in
  inspection env = Raised "connection refused" /\
  csv_read (csv env) = Returned organizations_extract /\
  clean_dataframe pandas_rejecting (inspection env) organizations_extract "organizations" =
    ({| columns := ["id"; "revenue"]; rows := [[CStr "o1"; CStr "n/a"]] |}, []).
Proof.
  intros env.
  assert (validate_csv_file (csv env) "organizations" =
            (true, (validate_csv_file (csv env) "organizations").2)) as Hv
    by (vm_compute; reflexivity).
  assert (len organizations_extract <> 0) as Hn by compute_done.
  destruct (C10_failed_introspection_passes_rows_through default_config pandas_rejecting
              env "organizations" "connection refused" organizations_extract _
              eq_refl Hv eq_refl Hn) as (_ & _ & Hclean & _).
  split; [reflexivity|]. split; [reflexivity|]. exact Hclean.
Defined.

End IntrospectionClaim.

(** ** Failed batches *)

Section FailedBatchFacts.

Import EnhancedDataLoader.
Context (cfg : Config) (env : TableEnv) (table_name : string).

(** The events of the attempts on batch [i]: waits, and writes of that
    batch which succeed exactly when the store accepts them. *)
Lemma attempts_on_batch_events df_clean i e :
  e ∈ attempts_on_batch cfg env table_name df_clean i ->
  (exists d, e = Sleep d) \/
  (exists a ok,
      e = Write table_name (i + 1) a (rows (batch_of cfg df_clean i)) ok /\
      a < max_retries cfg /\
      (ok = true <-> to_sql env (i + 1) a = None)).
Proof.
  unfold attempts_on_batch.
  rewrite (retry_loop_spec cfg env table_name _ (i + 1) (max_retries cfg) 0 _ eq_refl).
  set (batch := rows (batch_of cfg df_clean i)).
  assert (forall k, (forall a, a < k -> to_sql env (i + 1) a <> None) -> k <= max_retries cfg ->
            e ∈ failed_attempts table_name (i + 1) batch (retry_delay cfg) (seq 0 k) ->
            (exists d, e = Sleep d) \/
            (exists a ok, e = Write table_name (i + 1) a batch ok /\ a < max_retries cfg /\
                          (ok = true <-> to_sql env (i + 1) a = None))) as Hfailed.
  { intros k Hk Hle He. unfold failed_attempts in He.
    apply list_elem_of_In, in_flat_map in He as (a & Ha & He).
    apply in_seq in Ha. simpl in He. destruct He as [<- | [<- | []]].
    - right. exists a, false. split; [reflexivity|]. split; [lia|].
      split; [discriminate|]. intros H. exfalso. apply (Hk a); [lia | assumption].
    - left. by eexists. }
  destruct (first_success (to_sql env (i + 1)) (seq 0 (max_retries cfg))) as [k|] eqn:E.
  - apply first_success_some in E as (Hr & Hw & Hb). simpl.
    intros He. apply elem_of_app in He as [He | He].
    + apply (Hfailed (k - 0)); [intros a Ha; apply Hb; lia | lia | assumption].
    + apply list_elem_of_singleton in He as ->. right. exists k, true.
      split; [reflexivity|]. split; [lia|]. by split.
  - rewrite first_success_none in E.
    destruct (max_retries cfg) as [|m] eqn:Hm; simpl; intros He; [inversion He|].
    apply elem_of_app in He as [He | He].
    + apply (Hfailed m); [intros a Ha; apply E; lia | lia | assumption].
    + apply list_elem_of_singleton in He as ->. right. exists m, false.
      split; [reflexivity|]. split; [lia|].
      split; [discriminate|]. intros H. exfalso. apply (E m); [lia | assumption].
Qed.

(** Every batch has a first attempt, whatever happened to the others. *)
Lemma attempts_on_batch_first df_clean i :
  0 < max_retries cfg ->
  exists ok, Write table_name (i + 1) 0 (rows (batch_of cfg df_clean i)) ok
               ∈ attempts_on_batch cfg env table_name df_clean i.
Proof.
  intros Hpos. unfold attempts_on_batch.
  destruct (max_retries cfg) as [|m] eqn:Hm; [lia|].
  cbn [seq retry_loop]. unfold load_table_batch.
  destruct (to_sql env (i + 1) 0).
  - exists false. rewrite Hm.
    destruct (0 <? S m - 1); destruct (retry_loop _ _ _ _ _ _ _); simpl; left.
  - exists true. left.
Qed.

Lemma batch_failure_recorded batch_nums i :
  0 < max_retries cfg ->
  i ∈ batch_nums ->
  batch_succeeds cfg env i = false ->
  BatchFailedAfter (i + 1) (max_retries cfg) ∈ batch_failures cfg env batch_nums.
Proof.
  intros Hpos Hi Hf. unfold batch_failures.
  apply list_elem_of_In, in_flat_map. exists i. split; [by apply list_elem_of_In|].
  rewrite Hf. destruct (max_retries cfg =? 0) eqn:E; [apply Nat.eqb_eq in E; lia | left; done].
Qed.

Lemma batch_succeeds_false i :
  (forall a, a < max_retries cfg -> to_sql env (i + 1) a <> None) ->
  batch_succeeds cfg env i = false.
Proof.
  intros H. unfold batch_succeeds.
  destruct (first_success _ _) eqn:E; [|reflexivity].
  apply first_success_some in E as (Hr & Hw & _). exfalso. apply (H n); [lia | assumption].
Qed.

(** A batch that never goes through adds nothing to the sum. *)
Lemma summed_rows_without df_clean batch_nums i :
  batch_succeeds cfg env i = false ->
  summed_rows cfg env df_clean batch_nums =
    summed_rows cfg env df_clean (List.filter (fun j => negb (j =? i)) batch_nums).
Proof.
  intros Hf. unfold summed_rows. induction batch_nums as [|j l IH]; simpl; [reflexivity|].
  destruct (j =? i) eqn:E; simpl.
  - apply Nat.eqb_eq in E; subst j. rewrite Hf. exact IH.
  - rewrite IH. reflexivity.
Qed.

(** [load_cleaned] once the truncate went through: the trace, and what
    becomes of the errors of the batches. *)
Lemma load_cleaned_after_truncate df_clean st :
  truncate env = None ->
  batch_size cfg <> 0 ->
  success st = false ->
  let batches := seq 0 (total_batches cfg df_clean) in
  let r := load_cleaned cfg env table_name df_clean st in
  (exists ok,
      r.2 = Truncate table_name true
              :: flat_map (attempts_on_batch cfg env table_name df_clean) batches
              ++ [Count table_name ok]) /\
  (exists more, errors r.1 = errors st ++ batch_failures cfg env batches ++ more) /\
  (success r.1 = true -> errors r.1 = []).
Proof.
  intros Ht Hb Hs batches. unfold load_cleaned. rewrite Ht.
  apply Nat.eqb_neq in Hb. rewrite Hb.
  destruct (batch_loop_spec cfg env table_name df_clean batches st)
    as (Htr & Hrows & Herr & Hwarn & _).
  destruct (batch_loop cfg env table_name df_clean
              (seq 0 (total_batches cfg df_clean)) st) as [st1 tr] eqn:E.
  fold batches in E. rewrite E in *. simpl in Htr, Herr.
  destruct (select_count env) as [actual | e]; simpl.
  - split; [exists true; by rewrite Htr|].
    assert (errors (verify_loaded actual st1) = errors st1) as Hv.
    { unfold verify_loaded. destruct (actual =? rows_loaded st1); reflexivity. }
    rewrite Hv. split; [exists []; by rewrite app_nil_r|].
    intros Hlen. apply Nat.eqb_eq in Hlen. by destruct (errors st1).
  - split; [exists false; by rewrite Htr|].
    split; [eexists; rewrite Herr, <- app_assoc; reflexivity|].
    assert (success st1 = success st) as Hss.
    { clear -E. revert st st1 tr E. induction batches as [|i l IH]; intros st st1 tr E.
      - simpl in E. by injection E as <- <-.
      - cbn [batch_loop] in E.
        destruct (retry_loop_outcome cfg env table_name
                    (iloc (i * batch_size cfg) ((i + 1) * batch_size cfg `min` len df_clean)
                       df_clean) (i + 1) st) as [_ Hst].
        destruct (retry_loop _ _ _ _ _ _ st) as [st0 tr0]. simpl in Hst.
        destruct (batch_loop cfg env table_name df_clean l st0) as [st2 tr2] eqn:E2.
        injection E as <- <-. rewrite (IH _ _ _ E2), Hst.
        destruct (first_success _ _); [reflexivity|].
        destruct (max_retries cfg =? 0); reflexivity. }
    rewrite Hss, Hs. discriminate.
Qed.

End FailedBatchFacts.

(** ** The run of the loader *)

Section RunFacts.

Import EnhancedDataLoader.
Context (cfg : Config) (pd : Pandas).

(** The load of a table holds no event of the run itself. *)
Lemma load_cleaned_table_level (env : TableEnv) table_name df_clean st e :
  e ∈ (load_cleaned cfg env table_name df_clean st).2 -> table_level e = true.
Proof.
  unfold load_cleaned. destruct (truncate env).
  { simpl. intros H. apply list_elem_of_singleton in H as ->. reflexivity. }
  destruct (batch_size cfg =? 0).
  { simpl. intros H. apply list_elem_of_singleton in H as ->. reflexivity. }
  destruct (batch_loop_spec cfg env table_name df_clean
              (seq 0 (total_batches cfg df_clean)) st) as (Htr & _).
  destruct (batch_loop _ _ _ _ _ _) as [st1 tr]. simpl in Htr. subst tr.
  assert (forall ok,
             e ∈ Truncate table_name true
                 :: flat_map (attempts_on_batch cfg env table_name df_clean)
                      (seq 0 (total_batches cfg df_clean)) ++ [Count table_name ok] ->
             table_level e = true) as Hall.
  { intros ok H. apply elem_of_cons in H as [-> | H]; [reflexivity|].
    apply elem_of_app in H as [H | H].
    - apply list_elem_of_In, in_flat_map in H as (i & _ & H).
      apply list_elem_of_In, attempts_on_batch_events in H
        as [[d ->] | (a & ok' & -> & _)]; reflexivity.
    - apply list_elem_of_singleton in H as ->. reflexivity. }
  destruct (select_count env); simpl; apply Hall.
Qed.

Lemma load_table_level (env : TableEnv) table_name e :
  e ∈ (load_table_with_retry cfg pd env table_name).2 -> table_level e = true.
Proof.
  unfold load_table_with_retry.
  destruct (validate_csv_file (csv env) table_name) as [[] issues]; simpl;
    [|intros H; inversion H].
  destruct (csv_read (csv env)) as [df|]; [|intros H; inversion H].
  destruct (len df =? 0); [intros H; inversion H|].
  destruct (clean_dataframe pd (inspection env) df table_name) as [df_clean log].
  destruct (len df_clean =? 0); [intros H; inversion H|].
  apply load_cleaned_table_level.
Qed.

Lemma visited_table_level tr :
  (forall e, e ∈ tr -> table_level e = true) -> visited tr = [].
Proof.
  induction tr as [|e tr IH]; intros H; [reflexivity|].
  unfold visited in *. simpl. rewrite IH by (intros e' He'; apply H; by right).
  specialize (H e (list_elem_of_here _ _)). destruct e; try discriminate; reflexivity.
Qed.

Lemma visited_app tr1 tr2 : visited (tr1 ++ tr2) = visited tr1 ++ visited tr2.
Proof. unfold visited. apply flat_map_app. Qed.

(** The loop over the tables turns to every table of its list, in the
    order of the list, whatever the loads do. *)
Lemma load_tables_visits_all (env : Env) order ls :
  visited (load_tables cfg pd env order ls).2 = order.
Proof.
  revert ls; induction order as [|t order IH]; intros ls; [reflexivity|].
  cbn [load_tables]. destruct (negb (csv_exists (csv (tables env t)))).
  - specialize (IH (mkLoadingStats (tables_processed ls) (total_rows_loaded ls)
                      (all_errors ls) (all_warnings ls ++ [CsvNotFound t])
                      (table_stats ls) (integrity_check ls))).
    destruct (load_tables _ _ _ order _) as [ls' tr]. simpl in *. by rewrite IH.
  - pose proof (load_table_level (tables env t) t) as Hlevel.
    destruct (load_table_with_retry cfg pd (tables env t) t) as [stats tr1].
    specialize (IH (mkLoadingStats (tables_processed ls + 1)
                      (total_rows_loaded ls + rows_loaded stats)
                      (all_errors ls ++ errors stats) (all_warnings ls ++ warnings stats)
                      (<[t := stats]> (table_stats ls)) (integrity_check ls))).
    destruct (load_tables _ _ _ order _) as [ls' tr]. simpl in *.
    change (visited (Begin t :: tr1 ++ Finish t :: tr))
      with (t :: visited (tr1 ++ Finish t :: tr)).
    rewrite visited_app, (visited_table_level tr1 Hlevel). simpl.
    change (visited (Finish t :: tr)) with (visited tr). by rewrite IH.
Qed.

Lemma load_all_tables_visits_all (env : Env) :
  database_valid env = true ->
  visited (load_all_tables cfg pd env).2 = loading_order.
Proof.
  intros Hdb. unfold load_all_tables. rewrite Hdb. cbn [negb].
  pose proof (load_tables_visits_all env loading_order initial_loading_stats) as H.
  destruct (load_tables cfg pd env loading_order initial_loading_stats) as [ls tr].
  destruct (validate_referential_integrity (connect env) (loaded_store env)).
  destruct (report_write env); exact H.
Qed.

End RunFacts.

(** ** The batch loop of the simple loader *)

Section SimpleBatchFacts.

Import SimpleEnhancedLoader.
Context (env : TableEnv) (table_name : string).

Lemma simple_batch_loop_spec df batch_size batch_nums loaded st :
  let r := batch_loop env table_name df batch_size batch_nums loaded st in
  r.1.1 = loaded +
    sum_list (map (fun i => if accepted (to_sql env (i + 1))
                            then len (simple_batch_of df batch_size i) else 0) batch_nums) /\
  errors r.1.2 = errors st ++
    flat_map (fun i => match to_sql env (i + 1) with
                       | Some e => [BatchError table_name (i + 1) e]
                       | None => []
                       end) batch_nums /\
  r.2 = map (fun i => Write table_name (i + 1) 0 (rows (simple_batch_of df batch_size i))
                        (accepted (to_sql env (i + 1)))) batch_nums.
Proof.
  revert loaded st; induction batch_nums as [|i l IH]; intros loaded st; cbn [batch_loop].
  { simpl. rewrite app_nil_r. repeat split; try done; lia. }
  fold (simple_batch_of df batch_size i).
  destruct (to_sql env (i + 1)) as [e|] eqn:Hw.
  - specialize (IH loaded (add_error (BatchError table_name (i + 1) e) st)).
    destruct (batch_loop _ _ _ _ l _ _) as [[n st'] tr]. simpl in *.
    destruct IH as (-> & -> & ->). rewrite Hw, <- app_assoc. simpl. repeat split; lia.
  - specialize (IH (loaded + len (simple_batch_of df batch_size i)) st).
    destruct (batch_loop _ _ _ _ l _ _) as [[n st'] tr]. simpl in *.
    destruct IH as (-> & -> & ->). rewrite Hw. simpl. repeat split; lia.
Qed.

End SimpleBatchFacts.

(** ** Claim on failed batches *)

Section FailedBatchClaim.

Import EnhancedDataLoader.

(** C5: a batch whose attempts all fail leaves its error in the stats of
    the table, and the load goes on: every batch of the table still gets
    its first attempt, no successful write of the failed batch exists, its
    rows are not part of the sum of loaded rows, and the count of the
    store, when it answers, is what the table reports.  The load of the
    table ends with [success = False] instead of an exception, and the run
    still turns to every table of the loading order.  In the simple
    loader, which gives a batch one attempt, a refused batch likewise
    leaves its error, the later batches are written, and the import
    returns its count. *)
Theorem C5_failed_batch_is_recorded_and_passed_over
    (cfg : Config) (pd : Pandas) (env : TableEnv) (table_name : string)
    (df : DataFrame) (issues : list message) (i : nat) :
  validate_csv_file (csv env) table_name = (true, issues) ->
  csv_read (csv env) = Returned df ->
  len df <> 0 ->
  len (clean_dataframe pd (inspection env) df table_name).1 <> 0 ->
  truncate env = None ->
  batch_size cfg <> 0 ->
  0 < max_retries cfg ->
  let df_clean := (clean_dataframe pd (inspection env) df table_name).1 in
  let batches := seq 0 (total_batches cfg df_clean) in
  i < total_batches cfg df_clean ->
  (forall a, a < max_retries cfg -> to_sql env (i + 1) a <> None) ->
  let r := load_table_with_retry cfg pd env table_name in
  BatchFailedAfter (i + 1) (max_retries cfg) ∈ errors r.1 /\
  success r.1 = false /\
  (forall j, j < total_batches cfg df_clean ->
     exists ok, Write table_name (j + 1) 0 (rows (batch_of cfg df_clean j)) ok ∈ r.2) /\
  (forall a batch, Write table_name (i + 1) a batch true ∉ r.2) /\
  summed_rows cfg env df_clean batches =
    summed_rows cfg env df_clean (List.filter (fun j => negb (j =? i)) batches) /\
  (forall actual, select_count env = Returned actual -> rows_loaded r.1 = actual) /\
  (forall run : Env,
     database_valid run = true -> visited (load_all_tables cfg pd run).2 = loading_order) /\
  (forall (senv : SimpleEnhancedLoader.TableEnv) (st : SimpleEnhancedLoader.Stats)
          (sdf : DataFrame) (n : nat) (e : exn),
     SimpleEnhancedLoader.prepared senv = Returned sdf ->
     SimpleEnhancedLoader.truncate senv = None ->
     n < (len sdf + 1000 - 1) / 1000 ->
     SimpleEnhancedLoader.to_sql senv (n + 1) = Some e ->
     let s := SimpleEnhancedLoader.import_table senv table_name st in
     BatchError table_name (n + 1) e ∈ SimpleEnhancedLoader.errors s.1.2 /\
     (exists loaded_rows, s.1.1 = Some loaded_rows) /\
     (forall j, j < (len sdf + 1000 - 1) / 1000 ->
        exists ok, Write table_name (j + 1) 0 (rows (simple_batch_of sdf 1000 j)) ok ∈ s.2)).
Proof.
  intros Hv Hr Hn Hc Ht Hb Hpos df_clean batches Hi Hfail r. subst r.
  rewrite (load_reaches_batches cfg pd env table_name df issues Hv Hr Hn Hc).
  fold df_clean.
  set (st := set_total_rows (len df) initial_stats).
  destruct (load_cleaned_after_truncate cfg env table_name df_clean st Ht Hb eq_refl)
    as ([ok Htr] & [more Herr] & Hsucc).
  fold batches in Htr, Herr.
  pose proof (batch_succeeds_false cfg env i Hfail) as Hbs.
  assert (i ∈ batches) as Hin.
  { apply list_elem_of_In, in_seq. lia. }
  assert (BatchFailedAfter (i + 1) (max_retries cfg)
            ∈ errors (load_cleaned cfg env table_name df_clean st).1) as Herror.
  { rewrite Herr. simpl. apply elem_of_app. left.
    by apply batch_failure_recorded. }
  split; [exact Herror|]. split.
  { destruct (success _) eqn:Hs; [|reflexivity].
    rewrite (Hsucc eq_refl) in Herror. inversion Herror. }
  split.
  { intros j Hj. destruct (attempts_on_batch_first cfg env table_name df_clean j Hpos)
      as [ok' Hw]. exists ok'. rewrite Htr. right. apply elem_of_app. left.
    apply list_elem_of_In, in_flat_map. exists j. split; [apply in_seq; lia|].
    by apply list_elem_of_In. }
  split.
  { intros a batch Hw. rewrite Htr in Hw.
    apply elem_of_cons in Hw as [Hw | Hw]; [discriminate|].
    apply elem_of_app in Hw as [Hw | Hw];
      [|apply list_elem_of_singleton in Hw; discriminate].
    apply list_elem_of_In, in_flat_map in Hw as (j & _ & Hw).
    apply list_elem_of_In, attempts_on_batch_events in Hw
      as [[d Hw] | (a' & ok' & Hw & Ha' & Hok)]; [discriminate|].
    injection Hw as Hj Ha _ Hok'. subst a' ok'. assert (j = i) as -> by lia.
    apply (Hfail a Ha'). by apply Hok. }
  split; [by apply summed_rows_without|].
  split.
  { intros actual Hs.
    by destruct (load_cleaned_counted cfg env table_name df_clean st actual Ht Hb Hs)
      as (_ & Hrows & _). }
  split; [intros run; apply load_all_tables_visits_all|].
  intros senv sst sdf n e Hp Hst Hlt Hw. unfold SimpleEnhancedLoader.import_table,
    SimpleEnhancedLoader.truncate_table. rewrite Hp, Hst.
  unfold SimpleEnhancedLoader.load_with_batch_processing.
  destruct (len sdf =? 0) eqn:Hz.
  { apply Nat.eqb_eq in Hz. rewrite Hz in Hlt. simpl in Hlt. lia. }
  destruct (simple_batch_loop_spec senv table_name sdf 1000
              (seq 0 ((len sdf + 1000 - 1) / 1000)) 0 sst) as (_ & He & Htrace).
  destruct (SimpleEnhancedLoader.batch_loop _ _ _ _ _ _ _) as [[loaded st'] tr].
  cbn [fst snd] in *. split; [|split].
  - rewrite He. apply elem_of_app. right.
    apply list_elem_of_In, in_flat_map. exists n. split; [apply in_seq; lia|].
    rewrite Hw. by left.
  - by eexists.
  - intros j Hj. eexists. right. rewrite Htrace.
    apply list_elem_of_In, in_map_iff. exists j. split; [reflexivity | apply in_seq; lia].
Qed.

(** C5 at the running example: the store refuses the only batch three
    times; the load ends with the error of that batch and reports the
    count of the store. *)
Lemma C5_failed_batch_is_recorded_and_passed_over_witness :
  let env := organizations_env (Returned organizations_inspection)
               (failing_first 3) (Returned 0) in
  let r := load_table_with_retry default_config pandas_rejecting env "organizations" in
  truncate env = None /\
  0 < max_retries default_config /\
  (forall a, a < max_retries default_config -> to_sql env 1 a <> None) /\
  BatchFailedAfter 1 3 ∈ errors r.1 /\
  success r.1 = false /\
  rows_loaded r.1 = 0.
Proof.
  intros env r.
  assert (validate_csv_file (csv env) "organizations" =
            (true, (validate_csv_file (csv env) "organizations").2)) as Hv
    by (vm_compute; reflexivity).
  assert (len organizations_extract <> 0) as Hn by compute_done.
  assert (len (clean_dataframe pandas_rejecting (inspection env) organizations_extract
                 "organizations").1 <> 0) as Hc by compute_done.
  assert (batch_size default_config <> 0) as Hb by compute_done.
  assert (0 < max_retries default_config) as Hpos by (simpl; lia).
  assert (0 < total_batches default_config
                (clean_dataframe pandas_rejecting (inspection env) organizations_extract
                   "organizations").1) as Hi by (vm_compute; lia).
  assert (forall a, a < max_retries default_config -> to_sql env (0 + 1) a <> None) as Hfail.
  { intros a Ha. simpl in Ha. unfold env, organizations_env, to_sql, failing_first.
    destruct (a <? 3) eqn:E; [discriminate | apply Nat.ltb_ge in E; lia]. }
  destruct (C5_failed_batch_is_recorded_and_passed_over default_config pandas_rejecting env
              "organizations" organizations_extract _ 0 Hv eq_refl Hn Hc eq_refl Hb Hpos
              Hi Hfail) as (Herr & Hs & _ & _ & _ & Hrows & _).
  split; [reflexivity|]. split; [exact Hpos|]. split; [exact Hfail|].
  split; [exact Herr|]. split; [exact Hs|]. apply Hrows. reflexivity.
Defined.

End FailedBatchClaim.

(** ** Loading order *)

Section OrderFacts.

Lemma parent_first_sound parent child order seen o1 o2 :
  parent_first parent child order seen = true ->
  order = o1 ++ child :: o2 ->
  seen = true \/ parent ∈ o1.
Proof.
  revert seen o1; induction order as [|t order IH]; intros seen o1 H Ho.
  { by destruct o1. }
  simpl in H. apply andb_true_iff in H as [Hhead Hrest].
  destruct o1 as [|t' o1]; simpl in Ho; injection Ho as -> ->.
  - rewrite String.eqb_refl in Hhead. by left.
  - destruct (IH _ _ Hrest eq_refl) as [Hs | Hin].
    + apply orb_true_iff in Hs as [Hs | Hs]; [by left|].
      apply String.eqb_eq in Hs as ->. right. left.
    + right. by right.
Qed.

(** Where a load begins in the trace of the loader's loop: the tables
    before it in the order have had their pass. *)
Lemma load_tables_begin cfg pd (env : EnhancedDataLoader.Env) order ls pre post child :
  (EnhancedDataLoader.load_tables cfg pd env order ls).2 = pre ++ Begin child :: post ->
  exists o1 o2, order = o1 ++ child :: o2 /\ forall t, t ∈ o1 -> pass_over t pre.
Proof.
  revert ls pre; induction order as [|t order IH]; intros ls pre H.
  { simpl in H. by destruct pre. }
  cbn [EnhancedDataLoader.load_tables] in H.
  destruct (negb _).
  - match type of H with context [EnhancedDataLoader.load_tables _ _ _ order ?l] =>
      specialize (IH l) end.
    destruct (EnhancedDataLoader.load_tables _ _ _ order _) as [ls' tr]. simpl in *.
    destruct pre as [|e pre]; simpl in H; [discriminate|]. injection H as <- H.
    destruct (IH pre H) as (o1 & o2 & -> & Hall).
    exists (t :: o1), o2. split; [reflexivity|]. intros t' Ht'.
    apply elem_of_cons in Ht' as [-> | Ht'].
    + right. left.
    + destruct (Hall t' Ht'); [left | right]; by right.
  - pose proof (load_table_level cfg pd (EnhancedDataLoader.tables env t) t) as Hlevel.
    destruct (EnhancedDataLoader.load_table_with_retry _ _ _ _) as [stats tr1].
    match type of H with context [EnhancedDataLoader.load_tables _ _ _ order ?l] =>
      specialize (IH l) end.
    destruct (EnhancedDataLoader.load_tables _ _ _ order _) as [ls' tr]. simpl in *.
    destruct pre as [|e pre]; simpl in H.
    { injection H as <- _. exists [], order. split; [reflexivity|]. intros t' Ht'.
      inversion Ht'. }
    injection H as <- H. symmetry in H.
    apply app_eq_app in H as [l [[H1 H2] | [H1 H2]]].
    + destruct l as [|e l]; simpl in H2; [discriminate|]. injection H2 as <- H2.
      destruct (IH l H2) as (o1 & o2 & -> & Hall).
      exists (t :: o1), o2. split; [reflexivity|]. intros t' Ht'. subst pre.
      apply elem_of_cons in Ht' as [-> | Ht'].
      * left. right. apply elem_of_app. right. left.
      * destruct (Hall t' Ht'); [left | right]; right; apply elem_of_app; right; by right.
    + destruct l as [|e l]; simpl in H2; [discriminate|]. injection H2 as <- H2.
      specialize (Hlevel (Begin child)). discriminate Hlevel.
      subst tr1. apply elem_of_app. right. left.
Qed.

End OrderFacts.

(** ** The simple loader: imports and the run *)

Section SimpleRunFacts.

Import SimpleEnhancedLoader.

(** The three ways an import ends: the preparation raised, the truncate
    failed, or the truncate went through and the batches were written. *)
Lemma import_table_cases (env : TableEnv) table_name st :
  let s := import_table env table_name st in
  (s.2 = [] /\ s.1.1 = Some 0 /\ exists e, prepared env = Raised e) \/
  (s = (None, st, [Truncate table_name false]) /\ exists e, truncate env = Some e) \/
  (truncate env = None /\
   (exists n, s.1.1 = Some n) /\
   exists writes,
     s.2 = Truncate table_name true :: writes /\
     forall e, e ∈ writes -> exists b batch ok, e = Write table_name b 0 batch ok).
Proof.
  unfold import_table, truncate_table.
  destruct (prepared env) as [df | e]; [|left; simpl; eauto].
  destruct (truncate env) as [e|]; [right; left; simpl; eauto|].
  right. right. split; [reflexivity|].
  unfold load_with_batch_processing. destruct (len df =? 0).
  { simpl. split; [eauto|]. exists []. split; [reflexivity|]. intros e H. inversion H. }
  destruct (simple_batch_loop_spec env table_name df 1000
              (seq 0 ((len df + 1000 - 1) / 1000)) 0 st) as (_ & _ & Htr).
  destruct (batch_loop _ _ _ _ _ _ _) as [[n st'] tr]. simpl in *.
  split; [eauto|]. exists tr. split; [reflexivity|]. intros e He. rewrite Htr in He.
  apply list_elem_of_fmap in He as (i & -> & _). eauto.
Qed.

Lemma import_table_level (env : TableEnv) table_name st e :
  e ∈ (import_table env table_name st).2 -> table_level e = true.
Proof.
  destruct (import_table_cases env table_name st)
    as [(-> & _) | [[-> _] | (_ & _ & writes & -> & Hw)]]; simpl; intros H.
  - inversion H.
  - apply list_elem_of_singleton in H as ->. reflexivity.
  - apply elem_of_cons in H as [-> | H]; [reflexivity|].
    destruct (Hw e H) as (b & batch & ok & ->). reflexivity.
Qed.

(** Where an import begins in a run: the tables before it in the list
    have all finished. *)
Lemma load_loop_begin envs fns st pre post child :
  (load_loop envs fns st).2 = pre ++ Begin child :: post ->
  exists o1 o2, fns = o1 ++ child :: o2 /\ forall t, t ∈ o1 -> Finish t ∈ pre.
Proof.
  revert st pre; induction fns as [|t fns IH]; intros st pre H.
  { simpl in H. by destruct pre. }
  cbn [load_loop] in H.
  pose proof (import_table_level (envs t) t st) as Hlevel.
  destruct (import_table (envs t) t st) as [[rows_loaded st1] tr1].
  assert (forall tr, Begin t :: tr1 ++ tr = pre ++ Begin child :: post ->
            (pre = [] /\ t = child) \/
            exists l, pre = Begin t :: tr1 ++ l /\ tr = l ++ Begin child :: post) as Hsplit.
  { intros tr Htr. destruct pre as [|e pre]; simpl in Htr.
    { injection Htr as -> _. by left. }
    injection Htr as <- Htr. right.
    apply app_eq_app in Htr as [l [[H1 H2] | [H1 H2]]].
    - destruct l as [|e l]; simpl in H2.
      { exists []. rewrite app_nil_r in H1. subst. by rewrite app_nil_r. }
      injection H2 as <- H2. specialize (Hlevel (Begin child)). discriminate Hlevel.
      subst tr1. apply elem_of_app. right. left.
    - exists l. by subst. }
  destruct rows_loaded as [n|].
  - match type of H with context [load_loop envs fns ?s] => specialize (IH s) end.
    destruct (load_loop envs fns _) as [res tr]. simpl in H.
    destruct (Hsplit _ H) as [[-> ->] | (l & -> & Hl)].
    { exists [], fns. split; [reflexivity|]. intros t' Ht'. inversion Ht'. }
    destruct l as [|e l]; simpl in Hl; [discriminate|]. injection Hl as <- Hl.
    destruct (IH l Hl) as (o1 & o2 & -> & Hall).
    exists (t :: o1), o2. split; [reflexivity|]. intros t' Ht'.
    apply elem_of_cons in Ht' as [-> | Ht'].
    + right. apply elem_of_app. right. left.
    + right. apply elem_of_app. right. right. by apply Hall.
  - simpl in H. rewrite <- (app_nil_r tr1) in H.
    destruct (Hsplit _ H) as [[-> ->] | (l & -> & Hl)].
    { exists [], fns. split; [reflexivity|]. intros t' Ht'. inversion Ht'. }
    by destruct l.
Qed.

(** A failed truncate is the last thing a run does: the run ends there,
    with an exception. *)
Lemma load_loop_failed_truncate envs fns st pre post t :
  (load_loop envs fns st).2 = pre ++ Truncate t false :: post ->
  post = [] /\ exists e, (load_loop envs fns st).1 = Raised e.
Proof.
  revert st pre; induction fns as [|t0 fns IH]; intros st pre H.
  { simpl in H. by destruct pre. }
  cbn [load_loop] in *.
  destruct (import_table_cases (envs t0) t0 st)
    as [(Htr & Hres & _) | [[Hs _] | (_ & [n Hres] & writes & Htr & Hw)]].
  - destruct (import_table (envs t0) t0 st) as [[rows_loaded st1] tr1].
    simpl in Htr, Hres. subst tr1 rows_loaded.
    match type of H with context [load_loop envs fns ?s] => specialize (IH s) end.
    destruct (load_loop envs fns _) as [res tr]. simpl in *.
    destruct pre as [|e pre]; simpl in H; [discriminate|]. injection H as <- H.
    destruct pre as [|e pre]; simpl in H; [discriminate|]. injection H as <- H.
    by apply IH in H.
  - rewrite Hs in *. simpl in *.
    destruct pre as [|e pre]; simpl in H; [discriminate|]. injection H as <- H.
    destruct pre as [|e pre]; simpl in H.
    + injection H as _ <-. split; [reflexivity | eauto].
    + injection H as _ H. by destruct pre.
  - destruct (import_table (envs t0) t0 st) as [[rows_loaded st1] tr1].
    simpl in Htr, Hres. subst tr1 rows_loaded.
    match type of H with context [load_loop envs fns ?s] => specialize (IH s) end.
    destruct (load_loop envs fns _) as [res tr]. simpl in *.
    destruct pre as [|e pre]; simpl in H; [discriminate|]. injection H as <- H.
    destruct pre as [|e pre]; simpl in H; [discriminate|]. injection H as <- H.
    apply app_eq_app in H as [l [[H1 H2] | [H1 H2]]].
    + destruct l as [|e l]; simpl in H2; [discriminate|]. injection H2 as <- H2.
      destruct (Hw (Truncate t false)) as (b & batch & ok & Habs); [|discriminate].
      subst writes. apply elem_of_app. right. left.
    + destruct l as [|e l]; simpl in H2; [discriminate|]. injection H2 as <- H2.
      by apply IH in H2.
Qed.

End SimpleRunFacts.

(** ** Claim on the loading order *)

Section OrderClaim.

(** In both loading orders every declared relationship, nullable or
    not, has its parent before its child. *)
Lemma declared_parents_first :
  forallb
    (fun rel =>
       parent_first (ComprehensiveValidator.parent_table rel)
         (ComprehensiveValidator.child_table rel) EnhancedDataLoader.loading_order false
       && parent_first (ComprehensiveValidator.parent_table rel)
            (ComprehensiveValidator.child_table rel)
            SimpleEnhancedLoader.loading_functions false)
    ComprehensiveValidator.relationships = true.
Proof. vm_compute. reflexivity. Qed.

Lemma load_all_tables_trace cfg pd (env : EnhancedDataLoader.Env) :
  (EnhancedDataLoader.load_all_tables cfg pd env).2 = []
  \/ (EnhancedDataLoader.load_all_tables cfg pd env).2 =
       (EnhancedDataLoader.load_tables cfg pd env EnhancedDataLoader.loading_order
          EnhancedDataLoader.initial_loading_stats).2.
Proof.
  unfold EnhancedDataLoader.load_all_tables.
  destruct (negb (EnhancedDataLoader.database_valid env)); [by left|]. right.
  destruct (EnhancedDataLoader.load_tables _ _ _ _ _) as [ls tr].
  destruct (EnhancedDataLoader.validate_referential_integrity _ _).
  by destruct (EnhancedDataLoader.report_write env).
Qed.

Lemma load_all_data_trace envs :
  (SimpleEnhancedLoader.load_all_data envs).2 =
    (SimpleEnhancedLoader.load_loop envs SimpleEnhancedLoader.loading_functions
       SimpleEnhancedLoader.initial_stats).2 /\
  ((exists e, (SimpleEnhancedLoader.load_loop envs SimpleEnhancedLoader.loading_functions
                 SimpleEnhancedLoader.initial_stats).1 = Raised e) ->
   exists e, (SimpleEnhancedLoader.load_all_data envs).1 = Raised e).
Proof.
  unfold SimpleEnhancedLoader.load_all_data.
  destruct (SimpleEnhancedLoader.load_loop _ _ _) as [[st | e] tr]; simpl.
  - split; [reflexivity|]. intros [e H]. discriminate.
  - split; [reflexivity | eauto].
Qed.

(** C1: in every run of the loader, whatever the files and the store
    do, the load of a table begins only after the pass over each of its
    declared parents is over (the parent was loaded, or skipped because it
    has no file); this holds for every declared relationship, the
    non-nullable ones included, and in particular for [encounters] and its
    four parents.  The order is the fixed [loading_order] of the loader;
    no input of the run can change it.  The simple loader obeys the same
    order, and there a table begins only after its parents have finished. *)
Theorem C1_parents_are_loaded_before_children :
  (forall cfg pd (env : EnhancedDataLoader.Env) rel pre post,
      rel ∈ ComprehensiveValidator.relationships ->
      (EnhancedDataLoader.load_all_tables cfg pd env).2
        = pre ++ Begin (ComprehensiveValidator.child_table rel) :: post ->
      pass_over (ComprehensiveValidator.parent_table rel) pre) /\
  (forall cfg pd (env : EnhancedDataLoader.Env) parent pre post,
      parent ∈ ["patients"; "providers"; "organizations"; "payers"] ->
      (EnhancedDataLoader.load_all_tables cfg pd env).2 = pre ++ Begin "encounters" :: post ->
      pass_over parent pre) /\
  (forall cfg pd (env : EnhancedDataLoader.Env),
      EnhancedDataLoader.database_valid env = true ->
      visited (EnhancedDataLoader.load_all_tables cfg pd env).2
        = EnhancedDataLoader.loading_order) /\
  (forall envs rel pre post,
      rel ∈ ComprehensiveValidator.relationships ->
      (SimpleEnhancedLoader.load_all_data envs).2
        = pre ++ Begin (ComprehensiveValidator.child_table rel) :: post ->
      Finish (ComprehensiveValidator.parent_table rel) ∈ pre) /\
  (forall envs parent pre post,
      parent ∈ ["patients"; "providers"; "organizations"; "payers"] ->
      (SimpleEnhancedLoader.load_all_data envs).2 = pre ++ Begin "encounters" :: post ->
      Finish parent ∈ pre).
Proof.
  pose proof declared_parents_first as Hall. rewrite forallb_forall in Hall.
  assert (forall cfg pd (env : EnhancedDataLoader.Env) parent child pre post,
             parent_first parent child EnhancedDataLoader.loading_order false = true ->
             (EnhancedDataLoader.load_all_tables cfg pd env).2 = pre ++ Begin child :: post ->
             pass_over parent pre) as Henhanced.
  { intros cfg pd env parent child pre post Hpf Htr.
    destruct (load_all_tables_trace cfg pd env) as [Hnil | Heq].
    { rewrite Hnil in Htr. by destruct pre. }
    rewrite Heq in Htr. apply load_tables_begin in Htr as (o1 & o2 & Ho & Hpass).
    destruct (parent_first_sound _ _ _ _ _ _ Hpf Ho) as [|Hin]; [discriminate|].
    by apply Hpass. }
  assert (forall envs parent child pre post,
             parent_first parent child SimpleEnhancedLoader.loading_functions false = true ->
             (SimpleEnhancedLoader.load_all_data envs).2 = pre ++ Begin child :: post ->
             Finish parent ∈ pre) as Hsimple.
  { intros envs parent child pre post Hpf Htr.
    destruct (load_all_data_trace envs) as [Heq _].
    rewrite Heq in Htr. apply load_loop_begin in Htr as (o1 & o2 & Ho & Hfin).
    destruct (parent_first_sound _ _ _ _ _ _ Hpf Ho) as [|Hin]; [discriminate|].
    by apply Hfin. }
  assert (forall parent, parent ∈ ["patients"; "providers"; "organizations"; "payers"] ->
            parent_first parent "encounters" EnhancedDataLoader.loading_order false = true /\
            parent_first parent "encounters" SimpleEnhancedLoader.loading_functions false
              = true) as Hfour.
  { intros parent Hp. repeat (apply elem_of_cons in Hp as [-> | Hp]; [by vm_compute|]).
    inversion Hp. }
  split; [|split; [|split; [|split]]].
  - intros cfg pd env rel pre post Hrel Htr.
    apply list_elem_of_In, Hall, andb_true_iff in Hrel as [Hpf _].
    by eapply Henhanced.
  - intros cfg pd env parent pre post Hp Htr.
    destruct (Hfour parent Hp) as [Hpf _]. by eapply Henhanced.
  - intros cfg pd env. apply load_all_tables_visits_all.
  - intros envs rel pre post Hrel Htr.
    apply list_elem_of_In, Hall, andb_true_iff in Hrel as [_ Hpf].
    by eapply Hsimple.
  - intros envs parent pre post Hp Htr.
    destruct (Hfour parent Hp) as [_ Hpf]. by eapply Hsimple.
Qed.

(** C1 in a run whose files are all empty: when the load of
    [encounters] begins, the load of [patients] has finished. *)
Lemma C1_parents_are_loaded_before_children_witness :
  let tr := (EnhancedDataLoader.load_all_tables EnhancedDataLoader.default_config
               pandas_rejecting empty_files_run).2 in
  let pre := [Begin "organizations"; Finish "organizations"; Begin "payers"; Finish "payers";
              Begin "patients"; Finish "patients"; Begin "providers"; Finish "providers"] in
  "patients" ∈ ["patients"; "providers"; "organizations"; "payers"] /\
  tr = pre ++ Begin "encounters" :: drop 9 tr /\
  pass_over "patients" pre.
Proof.
  intros tr pre.
  assert ("patients" ∈ ["patients"; "providers"; "organizations"; "payers"]) as Hin
    by compute_done.
  assert (tr = pre ++ Begin "encounters" :: drop 9 tr) as Htr by (vm_compute; reflexivity).
  split; [exact Hin|]. split; [exact Htr|].
  destruct C1_parents_are_loaded_before_children as (_ & H & _).
  exact (H EnhancedDataLoader.default_config pandas_rejecting empty_files_run
           "patients" pre (drop 9 tr) Hin Htr).
Defined.

End OrderClaim.

(** ** Claim on the truncate *)

Section TruncateClaim.

(** The three shapes of the trace of a load: nothing reached the store,
    the truncate failed, or the truncate went through before anything
    else. *)
Lemma load_table_trace_cases cfg pd (env : EnhancedDataLoader.TableEnv) table_name :
  let r := EnhancedDataLoader.load_table_with_retry cfg pd env table_name in
  r.2 = [] \/
  (r.2 = [Truncate table_name false] /\
   EnhancedDataLoader.success r.1 = false /\
   exists e, EnhancedDataLoader.truncate env = Some e /\
             UnexpectedError table_name e ∈ EnhancedDataLoader.errors r.1) \/
  (EnhancedDataLoader.truncate env = None /\
   exists rest, r.2 = Truncate table_name true :: rest /\
                forall t ok, Truncate t ok ∉ rest).
Proof.
  unfold EnhancedDataLoader.load_table_with_retry.
  destruct (EnhancedDataLoader.validate_csv_file _ _) as [[] issues]; simpl; [|by left].
  destruct (EnhancedDataLoader.csv_read _) as [df|]; [|by left].
  destruct (len df =? 0); [by left|].
  destruct (EnhancedDataLoader.clean_dataframe _ _ _ _) as [df_clean log].
  destruct (len df_clean =? 0); [by left|].
  right. unfold EnhancedDataLoader.load_cleaned.
  destruct (EnhancedDataLoader.truncate env) as [e|] eqn:Ht.
  { left. simpl. split; [reflexivity|]. split; [reflexivity|]. exists e.
    split; [reflexivity|]. left. }
  right. split; [reflexivity|].
  destruct (EnhancedDataLoader.batch_size cfg =? 0).
  { simpl. eexists. split; [reflexivity|]. intros t ok H. inversion H. }
  destruct (batch_loop_spec cfg env table_name df_clean
              (seq 0 (EnhancedDataLoader.total_batches cfg df_clean))
              (EnhancedDataLoader.set_total_rows (len df) EnhancedDataLoader.initial_stats))
    as (Htr & _).
  destruct (EnhancedDataLoader.batch_loop _ _ _ _ _ _) as [st1 tr]. simpl in Htr. subst tr.
  assert (forall ok0 t ok,
             Truncate t ok ∉
               flat_map (attempts_on_batch cfg env table_name df_clean)
                 (seq 0 (EnhancedDataLoader.total_batches cfg df_clean))
               ++ [Count table_name ok0]) as Hrest.
  { intros ok0 t ok H. apply elem_of_app in H as [H | H].
    - apply list_elem_of_In, in_flat_map in H as (i & _ & H).
      apply list_elem_of_In, attempts_on_batch_events in H
        as [[d H] | (a & ok' & H & _)]; discriminate.
    - apply list_elem_of_singleton in H. discriminate. }
  destruct (EnhancedDataLoader.select_count env); simpl;
    eexists; (split; [reflexivity | apply Hrest]).
Qed.

(** C6: the loaders always truncate before they load.  In the simple
    loader, an import writes a batch only after its truncate went through,
    and the truncate is the first thing the import does to the store; when
    the truncate fails the import writes nothing and returns [None], and
    the run ends right there with an exception, so that no relation
    receives anything afterwards.  In the loader with retries, likewise, a
    write to a table is always preceded by its successful truncate, and a
    failed truncate ends the load of the table with an error and without
    any write. *)
Theorem C6_truncate_precedes_every_write :
  (forall (senv : SimpleEnhancedLoader.TableEnv) table_name st,
      let s := SimpleEnhancedLoader.import_table senv table_name st in
      (forall b a batch ok,
          Write table_name b a batch ok ∈ s.2 ->
          SimpleEnhancedLoader.truncate senv = None /\
          exists writes, s.2 = Truncate table_name true :: writes /\
                         forall t ok', Truncate t ok' ∉ writes) /\
      (forall df e,
          SimpleEnhancedLoader.prepared senv = Returned df ->
          SimpleEnhancedLoader.truncate senv = Some e ->
          s = (None, st, [Truncate table_name false]))) /\
  (forall envs pre table_name post,
      (SimpleEnhancedLoader.load_all_data envs).2
        = pre ++ Truncate table_name false :: post ->
      post = [] /\ exists e, (SimpleEnhancedLoader.load_all_data envs).1 = Raised e) /\
  (forall cfg pd (env : EnhancedDataLoader.TableEnv) table_name,
      let r := EnhancedDataLoader.load_table_with_retry cfg pd env table_name in
      (forall b a batch ok,
          Write table_name b a batch ok ∈ r.2 ->
          EnhancedDataLoader.truncate env = None /\
          exists rest, r.2 = Truncate table_name true :: rest /\
                       forall t ok', Truncate t ok' ∉ rest) /\
      (Truncate table_name false ∈ r.2 ->
       r.2 = [Truncate table_name false] /\
       (forall b a batch ok, Write table_name b a batch ok ∉ r.2) /\
       EnhancedDataLoader.success r.1 = false /\
       exists e, EnhancedDataLoader.truncate env = Some e /\
                 UnexpectedError table_name e ∈ EnhancedDataLoader.errors r.1)).
Proof.
  split; [|split].
  - intros senv table_name st s. subst s. split.
    + intros b a batch ok Hw.
      destruct (import_table_cases senv table_name st)
        as [(Htr & _) | [[Hs _] | (Ht & _ & writes & Htr & Hall)]].
      * rewrite Htr in Hw. inversion Hw.
      * rewrite Hs in Hw. simpl in Hw. apply list_elem_of_singleton in Hw. discriminate.
      * split; [exact Ht|]. exists writes. split; [exact Htr|].
        intros t ok' H. destruct (Hall _ H) as (b' & batch' & ok'' & Habs). discriminate.
    + intros df e Hp Ht. unfold SimpleEnhancedLoader.import_table,
        SimpleEnhancedLoader.truncate_table. by rewrite Hp, Ht.
  - intros envs pre table_name post Htr.
    destruct (load_all_data_trace envs) as [Heq Hres]. rewrite Heq in Htr.
    apply load_loop_failed_truncate in Htr as [-> Hraised]. split; [reflexivity|].
    by apply Hres.
  - intros cfg pd env table_name r. subst r.
    destruct (load_table_trace_cases cfg pd env table_name)
      as [Hnil | [(Htr & Hs & e & Ht & He) | (Ht & rest & Htr & Hrest)]].
    + rewrite Hnil. split; [intros b a batch ok H; inversion H | intros H; inversion H].
    + rewrite Htr. split.
      * intros b a batch ok H. apply list_elem_of_singleton in H. discriminate.
      * intros _. split; [reflexivity|]. split.
        { intros b a batch ok H. apply list_elem_of_singleton in H. discriminate. }
        split; [exact Hs | eauto].
    + rewrite Htr. split.
      * intros b a batch ok _. split; [exact Ht | eauto].
      * intros H. apply elem_of_cons in H as [H | H]; [discriminate|].
        by apply Hrest in H.
Qed.

(** C6 in a run where the truncate of [patients] fails: organizations
    and payers are loaded, the failed truncate is the last event, and the
    run ends with an exception. *)
Lemma C6_truncate_precedes_every_write_witness :
  let run := SimpleEnhancedLoader.load_all_data patients_locked in
  SimpleEnhancedLoader.truncate (patients_locked "patients") = Some "lock timeout" /\
  run.2 = take 9 run.2 ++ Truncate "patients" false :: [] /\
  Write "payers" 1 0 [[CStr "o1"]] true ∈ take 9 run.2 /\
  exists e, run.1 = Raised e.
Proof.
  intros run.
  assert (run.2 = take 9 run.2 ++ Truncate "patients" false :: []) as Htr
    by (vm_compute; reflexivity).
  split; [reflexivity|]. split; [exact Htr|]. split; [vm_compute; do 6 right; left|].
  destruct C6_truncate_precedes_every_write as (_ & H & _).
  exact (proj2 (H patients_locked (take 9 run.2) "patients" [] Htr)).
Defined.

End TruncateClaim.

(** ** The integrity checks *)

Section SqlFacts.

(** A child row is orphaned when its field is set and the join finds no
    parent for it. *)
Lemma orphaned_spec (parent : list Sql.row) ccol pcol (c : Sql.row) :
  orphaned parent ccol pcol c = true <->
  c !! ccol <> None /\
  List.filter (fun p => Sql.sql_eq (c !! ccol) (p !! pcol)) parent = [].
Proof.
  unfold orphaned, has_parent. destruct (c !! ccol) as [v|]; simpl.
  - induction parent as [|p parent IHp]; simpl; [split; [done | reflexivity]|].
    destruct (p !! pcol) as [w|]; simpl.
    + destruct (String.eqb v w); simpl; [|exact IHp].
      split; [discriminate | intros [_ H]; discriminate].
    + exact IHp.
  - split; [discriminate | intros [H _]; congruence].
Qed.

(** The count of the [LEFT JOIN ... WHERE] query is the anti-join count. *)
Lemma left_join_counts_orphans (child parent : list Sql.row) ccol pcol :
  length
    (List.filter
       (fun '(cr, pr) => negb (Sql.is_null (cr !! ccol)) && Sql.is_null (Sql.right_col pr pcol))
       (Sql.left_join child parent ccol pcol))
  = anti_join_count child parent ccol pcol.
Proof.
  unfold anti_join_count, Sql.left_join.
  induction child as [|c child IH]; [reflexivity|].
  cbn [flat_map List.filter]. rewrite List.filter_app, length_app, IH. clear IH.
  set (matches := List.filter (fun p => Sql.sql_eq (c !! ccol) (p !! pcol)) parent).
  assert (forall p, p ∈ matches -> Sql.sql_eq (c !! ccol) (p !! pcol) = true) as Hm.
  { intros p Hp. apply list_elem_of_In, filter_In in Hp as [_ Hp]. exact Hp. }
  pose proof (orphaned_spec parent ccol pcol c) as Ho. fold matches in Ho.
  destruct matches as [|p ms] eqn:E.
  - simpl. destruct Ho as [Ho1 Ho2]. destruct (orphaned parent ccol pcol c).
    + destruct (Ho1 eq_refl) as [Hc _]. destruct (c !! ccol); [reflexivity | congruence].
    + destruct (c !! ccol) as [v|] eqn:Hv; simpl; [|reflexivity].
      assert (false = true) as Habs; [|discriminate].
      apply Ho2. split; [discriminate | reflexivity].
  - assert (orphaned parent ccol pcol c = false) as ->.
    { apply not_true_is_false. intros H. apply Ho in H as [_ H]. discriminate. }
    assert (forall l, (forall q, q ∈ l -> Sql.sql_eq (c !! ccol) (q !! pcol) = true) ->
              List.filter
                (fun '(cr, pr) =>
                   negb (Sql.is_null (cr !! ccol)) && Sql.is_null (Sql.right_col pr pcol))
                (map (fun q => (c, Some q)) l) = []) as Hnone.
    { induction l as [|q l IHl]; intros Hl; [reflexivity|]. simpl.
      pose proof (Hl q (list_elem_of_here _ _)) as Hq. unfold Sql.sql_eq in Hq.
      destruct (c !! ccol); [|discriminate]. destruct (q !! pcol); [|discriminate].
      simpl. apply IHl. intros q' Hq'. apply Hl. by right. }
    rewrite (Hnone (p :: ms) Hm). reflexivity.
Qed.

(** Every statement of the checks leaves the store as it is. *)
Lemma execute_reads_only q db : (Sql.execute q db).2 = db.
Proof.
  destruct q; simpl.
  - by destruct (Sql.lookup_relation db _ _).
  - by destruct (Sql.lookup_relation db _ _).
  - destruct (Sql.lookup_relation db child_table [child_col]);
      by destruct (Sql.lookup_relation db parent_table [parent_col]).
Qed.

End SqlFacts.

Section ConnectionFacts.

(** Once the transaction has failed, a statement fails and leaves the
    connection as it is. *)
Lemma run_failed q conn :
  Sql.in_failed_transaction conn = true ->
  Sql.run q conn = (Raised Sql.in_failed_sql_transaction, conn).
Proof. unfold Sql.run. by intros ->. Qed.

(** In a transaction that has not failed, a statement does what it does
    on the store, and the transaction fails when the statement does. *)
Lemma run_live q (db : Sql.store) :
  Sql.run q (Sql.connection_on db)
  = match (Sql.execute q db).1 with
    | Returned n => (Returned n, Sql.connection_on db)
    | Raised e => (Raised e, {| Sql.conn_store := db; Sql.in_failed_transaction := true |})
    end.
Proof.
  unfold Sql.run, Sql.connection_on. cbn [Sql.in_failed_transaction Sql.conn_store].
  pose proof (execute_reads_only q db) as H.
  destruct (Sql.execute q db) as [[n|e] db']; cbn [fst snd] in *; by subst.
Qed.

End ConnectionFacts.

Section ValidatorFacts.

Import ComprehensiveValidator.

Lemma valid_iff_clean allow nulls orphans :
  negb (negb allow && (0 <? nulls)) && negb (0 <? orphans) = true <->
  orphans = 0 /\ (allow = false -> nulls = 0).
Proof.
  destruct allow; simpl; destruct (Nat.ltb_spec 0 nulls); destruct (Nat.ltb_spec 0 orphans);
    simpl; split; try discriminate; try (intros [? ?]; lia); try (intros _; split; lia).
Qed.

(** One check in a transaction that has failed: the first query fails,
    and the record keeps the zeroes it started with. *)
Lemma check_relationship_failed rel res conn :
  Sql.in_failed_transaction conn = true ->
  check_relationship rel (res, conn)
  = (check_failed Sql.in_failed_sql_transaction
       {| relationship := name rel; child_records := 0; orphaned_records := 0;
          null_references := 0; valid := true; issues := [] |}
       {| total_checks := total_checks res + 1; passed_checks := passed_checks res;
          failed_checks := failed_checks res; violations := violations res;
          relationship_details := relationship_details res; error := error res |},
     conn).
Proof. intros H. unfold check_relationship. by rewrite run_failed. Qed.

(** One check in a transaction that has not failed: the store is left
    alone, the transaction fails when one of the queries does, the
    counters move by one, and the result of the relationship is stored
    under its name. *)
Lemma check_relationship_live rel res (db : Sql.store) :
  let r := check_relationship rel (res, Sql.connection_on db) in
  r.2 = {| Sql.conn_store := db; Sql.in_failed_transaction := negb (checkable db rel) |} /\
  total_checks r.1 = total_checks res + 1 /\
  passed_checks r.1 + failed_checks r.1 = passed_checks res + failed_checks res + 1 /\
  error r.1 = error res /\
  exists entry,
    relationship_details r.1 = <[name rel := entry]> (relationship_details res) /\
    relationship entry = name rel /\
    reports_counts db rel entry.
Proof.
  unfold check_relationship, checkable, has_column.
  rewrite run_live. unfold Sql.execute, Sql.lookup_relation. cbn [forallb fst snd].
  destruct (db !! child_table rel) as [c|] eqn:Hc; cbn [fst snd andb negb].
  2:{ repeat split; try (simpl; lia). eexists. split; [reflexivity|].
      split; [reflexivity|]. intros child parent H. congruence. }
  rewrite run_live. unfold Sql.execute, Sql.lookup_relation. cbn [forallb fst snd].
  rewrite Hc, ?andb_true_r.
  destruct (Str.mem (child_column rel) (Sql.rel_columns c)) eqn:Hcc; cbn [fst snd andb negb].
  2:{ repeat split; try (simpl; lia). eexists. split; [reflexivity|].
      split; [reflexivity|]. intros child parent H1 H2 H3. congruence. }
  rewrite run_live. unfold Sql.execute, Sql.lookup_relation. cbn [forallb fst snd].
  rewrite Hc, ?andb_true_r, Hcc.
  destruct (db !! parent_table rel) as [p|] eqn:Hp; cbn [fst snd andb negb].
  2:{ repeat split; try (simpl; lia). eexists. split; [reflexivity|].
      split; [reflexivity|]. intros child parent H1 H2. congruence. }
  rewrite ?andb_true_r.
  destruct (Str.mem (parent_column rel) (Sql.rel_columns p)) eqn:Hpc; cbn [fst snd andb negb].
  2:{ repeat split; try (simpl; lia). eexists. split; [reflexivity|].
      split; [reflexivity|]. intros child parent H1 H2 H3 H4. congruence. }
  split; [reflexivity|]. split; [reflexivity|]. split.
  { simpl. destruct (_ && _); lia. }
  split; [reflexivity|]. eexists. split; [reflexivity|]. split; [reflexivity|].
  intros child parent H1 H2 _ _. rewrite Hc in H1. rewrite Hp in H2.
  injection H1 as <-. injection H2 as <-.
  cbn [child_records orphaned_records null_references valid].
  rewrite left_join_counts_orphans. split; [reflexivity|]. split; [reflexivity|].
  split; [reflexivity|]. apply valid_iff_clean.
Qed.

(** One check, whatever the state of the transaction: the store is left
    alone, a failed transaction stays failed, the counters move by one,
    and a result is stored under the name of the relationship. *)
Lemma check_relationship_spec rel res conn :
  let r := check_relationship rel (res, conn) in
  Sql.conn_store r.2 = Sql.conn_store conn /\
  (Sql.in_failed_transaction conn = true -> Sql.in_failed_transaction r.2 = true) /\
  total_checks r.1 = total_checks res + 1 /\
  passed_checks r.1 + failed_checks r.1 = passed_checks res + failed_checks res + 1 /\
  error r.1 = error res /\
  exists entry,
    relationship_details r.1 = <[name rel := entry]> (relationship_details res) /\
    relationship entry = name rel.
Proof.
  destruct conn as [db [|]].
  - rewrite check_relationship_failed by reflexivity. cbn.
    repeat split; try lia. eexists. split; reflexivity.
  - change {| Sql.conn_store := db; Sql.in_failed_transaction := false |}
      with (Sql.connection_on db).
    destruct (check_relationship_live rel res db) as (Hc & Ht & Hpf & He & entry & Hd & Hn & _).
    cbv zeta. rewrite Hc. cbn [Sql.conn_store Sql.in_failed_transaction snd].
    split; [reflexivity|]. split; [discriminate|]. split; [exact Ht|].
    split; [exact Hpf|]. split; [exact He|]. exists entry. by split.
Qed.

(** The loop over the relationships, from any state of the results and
    of the transaction. *)
Lemma check_loop_spec rels res conn :
  NoDup (name <$> rels) ->
  let r := fold_left (fun acc rel => check_relationship rel acc) rels (res, conn) in
  Sql.conn_store r.2 = Sql.conn_store conn /\
  total_checks r.1 = total_checks res + length rels /\
  passed_checks r.1 + failed_checks r.1
    = passed_checks res + failed_checks res + length rels /\
  error r.1 = error res /\
  dom (relationship_details r.1)
    = dom (relationship_details res) ∪ list_to_set (name <$> rels) /\
  (forall n, n ∉ name <$> rels ->
             relationship_details r.1 !! n = relationship_details res !! n) /\
  (forall rel, rel ∈ rels ->
     exists entry,
       relationship_details r.1 !! name rel = Some entry /\
       relationship entry = name rel).
Proof.
  revert res conn; induction rels as [|rel rels IH]; intros res conn Hnd; cbn [fold_left].
  { simpl. repeat split; try lia; try done.
    - by rewrite (right_id_L ∅ (∪)).
    - intros rel H. inversion H. }
  rewrite fmap_cons in Hnd. apply NoDup_cons in Hnd as [Hn Hnd].
  destruct (check_relationship_spec rel res conn)
    as (Hdb & _ & Ht & Hpf & He & entry & Hd & Hname).
  destruct (check_relationship rel (res, conn)) as [res1 conn1].
  cbn [fst snd] in Hdb, Ht, Hpf, He, Hd.
  destruct (IH res1 conn1 Hnd) as (IHdb & IHt & IHpf & IHe & IHdom & IHother & IHall).
  split; [congruence|]. split; [simpl; lia|]. split; [simpl; lia|].
  split; [congruence|]. split; [|split].
  - rewrite IHdom, Hd, dom_insert_L, fmap_cons, list_to_set_cons.
    apply set_eq. intros x. rewrite !elem_of_union. tauto.
  - intros n Hnn. rewrite fmap_cons in Hnn. apply not_elem_of_cons in Hnn as [Hne Hnn].
    rewrite (IHother n Hnn), Hd. by apply lookup_insert_ne.
  - intros rel' Hrel'. apply elem_of_cons in Hrel' as [-> | Hrel']; [|by apply IHall].
    exists entry. split; [|done].
    rewrite (IHother (name rel) Hn), Hd. apply lookup_insert_eq.
Qed.


Lemma check_loop_spec_store rels res conn :
  Sql.conn_store (fold_left (fun acc rel => check_relationship rel acc) rels (res, conn)).2
  = Sql.conn_store conn.
Proof.
  revert res conn; induction rels as [|rel rels IH]; intros res conn; cbn [fold_left]; [done|].
  destruct (check_relationship_spec rel res conn) as (Hdb & _).
  destruct (check_relationship rel (res, conn)) as [res1 conn1].
  cbn [snd] in Hdb. by rewrite IH.
Qed.

(** What the validator returns, seen as a loop on a fresh connection. *)
Lemma validate_referential_integrity_loop (db : Sql.store) :
  validate_referential_integrity None db
  = ((fold_left (fun acc rel => check_relationship rel acc) relationships
        (initial_results, Sql.connection_on db)).1, db).
Proof.
  unfold validate_referential_integrity, check_relationships.
  generalize relationships. intros rels.
  pose proof (check_loop_spec_store rels initial_results (Sql.connection_on db)) as H.
  destruct (fold_left _ rels _) as [res conn]. cbn [fst snd] in *. by rewrite H.
Qed.

End ValidatorFacts.

Section LoaderCheckFacts.

Import EnhancedDataLoader.


End LoaderCheckFacts.

(** ** Claims on the integrity verification *)

Section IntegrityClaims.

Lemma validator_names_distinct :
  NoDup (ComprehensiveValidator.name <$> ComprehensiveValidator.relationships).
Proof. compute_done. Qed.


(** The same store, evaluated: ten checks performed, no violation, and an
    empty list of details. *)
Example clean_store_check :
  (EnhancedDataLoader.validate_referential_integrity None clean_store).1
  = {| EnhancedDataLoader.checks_performed := 10;
       EnhancedDataLoader.violations_found := 0;
       EnhancedDataLoader.details := [];
       EnhancedDataLoader.error := None |}.
Proof. vm_compute. reflexivity. Qed.



(** The same store, evaluated: ten failed checks, no violation, and a
    record of [encounters_provider] that holds zeroes. *)
Example ghost_provider_store_check :
  let r := (ComprehensiveValidator.validate_referential_integrity None
              ghost_provider_store).1 in
  ComprehensiveValidator.failed_checks r = 10 /\
  ComprehensiveValidator.violations r = [] /\
  ComprehensiveValidator.relationship_details r !! "encounters_provider"
  = Some {| ComprehensiveValidator.relationship := "encounters_provider";
            ComprehensiveValidator.child_records := 0;
            ComprehensiveValidator.orphaned_records := 0;
            ComprehensiveValidator.null_references := 0;
            ComprehensiveValidator.valid := false;
            ComprehensiveValidator.issues :=
              [ComprehensiveValidator.ValidationError Sql.in_failed_sql_transaction] |}.
Proof. vm_compute. repeat split. Qed.



End IntegrityClaims.

(** * Further properties *)

(** ** Batches *)

Section BatchPartition.

Import EnhancedDataLoader.

(** The first [k] slices of a list, put end to end, are its first
    [k * bs] elements. *)
Lemma chunks_prefix {A} (l : list A) bs k :
  concat (map (fun i => take (Nat.min ((i + 1) * bs) (length l) - i * bs) (drop (i * bs) l))
            (seq 0 k))
  = take (k * bs) l.
Proof.
  induction k as [|k IH]; [reflexivity|].
  rewrite seq_S, map_app, concat_app, IH. cbn [map concat Nat.add]. rewrite app_nil_r.
  destruct (Nat.le_gt_cases ((k + 1) * bs) (length l)) as [Hle | Hgt].
  - rewrite Nat.min_l by exact Hle. rewrite take_take_drop. f_equal. lia.
  - rewrite Nat.min_r by lia. rewrite take_take_drop.
    rewrite !take_ge by lia. reflexivity.
Qed.

(** The end index the loops compute selects the rows of the slice
    [i * size : min((i + 1) * size, len)], for every batch number. *)
Lemma slice_rows {A} (l : list A) size i :
  take ((i + 1) * (size `min` length l) - i * size) (drop (i * size) l)
  = take (Nat.min ((i + 1) * size) (length l) - i * size) (drop (i * size) l).
Proof.
  destruct (Nat.le_gt_cases size (length l)) as [Hle | Hgt].
  - rewrite (Nat.min_l size) by exact Hle.
    destruct (Nat.le_gt_cases ((i + 1) * size) (length l)) as [Hle' | Hgt'].
    + by rewrite Nat.min_l.
    + rewrite Nat.min_r by lia. rewrite !take_ge; [reflexivity | |];
        rewrite length_drop; lia.
  - rewrite (Nat.min_r size) by lia. rewrite (Nat.min_r _ (length l)) by nia.
    destruct i as [|i].
    + f_equal. lia.
    + rewrite (drop_ge l) by nia. by rewrite !take_nil.
Qed.

Lemma batch_of_slice cfg df i : batch_of cfg df i = batch_slice (batch_size cfg) i df.
Proof. unfold batch_of, batch_slice, iloc, len. f_equal. apply slice_rows. Qed.

Lemma simple_batch_of_slice df size i : simple_batch_of df size i = batch_slice size i df.
Proof. unfold simple_batch_of, batch_slice, iloc, len. f_equal. apply slice_rows. Qed.

Lemma total_batches_covers cfg df :
  batch_size cfg <> 0 ->
  len df <= total_batches cfg df * batch_size cfg /\
  forall i, i < total_batches cfg df -> i * batch_size cfg < len df.
Proof.
  intros Hb. unfold total_batches.
  pose proof (Nat.div_mod_eq (len df + batch_size cfg - 1) (batch_size cfg)) as Hdm.
  pose proof (Nat.mod_upper_bound (len df + batch_size cfg - 1) (batch_size cfg) Hb) as Hm.
  set (q := (len df + batch_size cfg - 1) / batch_size cfg) in *.
  set (r := (len df + batch_size cfg - 1) mod batch_size cfg) in *.
  split; [nia|]. intros i Hi. nia.
Qed.

End BatchPartition.

(** ** The rows of the batches *)

Section BatchRows.

Import EnhancedDataLoader.

Context (cfg : Config) (env : TableEnv) (table_name : string).

Lemma written_rows_app tr1 tr2 :
  written_rows (tr1 ++ tr2) = written_rows tr1 ++ written_rows tr2.
Proof. apply flat_map_app. Qed.

Lemma offered_rows_app tr1 tr2 :
  offered_rows (tr1 ++ tr2) = offered_rows tr1 ++ offered_rows tr2.
Proof. apply flat_map_app. Qed.

Lemma failed_attempts_rows b batch delay a n :
  written_rows (failed_attempts table_name b batch delay (seq a n)) = [] /\
  offered_rows (failed_attempts table_name b batch delay (seq a n))
    = if (a =? 0) && (0 <? n) then batch else [].
Proof.
  revert a. induction n as [|n IH]; intros a.
  - by rewrite andb_false_r.
  - destruct (IH (S a)) as [Hw Ho]. split.
    + cbn [seq failed_attempts flat_map app written_rows].
      exact Hw.
    + change (offered_rows (failed_attempts table_name b batch delay (seq a (S n))))
        with (offered_rows ([Write table_name b a batch false; Sleep delay]
                ++ failed_attempts table_name b batch delay (seq (S a) n))).
      rewrite offered_rows_app, Ho. destruct a; cbn; by rewrite ?app_nil_r.
Qed.

Lemma attempts_on_batch_rows df_clean i :
  written_rows (attempts_on_batch cfg env table_name df_clean i)
    = (if batch_succeeds cfg env i then rows (batch_of cfg df_clean i) else []) /\
  (0 < max_retries cfg ->
   offered_rows (attempts_on_batch cfg env table_name df_clean i)
     = rows (batch_of cfg df_clean i)).
Proof.
  unfold attempts_on_batch, batch_succeeds.
  rewrite (retry_loop_spec cfg env table_name _ (i + 1) (max_retries cfg) 0) by lia.
  destruct (first_success _ _) as [k|] eqn:E.
  - apply first_success_some in E as (Hk & _). cbn [snd].
    rewrite written_rows_app, offered_rows_app, Nat.sub_0_r.
    destruct (failed_attempts_rows (i + 1) (rows (batch_of cfg df_clean i))
                (retry_delay cfg) 0 k) as [-> ->].
    split; [cbn; by rewrite app_nil_r|]. intros _. destruct k; cbn; by rewrite ?app_nil_r.
  - destruct (max_retries cfg) as [|m]; [split; [reflexivity | lia]|].
    cbn [snd]. rewrite written_rows_app, offered_rows_app.
    destruct (failed_attempts_rows (i + 1) (rows (batch_of cfg df_clean i))
                (retry_delay cfg) 0 m) as [-> ->].
    split; [reflexivity|]. intros _. destruct m; cbn; by rewrite ?app_nil_r.
Qed.

Lemma batch_rows_concat df_clean :
  batch_size cfg <> 0 ->
  concat (map (fun i => rows (batch_of cfg df_clean i)) (seq 0 (total_batches cfg df_clean)))
  = rows df_clean.
Proof.
  intros Hb.
  rewrite (map_ext _ (fun i => take (Nat.min ((i + 1) * batch_size cfg) (length (rows df_clean))
                                     - i * batch_size cfg)
                                 (drop (i * batch_size cfg) (rows df_clean)))).
  - rewrite chunks_prefix. apply take_ge.
    destruct (total_batches_covers cfg df_clean Hb) as [H _]. exact H.
  - intros i. rewrite batch_of_slice. reflexivity.
Qed.

Lemma batch_of_size df_clean i :
  batch_size cfg <> 0 -> i < total_batches cfg df_clean ->
  0 < len (batch_of cfg df_clean i) <= batch_size cfg.
Proof.
  intros Hb Hi. rewrite batch_of_slice. unfold batch_slice, iloc, len. cbn [rows].
  destruct (total_batches_covers cfg df_clean Hb) as [_ H]. specialize (H i Hi).
  unfold len in H. rewrite length_take, length_drop. lia.
Qed.

Lemma batches_written df_clean batch_nums :
  written_rows (flat_map (attempts_on_batch cfg env table_name df_clean) batch_nums)
  = concat (map (fun i => if batch_succeeds cfg env i
                          then rows (batch_of cfg df_clean i) else []) batch_nums).
Proof.
  induction batch_nums as [|i l IH]; [reflexivity|].
  cbn [flat_map map concat]. rewrite written_rows_app, IH.
  by destruct (attempts_on_batch_rows df_clean i) as [-> _].
Qed.

Lemma batches_offered df_clean batch_nums :
  0 < max_retries cfg ->
  offered_rows (flat_map (attempts_on_batch cfg env table_name df_clean) batch_nums)
  = concat (map (fun i => rows (batch_of cfg df_clean i)) batch_nums).
Proof.
  intros Hm. induction batch_nums as [|i l IH]; [reflexivity|].
  cbn [flat_map map concat]. rewrite offered_rows_app, IH.
  destruct (attempts_on_batch_rows df_clean i) as [_ H]. by rewrite H.
Qed.

Lemma sublist_concat_if {A B} (p : A -> bool) (f : A -> list B) l :
  sublist (concat (map (fun i => if p i then f i else []) l)) (concat (map f l)).
Proof.
  induction l as [|i l IH]; [constructor|].
  cbn [map concat]. apply sublist_app; [|exact IH].
  destruct (p i); [reflexivity | apply sublist_nil_l].
Qed.

End BatchRows.

(** ** Accounting for the batches of a load *)

Section LoadAccounting.

Import EnhancedDataLoader.

Context (cfg : Config) (env : TableEnv) (table_name : string).

Lemma total_sleep_app tr1 tr2 : total_sleep (tr1 ++ tr2) = total_sleep tr1 + total_sleep tr2.
Proof. unfold total_sleep. by rewrite flat_map_app, sum_list_with_app. Qed.

Lemma failed_attempts_total_sleep b batch delay attempts :
  total_sleep (failed_attempts table_name b batch delay attempts) = length attempts * delay.
Proof.
  induction attempts as [|a l IH]; [reflexivity|].
  change (failed_attempts table_name b batch delay (a :: l))
    with ([Write table_name b a batch false; Sleep delay]
            ++ failed_attempts table_name b batch delay l).
  rewrite total_sleep_app, IH. cbn. lia.
Qed.

(** One batch: at most [max_retries] writes, one wait less, each of
    [retry_delay] seconds. *)
Lemma attempts_on_batch_counts df_clean i :
  let tr := attempts_on_batch cfg env table_name df_clean i in
  write_attempts tr <= max_retries cfg /\
  sleeps tr <= max_retries cfg - 1 /\
  total_sleep tr = sleeps tr * retry_delay cfg.
Proof.
  unfold attempts_on_batch.
  rewrite (retry_loop_spec cfg env table_name _ (i + 1) (max_retries cfg) 0) by lia.
  destruct (first_success _ _) as [k|] eqn:E.
  - apply first_success_some in E as (Hk & _). cbn [snd].
    destruct (counts_app
                (failed_attempts table_name (i + 1) (rows (batch_of cfg df_clean i))
                   (retry_delay cfg) (seq 0 (k - 0)))
                [Write table_name (i + 1) k (rows (batch_of cfg df_clean i)) true])
      as [-> ->].
    rewrite total_sleep_app, failed_attempts_total_sleep.
    destruct (failed_attempts_counts table_name (i + 1) (rows (batch_of cfg df_clean i))
                (retry_delay cfg) (seq 0 (k - 0))) as [-> ->].
    rewrite length_seq. cbn. lia.
  - destruct (max_retries cfg) as [|m]; [cbn; lia|]. cbn [snd].
    destruct (counts_app
                (failed_attempts table_name (i + 1) (rows (batch_of cfg df_clean i))
                   (retry_delay cfg) (seq 0 m))
                [Write table_name (i + 1) (0 + m) (rows (batch_of cfg df_clean i)) false])
      as [-> ->].
    rewrite total_sleep_app, failed_attempts_total_sleep.
    destruct (failed_attempts_counts table_name (i + 1) (rows (batch_of cfg df_clean i))
                (retry_delay cfg) (seq 0 m)) as [-> ->].
    rewrite length_seq. cbn. lia.
Qed.

Lemma batches_counts df_clean batch_nums :
  let tr := flat_map (attempts_on_batch cfg env table_name df_clean) batch_nums in
  write_attempts tr <= length batch_nums * max_retries cfg /\
  sleeps tr <= length batch_nums * (max_retries cfg - 1) /\
  total_sleep tr = sleeps tr * retry_delay cfg.
Proof.
  induction batch_nums as [|i l IH]; [cbn; lia|].
  cbn [flat_map length]. cbv zeta in IH.
  destruct (counts_app (attempts_on_batch cfg env table_name df_clean i)
              (flat_map (attempts_on_batch cfg env table_name df_clean) l)) as [-> ->].
  rewrite total_sleep_app.
  destruct (attempts_on_batch_counts df_clean i) as (H1 & H2 & ->).
  destruct IH as (H3 & H4 & ->). lia.
Qed.

(** The batches that go through are counted, and the flag is left alone. *)
Lemma batch_loop_processed df_clean batch_nums st :
  let r := batch_loop cfg env table_name df_clean batch_nums st in
  batches_processed r.1
    = batches_processed st + length (List.filter (batch_succeeds cfg env) batch_nums) /\
  success r.1 = success st.
Proof.
  revert st; induction batch_nums as [|i l IH]; intros st; cbn [batch_loop].
  { cbn. split; [lia | reflexivity]. }
  fold (batch_of cfg df_clean i).
  destruct (retry_loop_outcome cfg env table_name (batch_of cfg df_clean i) (i + 1) st)
    as [_ Hst].
  destruct (retry_loop cfg env table_name (batch_of cfg df_clean i) (i + 1)
              (seq 0 (max_retries cfg)) st) as [st1 tr1] eqn:E1.
  cbn [fst] in Hst. specialize (IH st1).
  destruct (batch_loop cfg env table_name df_clean l st1) as [st2 tr2] eqn:E2.
  cbn [fst] in IH |- *. destruct IH as [-> ->]. rewrite Hst.
  cbn [List.filter]. unfold batch_succeeds at 2.
  destruct (first_success (to_sql env (i + 1)) (seq 0 (max_retries cfg))); cbn.
  - split; [lia | reflexivity].
  - destruct (max_retries cfg =? 0); cbn; split; try lia; reflexivity.
Qed.

Lemma batch_failures_length batch_nums :
  0 < max_retries cfg ->
  length (batch_failures cfg env batch_nums)
  = length (List.filter (fun i => negb (batch_succeeds cfg env i)) batch_nums).
Proof.
  intros Hm. unfold batch_failures.
  induction batch_nums as [|i l IH]; [reflexivity|].
  cbn [flat_map List.filter]. rewrite length_app, IH.
  destruct (batch_succeeds cfg env i); [reflexivity|].
  destruct (max_retries cfg =? 0) eqn:E; [apply Nat.eqb_eq in E; lia | reflexivity].
Qed.

Lemma batch_failures_none batch_nums :
  (forall i, i ∈ batch_nums -> batch_succeeds cfg env i = true) ->
  batch_failures cfg env batch_nums = [].
Proof.
  intros H. unfold batch_failures. induction batch_nums as [|i l IH]; [reflexivity|].
  cbn [flat_map]. rewrite (H i) by left. rewrite IH; [reflexivity|].
  intros j Hj. apply H. by right.
Qed.

Lemma summed_rows_written df_clean batch_nums :
  summed_rows cfg env df_clean batch_nums
  = length (written_rows
              (flat_map (attempts_on_batch cfg env table_name df_clean) batch_nums)).
Proof.
  rewrite batches_written. unfold summed_rows.
  induction batch_nums as [|i l IH]; [reflexivity|].
  cbn [map concat]. rewrite length_app, <- IH. cbn.
  destruct (batch_succeeds cfg env i); reflexivity.
Qed.

End LoadAccounting.

(** ** The load of one table, as a whole *)

Section LoadTheorems.

Import EnhancedDataLoader.

(** Whatever becomes of a load from the truncate on: the rows the store
    accepted are rows of the cleaned frame, in their order; the writes
    and the waits stay within the budget of the batches; the number of
    rows read is left alone. *)
Lemma load_cleaned_bounds cfg env table_name df_clean st :
  let r := load_cleaned cfg env table_name df_clean st in
  sublist (written_rows r.2) (rows df_clean) /\
  write_attempts r.2 <= total_batches cfg df_clean * max_retries cfg /\
  sleeps r.2 <= total_batches cfg df_clean * (max_retries cfg - 1) /\
  total_sleep r.2 = sleeps r.2 * retry_delay cfg /\
  total_rows_in_csv r.1 = total_rows_in_csv st.
Proof.
  unfold load_cleaned.
  destruct (truncate env) as [e|].
  { cbn. repeat split; try (apply Nat.le_0_l || lia). apply sublist_nil_l. }
  destruct (batch_size cfg =? 0) eqn:Hb.
  { cbn. repeat split; try (apply Nat.le_0_l || lia). apply sublist_nil_l. }
  apply Nat.eqb_neq in Hb.
  destruct (batch_loop_spec cfg env table_name df_clean (seq 0 (total_batches cfg df_clean)) st)
    as (Htr & _ & _ & _ & Hcsv).
  destruct (batch_loop cfg env table_name df_clean (seq 0 (total_batches cfg df_clean)) st)
    as [st1 tr]. cbn [fst snd] in Htr, Hcsv.
  destruct (batches_counts cfg env table_name df_clean (seq 0 (total_batches cfg df_clean)))
    as (Hw & Hs & Ht). rewrite length_seq, <- Htr in *.
  assert (forall ok, written_rows (Truncate table_name true :: tr ++ [Count table_name ok])
                     = written_rows tr) as Hwr.
  { intros ok. change (Truncate table_name true :: tr ++ [Count table_name ok])
      with ([Truncate table_name true] ++ tr ++ [Count table_name ok]).
    rewrite !written_rows_app. cbn. by rewrite app_nil_r. }
  assert (forall ok, write_attempts (Truncate table_name true :: tr ++ [Count table_name ok])
                     = write_attempts tr /\
                     sleeps (Truncate table_name true :: tr ++ [Count table_name ok])
                     = sleeps tr /\
                     total_sleep (Truncate table_name true :: tr ++ [Count table_name ok])
                     = total_sleep tr) as Hcount.
  { intros ok. change (Truncate table_name true :: tr ++ [Count table_name ok])
      with ([Truncate table_name true] ++ tr ++ [Count table_name ok]).
    rewrite !total_sleep_app.
    destruct (counts_app [Truncate table_name true] (tr ++ [Count table_name ok])) as [-> ->].
    destruct (counts_app tr [Count table_name ok]) as [-> ->]. cbn. lia. }
  assert (sublist (written_rows tr) (rows df_clean)) as Hsub.
  { rewrite Htr, batches_written. rewrite <- (batch_rows_concat cfg df_clean Hb).
    apply sublist_concat_if. }
  assert (forall st', total_rows_in_csv (verify_loaded st' st1) = total_rows_in_csv st1) as Hv.
  { intros a. unfold verify_loaded. by destruct (a =? rows_loaded st1). }
  destruct (select_count env) as [actual|e]; cbn [fst snd];
    rewrite Hwr;
    [destruct (Hcount true) as (-> & -> & ->) | destruct (Hcount false) as (-> & -> & ->)];
    cbn [total_rows_in_csv set_success add_errors];
    rewrite ?Hv; repeat split; try done.
Qed.

(** From the truncate on, the flag says whether errors were recorded. *)
Lemma load_cleaned_success cfg env table_name df_clean st :
  success st = false -> errors st = [] ->
  let r := load_cleaned cfg env table_name df_clean st in
  success r.1 = true <-> errors r.1 = [].
Proof.
  intros Hs He. unfold load_cleaned.
  destruct (truncate env) as [e|].
  { cbn. rewrite Hs, He. split; discriminate. }
  destruct (batch_size cfg =? 0) eqn:Hb.
  { cbn. rewrite Hs, He. split; discriminate. }
  destruct (batch_loop_processed cfg env table_name df_clean
              (seq 0 (total_batches cfg df_clean)) st) as [_ Hss].
  destruct (batch_loop cfg env table_name df_clean (seq 0 (total_batches cfg df_clean)) st)
    as [st1 tr]. cbn [fst] in Hss.
  destruct (select_count env) as [actual|e]; cbn.
  - rewrite Nat.eqb_eq. split; intros H.
    + by apply nil_length_inv.
    + by rewrite H.
  - rewrite Hss, Hs. split; [discriminate|]. intros H. by destruct (errors st1).
Qed.

(** The outcomes of [validate_csv_file]. *)
Lemma validate_csv_file_spec (f : CsvFile) (table_name : string) :
  let v := validate_csv_file f table_name in
  (v.1 = true <->
     csv_exists f = true /\ csv_size f <> 0 /\
     exists df_sample, csv_sample f = Returned df_sample /\ len df_sample <> 0) /\
  (v.1 = false ->
     exists m, v.2 = [m] /\ forall missing, m <> CsvMissingColumns missing) /\
  (v.1 = true ->
     v.2 = [] \/
     exists mapping df_sample,
       column_mappings !! table_name = Some mapping /\
       csv_sample f = Returned df_sample /\
       dom mapping ∖ list_to_set (map Str.upper (columns df_sample)) <> (∅ : gset string) /\
       v.2 = [CsvMissingColumns
                (dom mapping ∖ list_to_set (map Str.upper (columns df_sample)))]).
Proof.
  unfold validate_csv_file.
  destruct (csv_exists f); cbn [negb].
  2:{ cbn. split; [split; [discriminate | intros (? & _); discriminate]|].
      split; [|discriminate]. intros _. eexists. split; [reflexivity | discriminate]. }
  destruct (csv_size f =? 0) eqn:Hs.
  { apply Nat.eqb_eq in Hs. cbn.
    split; [split; [discriminate | intros (_ & ? & _); congruence]|].
    split; [|discriminate]. intros _. eexists. split; [reflexivity | discriminate]. }
  apply Nat.eqb_neq in Hs.
  destruct (csv_sample f) as [df_sample|e].
  2:{ cbn. split; [split; [discriminate | intros (_ & _ & ? & ? & _); discriminate]|].
      split; [|discriminate]. intros _. eexists. split; [reflexivity | discriminate]. }
  destruct (len df_sample =? 0) eqn:Hl.
  { apply Nat.eqb_eq in Hl. cbn.
    split; [split; [discriminate | intros (_ & _ & ? & [= <-] & ?); congruence]|].
    split; [|discriminate]. intros _. eexists. split; [reflexivity | discriminate]. }
  apply Nat.eqb_neq in Hl.
  assert (true = true <->
          true = true /\ csv_size f <> 0 /\
          exists d, Returned df_sample = Returned d /\ len d <> 0) as Hiff.
  { split; [|done]. intros _. split; [done|]. split; [done|]. by exists df_sample. }
  destruct (column_mappings !! table_name) as [mapping|] eqn:Hm.
  2:{ cbn. split; [exact Hiff|]. split; [discriminate|]. intros _. by left. }
  destruct (decide _) as [He|Hne]; cbn.
  - split; [exact Hiff|]. split; [discriminate|]. intros _. by left.
  - split; [exact Hiff|]. split; [discriminate|]. intros _. right.
    exists mapping, df_sample. done.
Qed.

(** X1: [validate_csv_file]: the file is valid when it is there, is not
    empty and has a first data row that reads; the labels play no part.
    A file that is not valid has one issue; a valid one has none, or
    the one that names the mapped labels it lacks. *)
Theorem csv_validity_ignores_the_labels (f : CsvFile) (table_name : string) :
  let v := validate_csv_file f table_name in
  (v.1 = true <->
     csv_exists f = true /\ csv_size f <> 0 /\
     exists df_sample, csv_sample f = Returned df_sample /\ len df_sample <> 0) /\
  (v.1 = false ->
     exists m, v.2 = [m] /\ forall missing, m <> CsvMissingColumns missing) /\
  (v.1 = true ->
     v.2 = [] \/
     exists mapping df_sample,
       column_mappings !! table_name = Some mapping /\
       csv_sample f = Returned df_sample /\
       dom mapping ∖ list_to_set (map Str.upper (columns df_sample)) <> (∅ : gset string) /\
       v.2 = [CsvMissingColumns
                (dom mapping ∖ list_to_set (map Str.upper (columns df_sample)))]).
Proof. exact (validate_csv_file_spec f table_name). Qed.

End LoadTheorems.

Section LoadGuarantees.

Import EnhancedDataLoader.

(** The messages a load from the truncate on can add. *)
Lemma load_cleaned_messages (P : message -> Prop) cfg env table_name df_clean st :
  (forall e, P (UnexpectedError table_name e)) ->
  (forall b n, P (BatchFailedAfter b n)) ->
  (forall a b, P (RowCountMismatch a b)) ->
  Forall P (errors st) -> Forall P (warnings st) ->
  let r := load_cleaned cfg env table_name df_clean st in
  Forall P (errors r.1) /\ Forall P (warnings r.1).
Proof.
  intros Hu Hb Hr He Hw. unfold load_cleaned.
  destruct (truncate env) as [e|].
  { cbn. split; [|done]. apply Forall_app. split; [done|]. by repeat constructor. }
  destruct (batch_size cfg =? 0).
  { cbn. split; [|done]. apply Forall_app. split; [done|]. by repeat constructor. }
  destruct (batch_loop_spec cfg env table_name df_clean (seq 0 (total_batches cfg df_clean)) st)
    as (_ & _ & Herr & Hwarn & _).
  destruct (batch_loop cfg env table_name df_clean (seq 0 (total_batches cfg df_clean)) st)
    as [st1 tr]. cbn [fst] in Herr, Hwarn.
  assert (Forall P (errors st1)) as He1.
  { rewrite Herr. apply Forall_app. split; [done|]. unfold batch_failures.
    apply Forall_forall. intros m Hm%list_elem_of_In%in_flat_map.
    destruct Hm as (i & _ & Hm). destruct (batch_succeeds cfg env i); [inversion Hm|].
    destruct (max_retries cfg =? 0); [inversion Hm|].
    destruct Hm as [<- | []]. apply Hb. }
  destruct (select_count env) as [actual|e]; cbn [fst].
  - unfold verify_loaded. destruct (actual =? rows_loaded st1); cbn; [by rewrite Hwarn|].
    split; [done|]. rewrite Hwarn. apply Forall_app. split; [done|]. by repeat constructor.
  - cbn. split; [|by rewrite Hwarn]. apply Forall_app. split; [done|]. by repeat constructor.
Qed.

Lemma load_table_success (cfg : Config) (pd : Pandas) (env : TableEnv) (table_name : string) :
  let r := load_table_with_retry cfg pd env table_name in
  success r.1 = true <-> errors r.1 = [].
Proof.
  unfold load_table_with_retry.
  destruct (validate_csv_file_spec (csv env) table_name) as (_ & Hinv & _).
  destruct (validate_csv_file (csv env) table_name) as [[] issues]; cbn [negb fst snd] in *.
  2:{ destruct (Hinv eq_refl) as (m & -> & _). cbn. split; discriminate. }
  destruct (csv_read (csv env)) as [df|e]; [|cbn; split; discriminate].
  destruct (len df =? 0); [cbn; done|].
  destruct (clean_dataframe pd (inspection env) df table_name) as [df_clean log].
  destruct (len df_clean =? 0); [cbn; done|].
  by apply load_cleaned_success.
Qed.

(** X2: The success flag of a table says exactly that no error was recorded. *)
Theorem table_success_iff_no_errors
    (cfg : Config) (pd : Pandas) (env : TableEnv) (table_name : string) :
  let r := load_table_with_retry cfg pd env table_name in
  success r.1 = true <-> errors r.1 = [].
Proof. exact (load_table_success cfg pd env table_name). Qed.

(** X3: The issue that names the mapped labels a file lacks goes nowhere:
    no error and no warning of a load is that issue. *)
Theorem missing_columns_are_never_reported
    (cfg : Config) (pd : Pandas) (env : TableEnv) (table_name : string)
    (missing : gset string) :
  let r := load_table_with_retry cfg pd env table_name in
  (CsvMissingColumns missing ∉ errors r.1) /\ (CsvMissingColumns missing ∉ warnings r.1).
Proof.
  set (P := fun m : message => m <> CsvMissingColumns missing).
  enough (Forall P (errors (load_table_with_retry cfg pd env table_name).1) /\
          Forall P (warnings (load_table_with_retry cfg pd env table_name).1)) as [He Hw].
  { cbv zeta. rewrite Forall_forall in He, Hw.
    split; intros H; [apply (He _ H) | apply (Hw _ H)]; reflexivity. }
  unfold load_table_with_retry.
  destruct (validate_csv_file_spec (csv env) table_name) as (_ & Hinv & _).
  destruct (validate_csv_file (csv env) table_name) as [[] issues]; cbn [negb fst snd] in *.
  2:{ destruct (Hinv eq_refl) as (m & -> & Hm). cbn. split; [|done].
      repeat constructor. apply Hm. }
  destruct (csv_read (csv env)) as [df|e]; [|cbn; split; by repeat constructor].
  destruct (len df =? 0); [cbn; split; by repeat constructor|].
  destruct (clean_dataframe pd (inspection env) df table_name) as [df_clean log].
  destruct (len df_clean =? 0); [cbn; split; by repeat constructor|].
  apply load_cleaned_messages; try done.
Qed.

(** X4: The writes and the waits of a load stay within what the rows read
    from the file allow: each batch of at most [batch_size] rows has at
    most [max_retries] writes and one wait less, each wait of
    [retry_delay] seconds. *)
Theorem attempts_and_waits_are_bounded
    (cfg : Config) (pd : Pandas) (env : TableEnv) (table_name : string) :
  let r := load_table_with_retry cfg pd env table_name in
  let most_batches := (total_rows_in_csv r.1 + batch_size cfg - 1) / batch_size cfg in
  write_attempts r.2 <= most_batches * max_retries cfg /\
  sleeps r.2 <= most_batches * (max_retries cfg - 1) /\
  total_sleep r.2 = sleeps r.2 * retry_delay cfg.
Proof.
  unfold load_table_with_retry.
  destruct (validate_csv_file (csv env) table_name) as [[] issues]; cbn [negb fst snd];
    [|cbn; repeat split; apply Nat.le_0_l].
  destruct (csv_read (csv env)) as [df|e]; [|cbn; repeat split; apply Nat.le_0_l].
  destruct (len df =? 0); [cbn; repeat split; apply Nat.le_0_l|].
  destruct (clean_dataframe_rows pd (inspection env) df table_name) as (_ & _ & Hlen & _).
  destruct (clean_dataframe pd (inspection env) df table_name) as [df_clean log].
  cbn [fst snd] in Hlen.
  destruct (len df_clean =? 0); [cbn; repeat split; apply Nat.le_0_l|].
  destruct (load_cleaned_bounds cfg env table_name df_clean
              (set_total_rows (len df) initial_stats)) as (_ & Hw & Hs & Ht & Hcsv).
  rewrite Hcsv. cbn [total_rows_in_csv set_total_rows].
  assert (total_batches cfg df_clean <= (len df + batch_size cfg - 1) / batch_size cfg) as Hle.
  { unfold total_batches. destruct (Nat.eq_dec (batch_size cfg) 0) as [-> | Hb]; [done|].
    apply Nat.Div0.div_le_mono. lia. }
  split; [|split; [|exact Ht]].
  - etrans; [exact Hw|]. by apply Nat.mul_le_mono_r.
  - etrans; [exact Hs|]. by apply Nat.mul_le_mono_r.
Qed.

(** X5: Whatever the store does, the rows it is shown to accept are rows of
    the cleaned frame, each at most once and in their order: a retry
    never writes a batch a second time. *)
Theorem no_row_is_written_twice
    (cfg : Config) (pd : Pandas) (env : TableEnv) (table_name : string) :
  let r := load_table_with_retry cfg pd env table_name in
  match csv_read (csv env) with
  | Returned df =>
      sublist (written_rows r.2)
        (rows (clean_dataframe pd (inspection env) df table_name).1)
  | Raised _ => r.2 = []
  end.
Proof.
  unfold load_table_with_retry.
  destruct (validate_csv_file (csv env) table_name) as [[] issues]; cbn [negb fst snd].
  2:{ destruct (csv_read (csv env)); [apply sublist_nil_l | reflexivity]. }
  destruct (csv_read (csv env)) as [df|e]; [|reflexivity].
  destruct (len df =? 0); [apply sublist_nil_l|].
  destruct (clean_dataframe pd (inspection env) df table_name) as [df_clean log].
  destruct (len df_clean =? 0); [apply sublist_nil_l|].
  apply load_cleaned_bounds.
Qed.

(** X6: A load that gets past its truncate shows every row of the cleaned
    frame to the store once at a first attempt, in order, in batches of
    one to [batch_size] rows numbered from 1: the batches are the
    slices [i * batch_size : min((i + 1) * batch_size, len)]. *)
Theorem every_cleaned_row_is_offered_once
    (cfg : Config) (pd : Pandas) (env : TableEnv) (table_name : string)
    (df : DataFrame) (issues : list message) :
  validate_csv_file (csv env) table_name = (true, issues) ->
  csv_read (csv env) = Returned df ->
  len df <> 0 ->
  len (clean_dataframe pd (inspection env) df table_name).1 <> 0 ->
  truncate env = None ->
  batch_size cfg <> 0 ->
  0 < max_retries cfg ->
  let df_clean := (clean_dataframe pd (inspection env) df table_name).1 in
  let r := load_table_with_retry cfg pd env table_name in
  offered_rows r.2 = rows df_clean /\
  forall t b a batch ok,
    Write t b a batch ok ∈ r.2 ->
    t = table_name /\
    1 <= b <= total_batches cfg df_clean /\
    a < max_retries cfg /\
    batch = rows (batch_slice (batch_size cfg) (b - 1) df_clean) /\
    0 < length batch <= batch_size cfg.
Proof.
  intros Hv Hr Hn Hc Ht Hb Hm df_clean r. subst r.
  rewrite (load_reaches_batches cfg pd env table_name df issues Hv Hr Hn Hc).
  fold df_clean.
  destruct (load_cleaned_after_truncate cfg env table_name df_clean
              (set_total_rows (len df) initial_stats) Ht Hb eq_refl) as ((ok0 & Htr) & _).
  rewrite Htr. split.
  - change (Truncate table_name true
              :: flat_map (attempts_on_batch cfg env table_name df_clean)
                   (seq 0 (total_batches cfg df_clean)) ++ [Count table_name ok0])
      with ([Truncate table_name true]
              ++ flat_map (attempts_on_batch cfg env table_name df_clean)
                   (seq 0 (total_batches cfg df_clean)) ++ [Count table_name ok0]).
    rewrite !offered_rows_app, batches_offered by exact Hm.
    cbn. rewrite app_nil_r. by apply batch_rows_concat.
  - intros t b a batch ok H.
    apply elem_of_cons in H as [H | H]; [discriminate|].
    apply elem_of_app in H as [H | H]; [|apply list_elem_of_singleton in H; discriminate].
    apply list_elem_of_In, in_flat_map in H as (i & Hi & H).
    apply in_seq in Hi.
    apply list_elem_of_In, attempts_on_batch_events in H
      as [[d H] | (a' & ok' & H & Ha & _)]; [discriminate|].
    injection H as -> -> -> -> ->.
    replace (i + 1 - 1) with i by lia. rewrite <- batch_of_slice.
    split; [reflexivity|]. split; [lia|]. split; [exact Ha|]. split; [reflexivity|].
    apply (batch_of_size cfg df_clean i Hb). lia.
Qed.

Lemma every_cleaned_row_is_offered_once_witness :
  let env := organizations_env (Returned organizations_inspection)
               (failing_first 1) (Returned 1) in
  let r := load_table_with_retry default_config pandas_rejecting env "organizations" in
  truncate env = None /\
  batch_size default_config <> 0 /\
  0 < max_retries default_config /\
  offered_rows r.2 = [[CStr "o1"; CNull]].
Proof.
  intros env r.
  assert (validate_csv_file (csv env) "organizations" =
            (true, (validate_csv_file (csv env) "organizations").2)) as Hv
    by (vm_compute; reflexivity).
  assert (len organizations_extract <> 0) as Hn by compute_done.
  assert (len (clean_dataframe pandas_rejecting (inspection env) organizations_extract
                 "organizations").1 <> 0) as Hc by compute_done.
  assert (batch_size default_config <> 0) as Hb by compute_done.
  assert (0 < max_retries default_config) as Hm by (cbn; lia).
  destruct (every_cleaned_row_is_offered_once default_config pandas_rejecting env
              "organizations" organizations_extract _ Hv eq_refl Hn Hc eq_refl Hb Hm)
    as [Hrows _].
  split; [reflexivity|]. split; [exact Hb|]. split; [exact Hm|]. exact Hrows.
Defined.

(** X7: The books of a load that ran to its closing count: every batch is
    either counted as processed or leaves one error; the warning about
    the row count is there exactly when the count of the store is not
    the number of rows the writes went through with. *)
Theorem batches_are_processed_or_leave_an_error
    (cfg : Config) (pd : Pandas) (env : TableEnv) (table_name : string)
    (df : DataFrame) (issues : list message) (actual : nat) :
  validate_csv_file (csv env) table_name = (true, issues) ->
  csv_read (csv env) = Returned df ->
  len df <> 0 ->
  len (clean_dataframe pd (inspection env) df table_name).1 <> 0 ->
  truncate env = None ->
  batch_size cfg <> 0 ->
  0 < max_retries cfg ->
  select_count env = Returned actual ->
  let df_clean := (clean_dataframe pd (inspection env) df table_name).1 in
  let r := load_table_with_retry cfg pd env table_name in
  batches_processed r.1 + length (errors r.1) = total_batches cfg df_clean /\
  total_rows_in_csv r.1 = len df /\
  (warnings r.1 = [] <-> actual = length (written_rows r.2)) /\
  ((forall i, i < total_batches cfg df_clean -> batch_succeeds cfg env i = true) ->
   written_rows r.2 = rows df_clean /\
   batches_processed r.1 = total_batches cfg df_clean /\
   success r.1 = true).
Proof.
  intros Hv Hr Hn Hc Ht Hb Hm Hcount df_clean r. subst r.
  rewrite (load_reaches_batches cfg pd env table_name df issues Hv Hr Hn Hc).
  fold df_clean.
  set (st := set_total_rows (len df) initial_stats).
  set (batches := seq 0 (total_batches cfg df_clean)).
  destruct (load_cleaned_counted cfg env table_name df_clean st actual Ht Hb Hcount)
    as (Htr & _ & Herr & Hwarn).
  destruct (load_cleaned_bounds cfg env table_name df_clean st) as (_ & _ & _ & _ & Hcsv).
  fold batches in Htr, Herr, Hwarn.
  assert (written_rows (load_cleaned cfg env table_name df_clean st).2
          = written_rows (flat_map (attempts_on_batch cfg env table_name df_clean) batches))
    as Hwr.
  { rewrite Htr.
    change (Truncate table_name true
              :: flat_map (attempts_on_batch cfg env table_name df_clean) batches
              ++ [Count table_name true])
      with ([Truncate table_name true]
              ++ flat_map (attempts_on_batch cfg env table_name df_clean) batches
              ++ [Count table_name true]).
    rewrite !written_rows_app. cbn. by rewrite app_nil_r. }
  assert (batches_processed (load_cleaned cfg env table_name df_clean st).1
          = length (List.filter (batch_succeeds cfg env) batches)) as Hproc.
  { unfold load_cleaned. rewrite Ht, Hcount.
    destruct (batch_size cfg =? 0) eqn:E; [apply Nat.eqb_eq in E; done|].
    destruct (batch_loop_processed cfg env table_name df_clean batches st) as [Hp _].
    fold batches.
    destruct (batch_loop cfg env table_name df_clean batches st) as [st1 tr].
    cbn [fst] in Hp |- *. unfold verify_loaded.
    destruct (actual =? rows_loaded st1); cbn; rewrite Hp; reflexivity. }
  split; [|split; [|split]].
  - rewrite Hproc, Herr. cbn [errors st set_total_rows initial_stats app].
    rewrite (batch_failures_length cfg env batches Hm).
    pose proof (filter_negb_length (batch_succeeds cfg env) batches) as H.
    assert (length batches = total_batches cfg df_clean) as Hlen
      by (unfold batches; apply length_seq).
    lia.
  - rewrite Hcsv. reflexivity.
  - rewrite Hwarn, Hwr, <- (summed_rows_written cfg env table_name).
    cbn [warnings rows_loaded st set_total_rows initial_stats app Nat.add].
    destruct (actual =? summed_rows cfg env df_clean batches) eqn:E.
    + apply Nat.eqb_eq in E. done.
    + apply Nat.eqb_neq in E. split; [discriminate | done].
  - intros Hall.
    assert (forall i, i ∈ batches -> batch_succeeds cfg env i = true) as Hall'.
    { intros i Hi%list_elem_of_In%in_seq. apply Hall. lia. }
    split; [|split].
    + rewrite Hwr, batches_written.
      rewrite <- (batch_rows_concat cfg df_clean Hb). fold batches. f_equal.
      apply map_ext_in. intros i Hi%list_elem_of_In. by rewrite Hall'.
    + rewrite Hproc.
      pose proof (filter_negb_length (batch_succeeds cfg env) batches) as H.
      assert (List.filter (fun i => negb (batch_succeeds cfg env i)) batches = []) as Hnone.
      { clear -Hall'. induction batches as [|i l IH]; [reflexivity|].
        cbn [List.filter]. rewrite (Hall' i) by left. apply IH.
        intros j Hj. apply Hall'. by right. }
      rewrite Hnone in H. unfold batches in H at 2. rewrite length_seq in H. exact H.
    + apply (load_cleaned_success cfg env table_name df_clean st eq_refl eq_refl).
      rewrite Herr.
      by rewrite (batch_failures_none cfg env batches Hall').
Qed.

Lemma batches_are_processed_or_leave_an_error_witness :
  let env := organizations_env (Returned organizations_inspection)
               (failing_first 1) (Returned 1) in
  let r := load_table_with_retry default_config pandas_rejecting env "organizations" in
  truncate env = None /\
  select_count env = Returned 1 /\
  0 < max_retries default_config /\
  batches_processed r.1 + length (errors r.1) = 1 /\
  total_rows_in_csv r.1 = 1 /\
  (warnings r.1 = [] <-> 1 = length (written_rows r.2)).
Proof.
  intros env r.
  assert (validate_csv_file (csv env) "organizations" =
            (true, (validate_csv_file (csv env) "organizations").2)) as Hv
    by (vm_compute; reflexivity).
  assert (len organizations_extract <> 0) as Hn by compute_done.
  assert (len (clean_dataframe pandas_rejecting (inspection env) organizations_extract
                 "organizations").1 <> 0) as Hc by compute_done.
  assert (batch_size default_config <> 0) as Hb by compute_done.
  assert (0 < max_retries default_config) as Hm by (cbn; lia).
  destruct (batches_are_processed_or_leave_an_error default_config pandas_rejecting env
              "organizations" organizations_extract _ 1 Hv eq_refl Hn Hc eq_refl Hb Hm eq_refl)
    as (Hbooks & Hcsv & Hwarn & _).
  split; [reflexivity|]. split; [reflexivity|]. split; [exact Hm|].
  split; [exact Hbooks|]. split; [exact Hcsv | exact Hwarn].
Defined.

End LoadGuarantees.

(** ** The totals of a run *)

Section RunTotals.

Import EnhancedDataLoader.

Context (cfg : Config) (pd : Pandas) (env : Env).

(** The loop over the tables: what it adds to the totals of the run. *)
Lemma load_tables_totals order ls :
  let r := load_tables cfg pd env order ls in
  let loaded := List.filter (has_file env) order in
  tables_processed r.1 = tables_processed ls + length loaded /\
  total_rows_loaded r.1
    = total_rows_loaded ls + sum_list (map (fun t => rows_loaded (stats_of cfg pd env t)) loaded) /\
  all_errors r.1 = all_errors ls ++ flat_map (fun t => errors (stats_of cfg pd env t)) loaded /\
  all_warnings r.1
    = all_warnings ls ++
      flat_map (fun t => if has_file env t then warnings (stats_of cfg pd env t)
                         else [CsvNotFound t]) order /\
  integrity_check r.1 = integrity_check ls /\
  (forall t, t ∉ order -> table_stats r.1 !! t = table_stats ls !! t) /\
  (NoDup order -> forall t, t ∈ order ->
     table_stats r.1 !! t
       = if has_file env t then Some (stats_of cfg pd env t) else table_stats ls !! t).
Proof.
  revert ls; induction order as [|t0 order IH]; intros ls.
  { cbn. rewrite !app_nil_r. repeat split; try lia; try done. intros _ t Ht. inversion Ht. }
  cbv zeta. cbn [load_tables List.filter flat_map].
  destruct (csv_exists (csv (tables env t0))) eqn:Hfile; cbn [negb];
    (assert (has_file env t0 = csv_exists (csv (tables env t0))) as Hf by reflexivity);
    rewrite Hfile in Hf; rewrite !Hf.
  - destruct (load_table_with_retry cfg pd (tables env t0) t0) as [stats tr1] eqn:Hload.
    assert (stats_of cfg pd env t0 = stats) as Hst by (unfold stats_of; by rewrite Hload).
    specialize (IH (mkLoadingStats (tables_processed ls + 1)
                      (total_rows_loaded ls + rows_loaded stats)
                      (all_errors ls ++ errors stats) (all_warnings ls ++ warnings stats)
                      (<[t0 := stats]> (table_stats ls)) (integrity_check ls))).
    destruct (load_tables cfg pd env order _) as [ls' tr].
    cbv zeta in IH. cbn [fst snd tables_processed total_rows_loaded all_errors all_warnings
                           table_stats integrity_check] in IH |- *.
    destruct IH as (-> & -> & -> & -> & -> & Hout & Hin).
    cbn [length map flat_map]. rewrite !Hst, <- !app_assoc.
    split; [lia|]. split; [cbn; lia|]. split; [done|]. split; [done|]. split; [done|].
    split.
    + intros t Ht. apply not_elem_of_cons in Ht as [Hne Ht].
      rewrite (Hout t Ht). by apply lookup_insert_ne.
    + intros Hnd t Ht. apply NoDup_cons in Hnd as [Hnot Hnd].
      apply elem_of_cons in Ht as [-> | Ht].
      * by rewrite (Hout t0 Hnot), lookup_insert_eq, Hf, Hst.
      * rewrite (Hin Hnd t Ht). destruct (has_file env t); [done|].
        apply lookup_insert_ne. intros ->. by apply Hnot.
  - specialize (IH (mkLoadingStats (tables_processed ls) (total_rows_loaded ls)
                      (all_errors ls) (all_warnings ls ++ [CsvNotFound t0])
                      (table_stats ls) (integrity_check ls))).
    destruct (load_tables cfg pd env order _) as [ls' tr].
    cbv zeta in IH. cbn [fst snd tables_processed total_rows_loaded all_errors all_warnings
                           table_stats integrity_check] in IH |- *.
    destruct IH as (-> & -> & -> & -> & -> & Hout & Hin).
    rewrite <- !app_assoc.
    split; [done|]. split; [done|]. split; [done|]. split; [done|]. split; [done|].
    split.
    + intros t Ht. apply not_elem_of_cons in Ht as [Hne Ht]. exact (Hout t Ht).
    + intros Hnd t Ht. apply NoDup_cons in Hnd as [Hnot Hnd].
      apply elem_of_cons in Ht as [-> | Ht].
      * by rewrite (Hout t0 Hnot), Hf.
      * exact (Hin Hnd t Ht).
Qed.

Lemma flat_map_nil_iff {A B} (f : A -> list B) (l : list A) :
  flat_map f l = [] <-> forall x, x ∈ l -> f x = [].
Proof.
  induction l as [|a l IH]; cbn [flat_map].
  - split; [intros _ x Hx; inversion Hx | done].
  - split.
    + intros [Ha Hl]%app_eq_nil x [-> | Hx]%elem_of_cons; [done | by apply IH].
    + intros H. rewrite (H a) by left. apply IH. intros x Hx. apply H. by right.
Qed.

Lemma loading_order_distinct : NoDup loading_order.
Proof. compute_done. Qed.

(** What a run with a valid database reports. *)
Lemma load_all_tables_report :
  database_valid env = true ->
  let r := load_all_tables cfg pd env in
  let ls := r.1.2 in
  let loaded := List.filter (has_file env) loading_order in
  r.1.1 = match report_write env with
          | Some e => Raised e
          | None => Returned (length (all_errors ls) =? 0)
          end /\
  tables_processed ls = length loaded /\
  total_rows_loaded ls
    = sum_list (map (fun t => rows_loaded (stats_of cfg pd env t)) loaded) /\
  all_errors ls = flat_map (fun t => errors (stats_of cfg pd env t)) loaded /\
  all_warnings ls
    = flat_map (fun t => if has_file env t then warnings (stats_of cfg pd env t)
                         else [CsvNotFound t]) loading_order /\
  (forall t, t ∈ loaded -> table_stats ls !! t = Some (stats_of cfg pd env t)) /\
  (forall t, t ∉ loaded -> table_stats ls !! t = None) /\
  integrity_check ls
    = Some (validate_referential_integrity (connect env) (loaded_store env)).1.
Proof.
  intros Hdb. unfold load_all_tables. rewrite Hdb. cbn [negb].
  destruct (load_tables_totals loading_order initial_loading_stats)
    as (Hp & Hr & He & Hw & _ & Hout & Hin).
  destruct (load_tables cfg pd env loading_order initial_loading_stats) as [ls tr].
  destruct (validate_referential_integrity (connect env) (loaded_store env)) as [res db].
  cbn [fst snd app initial_loading_stats table_stats Nat.add] in Hp, Hr, He, Hw, Hin, Hout.
  assert (Hloaded : forall t, t ∈ List.filter (has_file env) loading_order ->
            table_stats ls !! t = Some (stats_of cfg pd env t)).
  { intros t [Ht%list_elem_of_In Hf]%list_elem_of_In%filter_In.
    cbn [app] in Hin. rewrite (Hin loading_order_distinct t Ht). by rewrite Hf. }
  assert (Hrest : forall t, t ∉ List.filter (has_file env) loading_order ->
            table_stats ls !! t = None).
  { intros t Ht. cbn [app] in Hin, Hout.
    destruct (decide (t ∈ loading_order)) as [Hin' | Hnot].
    - rewrite (Hin loading_order_distinct t Hin').
      destruct (has_file env t) eqn:Hf; [|apply lookup_empty].
      exfalso. apply Ht, list_elem_of_In, filter_In. split; [by apply list_elem_of_In | done].
    - rewrite (Hout t Hnot). apply lookup_empty. }
  destruct (report_write env) as [e|];
    cbn [fst snd tables_processed total_rows_loaded all_errors all_warnings table_stats
           integrity_check initial_loading_stats app Nat.add] in *;
    repeat split; assumption.
Qed.

End RunTotals.

Section RunTheorems.

Import EnhancedDataLoader.

(** X8: The totals of a run are those of the tables that have a file: the
    tables processed are counted, their rows and their messages are
    added up in loading order, each keeps its statistics under its
    name, and a table without a file leaves one warning and nothing
    else.  A run on a database that does not validate does nothing. *)
Theorem run_totals_add_up (cfg : Config) (pd : Pandas) (env : Env) :
  let r := load_all_tables cfg pd env in
  let ls := r.1.2 in
  let loaded := List.filter (has_file env) loading_order in
  if database_valid env then
    tables_processed ls = length loaded /\
    total_rows_loaded ls
      = sum_list (map (fun t => rows_loaded (stats_of cfg pd env t)) loaded) /\
    all_errors ls = flat_map (fun t => errors (stats_of cfg pd env t)) loaded /\
    all_warnings ls
      = flat_map (fun t => if has_file env t then warnings (stats_of cfg pd env t)
                           else [CsvNotFound t]) loading_order /\
    (forall t, t ∈ loaded -> table_stats ls !! t = Some (stats_of cfg pd env t)) /\
    (forall t, t ∉ loaded -> table_stats ls !! t = None)
  else r = (Returned false, initial_loading_stats, []).
Proof.
  destruct (database_valid env) eqn:Hdb.
  - destruct (load_all_tables_report cfg pd env Hdb) as (_ & H1 & H2 & H3 & H4 & H5 & H6 & _).
    cbv zeta. repeat split; assumption.
  - cbv zeta. unfold load_all_tables. by rewrite Hdb.
Qed.

(** X9: A run returns success exactly when the database validates, every
    table that has a file loads with success and the report can be
    written; neither a table without a file nor anything the integrity
    check finds makes a run fail.  The report is written outside any
    [try]: a run raises exactly when the database validates and writing
    the report raises, whatever the tables did, and it returns failure
    in the remaining cases. *)
Theorem run_succeeds_iff_every_loaded_table_does
    (cfg : Config) (pd : Pandas) (env : Env) :
  let every_table_loads :=
    forall t, t ∈ loading_order -> has_file env t = true ->
              success (stats_of cfg pd env t) = true in
  ((load_all_tables cfg pd env).1.1 = Returned true <->
   database_valid env = true /\ report_write env = None /\ every_table_loads) /\
  (forall e, (load_all_tables cfg pd env).1.1 = Raised e <->
             database_valid env = true /\ report_write env = Some e) /\
  ((load_all_tables cfg pd env).1.1 = Returned false <->
   database_valid env = false \/
   (report_write env = None /\ ~ every_table_loads)).
Proof.
  cbv zeta.
  assert (Hall : forall ls : LoadingStats,
            all_errors ls
              = flat_map (fun t => errors (stats_of cfg pd env t))
                  (List.filter (has_file env) loading_order) ->
            (length (all_errors ls) =? 0) = true <->
            forall t, t ∈ loading_order -> has_file env t = true ->
                      success (stats_of cfg pd env t) = true).
  { intros ls ->. rewrite Nat.eqb_eq, length_zero_iff_nil, flat_map_nil_iff. split.
    - intros H t Ht Hf. apply load_table_success. apply H.
      apply list_elem_of_In, filter_In. split; [by apply list_elem_of_In | done].
    - intros H t [Ht%list_elem_of_In Hf]%list_elem_of_In%filter_In.
      apply load_table_success. by apply H. }
  destruct (database_valid env) eqn:Hdb.
  2:{ unfold load_all_tables. rewrite Hdb. cbn [negb fst].
      split; [|split].
      - split; [discriminate | intros [? _]; discriminate].
      - intros e. split; [discriminate | intros [? _]; discriminate].
      - split; [by left | done]. }
  destruct (load_all_tables_report cfg pd env Hdb) as (Hr & _ & _ & He & _).
  cbv zeta in Hr, He. rewrite Hr. specialize (Hall _ He).
  destruct (report_write env) as [e'|]; (split; [|split]).
  - split; [discriminate | intros (_ & ? & _); discriminate].
  - intros e. split; [intros [= ->]; done | intros [_ [= ->]]; done].
  - split; [discriminate | intros [? | [? _]]; discriminate].
  - split.
    + intros [= H]. split; [done|]. split; [done|]. by apply Hall.
    + intros (_ & _ & H). f_equal. by apply Hall.
  - intros e. split; [discriminate | intros [_ ?]; discriminate].
  - split.
    + intros [= H]. right. split; [done|]. intros Hevery. apply Hall in Hevery. congruence.
    + intros [? | [_ Hn]]; [discriminate|]. f_equal.
      destruct (length _ =? 0) eqn:E; [|done]. exfalso. by apply Hn, Hall.
Qed.

End RunTheorems.

(** ** The three integrity checks *)

Section OrphanCounts.

Lemma orphans_execute (db : Sql.store) ct cc pt pc :
  Sql.execute (Sql.SelectCountOrphans ct cc pt pc) db
  = (match orphans db (ct, cc, pt, pc) with
     | Some n => Returned n
     | None => (Sql.execute (Sql.SelectCountOrphans ct cc pt pc) db).1
     end, db).
Proof.
  pose proof (execute_reads_only (Sql.SelectCountOrphans ct cc pt pc) db) as Hdb.
  unfold orphans.
  destruct (Sql.execute (Sql.SelectCountOrphans ct cc pt pc) db) as [[n|e] db'];
    cbn [fst snd] in *; by subst.
Qed.

(** What the orphan query counts, when it returns. *)
Lemma orphans_counts (db : Sql.store) ct cc pt pc n :
  orphans db (ct, cc, pt, pc) = Some n <->
  exists child parent,
    db !! ct = Some child /\ db !! pt = Some parent /\
    Str.mem cc (Sql.rel_columns child) = true /\
    Str.mem pc (Sql.rel_columns parent) = true /\
    n = anti_join_count (Sql.rel_rows child) (Sql.rel_rows parent) cc pc.
Proof.
  unfold orphans, Sql.execute, Sql.lookup_relation. cbn [forallb].
  destruct (db !! ct) as [c|]; cbn [fst].
  2:{ split; [discriminate | intros (? & ? & ? & _); discriminate]. }
  rewrite andb_true_r.
  destruct (Str.mem cc (Sql.rel_columns c)) eqn:Hcc; cbn [fst].
  2:{ split; [discriminate|]. intros (? & ? & [= <-] & _ & ? & _). congruence. }
  destruct (db !! pt) as [p|]; cbn [fst].
  2:{ split; [discriminate | intros (? & ? & _ & ? & _); discriminate]. }
  rewrite andb_true_r.
  destruct (Str.mem pc (Sql.rel_columns p)) eqn:Hpc; cbn [fst].
  2:{ split; [discriminate|]. intros (? & ? & _ & [= <-] & _ & ? & _). congruence. }
  rewrite left_join_counts_orphans. split.
  - intros [= <-]. by exists c, p.
  - intros (? & ? & [= <-] & [= <-] & _ & _ & ->). reflexivity.
Qed.

End OrphanCounts.

Section LoaderCheckCounts.

Import EnhancedDataLoader.

(** The loop of the loader's check, relationship by relationship up to
    the first query that raises. *)
Lemma loader_check_counts rels (db : Sql.store) res :
  let r := check_relationships rels db res in
  let got := answered db rels in
  violations_found r.1 = violations_found res + orphan_total db got /\
  details r.1
    = details res ++
      flat_map (fun rel => match orphans db rel with
                           | Some n => if 0 <? n then [detail_of rel n] else []
                           | None => []
                           end) got /\
  checks_performed r.1 = checks_performed res + Nat.min (length rels) (length got + 1) /\
  (got = rels -> error r.1 = error res) /\
  (got <> rels -> exists e, error r.1 = Some e).
Proof.
  revert res; induction rels as [|[[[ct cc] pt] pc] rels IH]; intros res;
    cbn [check_relationships answered].
  { cbn. rewrite app_nil_r. repeat split; try lia. done. }
  rewrite orphans_execute.
  destruct (orphans db (ct, cc, pt, pc)) as [n|] eqn:Ho.
  - match goal with |- context [check_relationships rels db ?s] => specialize (IH s) end.
    destruct (check_relationships rels db _) as [res2 db2]. cbv zeta in IH |- *.
    cbn [fst snd] in *. destruct IH as (-> & -> & -> & Heq & Hne).
    unfold orphan_total. cbn [map flat_map length]. rewrite Ho.
    change (sum_list (default 0 (Some n) :: ?l)) with (n + sum_list l).
    destruct (0 <? n) eqn:Hn; cbn [violations_found details checks_performed error] in *.
    + rewrite <- app_assoc. split; [lia|]. split; [done|]. split; [lia|].
      split; [intros [= H]; by apply Heq | intros H; apply Hne; congruence].
    + apply Nat.ltb_ge in Hn. split; [lia|]. split; [done|]. split; [lia|].
      split; [intros [= H]; by apply Heq | intros H; apply Hne; congruence].
  - unfold orphans in Ho.
    destruct (Sql.execute (Sql.SelectCountOrphans ct cc pt pc) db) as [[n|e] db'];
      cbn [fst] in *; [discriminate|].
    cbn. rewrite app_nil_r. split; [lia|]. split; [done|]. split; [lia|].
    split; [discriminate|]. intros _. by exists e.
Qed.

Lemma detail_total (db : Sql.store) rels :
  sum_list (map orphaned_records
              (flat_map (fun rel => match orphans db rel with
                                    | Some n => if 0 <? n then [detail_of rel n] else []
                                    | None => []
                                    end) rels))
  = orphan_total db rels.
Proof.
  unfold orphan_total. induction rels as [|[[[ct cc] pt] pc] rels IH]; [reflexivity|].
  cbn [flat_map map]. rewrite map_app, sum_list_with_app.
  change (sum_list (?x :: ?l)) with (x + sum_list l).
  fold (@sum_list) in *. unfold sum_list in *. rewrite IH.
  destruct (orphans db (ct, cc, pt, pc)) as [n|]; [|reflexivity].
  destruct (0 <? n) eqn:Hn; cbn; [lia|]. apply Nat.ltb_ge in Hn. lia.
Qed.

End LoaderCheckCounts.

Section ValidatorCounts.

Import ComprehensiveValidator.

(** A relationship is checkable exactly when its orphan query returns. *)
Lemma checkable_orphans (db : Sql.store) rel :
  checkable db rel = false <-> orphans db (key_of rel) = None.
Proof.
  unfold checkable, has_column, key_of, orphans, Sql.execute, Sql.lookup_relation.
  cbn [forallb].
  destruct (db !! child_table rel) as [c|]; cbn [fst andb]; [|done].
  rewrite andb_true_r.
  destruct (Str.mem (child_column rel) (Sql.rel_columns c)); cbn [fst andb]; [|done].
  destruct (db !! parent_table rel) as [p|]; cbn [fst]; [|done].
  rewrite andb_true_r.
  destruct (Str.mem (parent_column rel) (Sql.rel_columns p)); cbn [fst]; [|done].
  split; discriminate.
Qed.

(** One check of the validator in a transaction that has not failed:
    what it adds to the violations and to the counters, and the record
    it stores. *)
Lemma check_relationship_counts rel res (db : Sql.store) :
  let r := check_relationship rel (res, Sql.connection_on db) in
  r.2 = {| Sql.conn_store := db; Sql.in_failed_transaction := negb (checkable db rel) |} /\
  exists entry,
    relationship_details r.1 = <[name rel := entry]> (relationship_details res) /\
    passed_checks r.1 = passed_checks res + (if valid entry then 1 else 0) /\
    failed_checks r.1 = failed_checks res + (if valid entry then 0 else 1) /\
    violations r.1
      = violations res ++
        match orphans db (key_of rel) with
        | Some n => if 0 <? n then [(name rel, n)] else []
        | None => []
        end /\
    (forall n, orphans db (key_of rel) = Some n -> 0 < n ->
               valid entry = false /\ orphaned_records entry = n) /\
    (checkable db rel = false -> valid entry = false).
Proof.
  unfold check_relationship, checkable, has_column, key_of, orphans.
  rewrite run_live. unfold Sql.execute, Sql.lookup_relation. cbn [forallb fst snd].
  destruct (db !! child_table rel) as [c|] eqn:Hc; cbn [fst snd andb negb].
  2:{ split; [reflexivity|]. eexists. split; [reflexivity|]. cbn. rewrite app_nil_r.
      repeat split; done. }
  rewrite run_live. unfold Sql.execute, Sql.lookup_relation. cbn [forallb fst snd].
  rewrite Hc, ?andb_true_r.
  destruct (Str.mem (child_column rel) (Sql.rel_columns c)) eqn:Hcc; cbn [fst snd andb negb].
  2:{ split; [reflexivity|]. eexists. split; [reflexivity|]. cbn. rewrite app_nil_r.
      repeat split; done. }
  rewrite run_live. unfold Sql.execute, Sql.lookup_relation. cbn [forallb fst snd].
  rewrite Hc, ?andb_true_r, Hcc.
  destruct (db !! parent_table rel) as [p|] eqn:Hp; cbn [fst snd andb negb].
  2:{ split; [reflexivity|]. eexists. split; [reflexivity|]. cbn. rewrite app_nil_r.
      repeat split; done. }
  rewrite ?andb_true_r.
  destruct (Str.mem (parent_column rel) (Sql.rel_columns p)) eqn:Hpc; cbn [fst snd andb negb].
  2:{ split; [reflexivity|]. eexists. split; [reflexivity|]. cbn. rewrite app_nil_r.
      repeat split; done. }
  split; [reflexivity|]. eexists. split; [reflexivity|].
  cbn [passed_checks failed_checks violations valid orphaned_records].
  split; [reflexivity|]. split; [reflexivity|]. split; [reflexivity|].
  split; [|discriminate].
  intros n [= <-] Hn. apply Nat.ltb_lt in Hn. rewrite Hn.
  by rewrite andb_false_r.
Qed.

(** One check in a transaction that has failed. *)
Lemma check_relationship_counts_failed rel res conn :
  Sql.in_failed_transaction conn = true ->
  let r := check_relationship rel (res, conn) in
  r.2 = conn /\
  exists entry,
    relationship_details r.1 = <[name rel := entry]> (relationship_details res) /\
    passed_checks r.1 = passed_checks res /\
    failed_checks r.1 = failed_checks res + 1 /\
    violations r.1 = violations res /\
    unchecked entry.
Proof.
  intros H. cbv zeta. rewrite (check_relationship_failed rel res conn H).
  split; [reflexivity|]. eexists. split; [reflexivity|]. cbn.
  repeat split; reflexivity.
Qed.

Lemma valid_at_nowhere (m : gmap string RelResult) rels :
  (forall rel, rel ∈ rels -> valid_at m (name rel) = false) ->
  length (List.filter (fun rel => valid_at m (name rel)) rels) = 0 /\
  length (List.filter (fun rel => negb (valid_at m (name rel))) rels) = length rels.
Proof.
  induction rels as [|rel rels IH]; intros H; [done|].
  cbn [List.filter]. rewrite (H rel) by left. cbn [negb length].
  destruct IH as [-> ->]; [|done]. intros rel' Hin. apply H. by right.
Qed.

(** The loop of the validator in a transaction that has failed: every
    check fails at its first query. *)
Lemma check_loop_failed rels res conn :
  NoDup (name <$> rels) ->
  Sql.in_failed_transaction conn = true ->
  let r := fold_left (fun acc rel => check_relationship rel acc) rels (res, conn) in
  passed_checks r.1 = passed_checks res /\
  failed_checks r.1 = failed_checks res + length rels /\
  violations r.1 = violations res /\
  (forall rel, rel ∈ rels ->
     exists entry, relationship_details r.1 !! name rel = Some entry /\ unchecked entry).
Proof.
  revert res; induction rels as [|rel rels IH]; intros res Hnd Hconn.
  { cbn. repeat split; try lia. intros rel H. inversion H. }
  rewrite fmap_cons in Hnd. apply NoDup_cons in Hnd as [Hnot Hnd]. cbn [fold_left].
  destruct (check_relationship_counts_failed rel res conn Hconn)
    as (Hc & entry & Hd & Hp & Hf & Hv & Hun).
  destruct (check_relationship rel (res, conn)) as [res1 conn1].
  cbn [fst snd] in Hc, Hd, Hp, Hf, Hv. subst conn1.
  destruct (check_loop_spec rels res1 conn Hnd) as (_ & _ & _ & _ & _ & Hkeep & _).
  specialize (IH res1 Hnd Hconn). cbv zeta in IH |- *.
  destruct IH as (IHp & IHf & IHv & IHall).
  split; [congruence|]. split; [cbn [length]; lia|]. split; [congruence|].
  intros rel' [-> | Hin]%elem_of_cons; [|by apply IHall].
  exists entry. split; [|exact Hun].
  rewrite (Hkeep (name rel) Hnot), Hd. apply lookup_insert_eq.
Qed.

(** The loop of the validator on a fresh connection: the counters count
    the records by their [valid] flag, the violations are the
    relationships with orphans among those checked before a query
    fails, and from there on every check fails. *)
Lemma check_loop_counts rels res (db : Sql.store) :
  NoDup (name <$> rels) ->
  let r := fold_left (fun acc rel => check_relationship rel acc) rels
             (res, Sql.connection_on db) in
  let got := checked db rels in
  passed_checks r.1
    = passed_checks res
      + length (List.filter (fun rel => valid_at (relationship_details r.1) (name rel)) rels) /\
  failed_checks r.1
    = failed_checks res
      + length (List.filter (fun rel => negb (valid_at (relationship_details r.1) (name rel)))
                  rels) /\
  violations r.1
    = violations res ++
      flat_map (fun rel => match orphans db (key_of rel) with
                           | Some n => if 0 <? n then [(name rel, n)] else []
                           | None => []
                           end) got /\
  (forall rel n, rel ∈ got -> orphans db (key_of rel) = Some n -> 0 < n ->
     valid_at (relationship_details r.1) (name rel) = false /\
     exists entry, relationship_details r.1 !! name rel = Some entry /\
                   orphaned_records entry = n) /\
  (forall rel, rel ∈ rels -> rel ∉ got ->
     valid_at (relationship_details r.1) (name rel) = false) /\
  (forall rel, rel ∈ drop (S (length got)) rels ->
     exists entry, relationship_details r.1 !! name rel = Some entry /\ unchecked entry).
Proof.
  revert res; induction rels as [|rel rels IH]; intros res Hnd.
  { cbn. rewrite app_nil_r. repeat split; try lia;
      intros; match goal with H : _ ∈ [] |- _ => inversion H end. }
  rewrite fmap_cons in Hnd. apply NoDup_cons in Hnd as [Hnot Hnd]. cbn [fold_left checked].
  destruct (check_relationship_counts rel res db)
    as (Hc & entry & Hd & Hp & Hf & Hv & Ho & Hbad).
  destruct (check_relationship rel (res, Sql.connection_on db)) as [res1 conn1].
  cbn [fst snd] in Hc, Hd, Hp, Hf, Hv. subst conn1.
  destruct (checkable db rel) eqn:Hck; cbn [negb].
  - change {| Sql.conn_store := db; Sql.in_failed_transaction := false |}
      with (Sql.connection_on db).
    destruct (check_loop_spec rels res1 (Sql.connection_on db) Hnd)
      as (_ & _ & _ & _ & _ & Hkeep & _).
    specialize (IH res1 Hnd). cbv zeta in IH |- *.
    set (r := fold_left (fun acc rel0 => check_relationship rel0 acc) rels
                (res1, Sql.connection_on db)) in *.
    destruct IH as (IHp & IHf & IHv & IHo & IHbad & IHun).
    assert (relationship_details r.1 !! name rel = Some entry) as Hentry.
    { rewrite (Hkeep (name rel) Hnot), Hd. apply lookup_insert_eq. }
    assert (valid_at (relationship_details r.1) (name rel) = valid entry) as Hvalid.
    { unfold valid_at. by rewrite Hentry. }
    cbn [List.filter flat_map length drop].
    rewrite Hvalid, IHp, IHf, IHv, Hp, Hf, Hv, <- app_assoc.
    split; [destruct (valid entry); cbn; lia|].
    split; [destruct (valid entry); cbn; lia|].
    split; [reflexivity|]. split; [|split].
    + intros rel' n [-> | Hin]%elem_of_cons Horph Hn.
      * destruct (Ho n Horph Hn) as [Hfalse Hcount].
        rewrite Hvalid. split; [exact Hfalse|]. by exists entry.
      * by apply IHo.
    + intros rel' [-> | Hin]%elem_of_cons Hout.
      * exfalso. apply Hout. left.
      * apply IHbad; [exact Hin|]. intros H. apply Hout. by right.
    + exact IHun.
  - assert (Sql.in_failed_transaction
              {| Sql.conn_store := db; Sql.in_failed_transaction := true |} = true)
      as Hconn by reflexivity.
    destruct (check_loop_spec rels res1
                {| Sql.conn_store := db; Sql.in_failed_transaction := true |} Hnd)
      as (_ & _ & _ & _ & _ & Hkeep & _).
    destruct (check_loop_failed rels res1 _ Hnd Hconn) as (Lp & Lf & Lv & Lall).
    cbv zeta.
    set (r := fold_left (fun acc rel0 => check_relationship rel0 acc) rels
                (res1, {| Sql.conn_store := db; Sql.in_failed_transaction := true |})) in *.
    assert (relationship_details r.1 !! name rel = Some entry) as Hentry.
    { rewrite (Hkeep (name rel) Hnot), Hd. apply lookup_insert_eq. }
    assert (valid_at (relationship_details r.1) (name rel) = false) as Hvalid.
    { unfold valid_at. rewrite Hentry. by apply Hbad. }
    assert (forall rel', rel' ∈ rels ->
              valid_at (relationship_details r.1) (name rel') = false) as Hrest.
    { intros rel' Hin. destruct (Lall rel' Hin) as (e' & He' & _ & _ & _ & Hv' & _).
      unfold valid_at. by rewrite He'. }
    destruct (valid_at_nowhere (relationship_details r.1) rels Hrest) as [Hnone Hall].
    apply checkable_orphans in Hck.
    rewrite (Hbad eq_refl) in Hp, Hf. rewrite Hck, app_nil_r in Hv.
    cbn [List.filter flat_map length drop]. rewrite Hvalid. cbn [negb length].
    rewrite Hnone, Hall, Lp, Lf, Lv, Hp, Hf, Hv, app_nil_r.
    split; [lia|]. split; [lia|]. split; [reflexivity|]. split; [|split].
    + intros rel' n H. inversion H.
    + intros rel' [-> | Hin]%elem_of_cons _; [exact Hvalid | by apply Hrest].
    + exact Lall.
Qed.

End ValidatorCounts.

Section SimpleCheck.

Import SimpleEnhancedLoader.

(** Once the transaction has failed the loop finds nothing more. *)
Lemma simple_check_failed cs conn violations :
  Sql.in_failed_transaction conn = true ->
  check_loop cs conn violations = (violations, conn).
Proof.
  intros H. induction cs as [|[[[ct cc] pt] pc] cs IH]; cbn [check_loop]; [done|].
  by rewrite run_failed.
Qed.

(** The loop adds up the orphans of the relationships it gets through
    before a query fails. *)
Lemma simple_check_loop cs (db : Sql.store) violations :
  (check_loop cs (Sql.connection_on db) violations).1
    = violations + orphan_total db (answered db cs) /\
  Sql.conn_store (check_loop cs (Sql.connection_on db) violations).2 = db.
Proof.
  revert violations; induction cs as [|[[[ct cc] pt] pc] cs IH]; intros violations.
  { cbn. split; [lia | reflexivity]. }
  cbn [check_loop answered]. rewrite run_live.
  assert (orphans db (ct, cc, pt, pc)
          = match (Sql.execute (Sql.SelectCountOrphans ct cc pt pc) db).1 with
            | Returned n => Some n
            | Raised _ => None
            end) as Ho by reflexivity.
  destruct (Sql.execute (Sql.SelectCountOrphans ct cc pt pc) db).1 as [n|e]; rewrite Ho.
  - match goal with |- context [check_loop cs _ ?v] => destruct (IH v) as [H1 H2] end.
    rewrite H1, H2. split; [|reflexivity]. unfold orphan_total. cbn [map]. rewrite Ho.
    change (sum_list (default 0 (Some n) :: ?l)) with (n + sum_list l).
    destruct (0 <? n) eqn:Hn; [lia|]. apply Nat.ltb_ge in Hn. lia.
  - rewrite simple_check_failed by reflexivity. cbn. split; [lia | reflexivity].
Qed.

Lemma orphan_total_zero (db : Sql.store) rels :
  orphan_total db rels = 0 <->
  forall rel n, rel ∈ rels -> orphans db rel = Some n -> n = 0.
Proof.
  unfold orphan_total. induction rels as [|rel rels IH].
  - split; [intros _ rel n H; inversion H | reflexivity].
  - cbn [map]. change (sum_list (?x :: ?l)) with (x + sum_list l). split.
    + intros H rel' n [-> | Hin]%elem_of_cons Ho.
      * rewrite Ho in H. cbn in H. lia.
      * apply (proj1 IH) with rel'; [lia | done | done].
    + intros H. rewrite (proj2 IH) by (intros rel' n Hin; apply H; by right).
      destruct (orphans db rel) as [n|] eqn:Ho; [|reflexivity].
      rewrite (H rel n) by (done || left). reflexivity.
Qed.

(** The relationships a check gets through are all of them exactly
    when every query returns. *)
Lemma answered_all (db : Sql.store) rels :
  answered db rels = rels <-> forall rel, rel ∈ rels -> orphans db rel <> None.
Proof.
  induction rels as [|rel rels IH]; cbn [answered].
  - split; [intros _ rel H; inversion H | done].
  - destruct (orphans db rel) as [n|] eqn:Ho.
    + split.
      * intros [= H] rel' [-> | Hin]%elem_of_cons; [congruence | by apply IH].
      * intros H. f_equal. apply IH. intros rel' Hin. apply H. by right.
    + split; [discriminate|]. intros H. exfalso. apply (H rel); [left | exact Ho].
Qed.

End SimpleCheck.

Section CheckTheorems.

Lemma sum_over_relationships (f : string * string * string * string -> nat) :
  sum_list (map f EnhancedDataLoader.relationships)
    = sum_list (map f (map key_of ComprehensiveValidator.relationships)) /\
  sum_list (map f SimpleEnhancedLoader.checks)
    <= sum_list (map f EnhancedDataLoader.relationships).
Proof.
  unfold EnhancedDataLoader.relationships, ComprehensiveValidator.relationships,
    SimpleEnhancedLoader.checks, key_of.
  cbn [map ComprehensiveValidator.child_table ComprehensiveValidator.child_column
         ComprehensiveValidator.parent_table ComprehensiveValidator.parent_column].
  unfold sum_list. cbn [sum_list_with id]. split; lia.
Qed.

Lemma length_flat_map_sum {A B} (g : A -> list B) (l : list A) :
  length (flat_map g l) = sum_list (map (fun x => length (g x)) l).
Proof.
  induction l as [|a l IH]; [reflexivity|].
  cbn [flat_map map]. rewrite length_app, IH. reflexivity.
Qed.

Lemma violation_total (db : Sql.store) rels :
  sum_list (map snd
              (flat_map (fun rel => match orphans db (key_of rel) with
                                    | Some n => if 0 <? n
                                                then [(ComprehensiveValidator.name rel, n)]
                                                else []
                                    | None => []
                                    end) rels))
  = orphan_total db (map key_of rels).
Proof.
  unfold orphan_total. induction rels as [|rel rels IH]; [reflexivity|].
  cbn [flat_map map]. rewrite map_app, sum_list_with_app.
  change (sum_list (?x :: ?l)) with (x + sum_list l).
  unfold sum_list in *. rewrite IH.
  destruct (orphans db (key_of rel)) as [n|]; [|reflexivity].
  destruct (0 <? n) eqn:Hn; cbn; [lia|]. apply Nat.ltb_ge in Hn. lia.
Qed.

(** The check of the loader, from its first relationship on. *)
Lemma loader_check_reach (db : Sql.store) :
  let r := EnhancedDataLoader.validate_referential_integrity None db in
  let got := answered db EnhancedDataLoader.relationships in
  (EnhancedDataLoader.error r.1 = None -> got = EnhancedDataLoader.relationships) /\
  EnhancedDataLoader.violations_found r.1 = orphan_total db got /\
  EnhancedDataLoader.details r.1
    = flat_map (fun rel => match orphans db rel with
                           | Some n => if 0 <? n then [detail_of rel n] else []
                           | None => []
                           end) got.
Proof.
  unfold EnhancedDataLoader.validate_referential_integrity.
  destruct (loader_check_counts EnhancedDataLoader.relationships db
              EnhancedDataLoader.initial_integrity) as (Hv & Hd & _ & _ & Hne).
  cbv zeta.
  set (r := EnhancedDataLoader.check_relationships EnhancedDataLoader.relationships db
              EnhancedDataLoader.initial_integrity) in *.
  set (got := answered db EnhancedDataLoader.relationships) in *.
  change (EnhancedDataLoader.violations_found EnhancedDataLoader.initial_integrity)
    with 0 in Hv.
  change (EnhancedDataLoader.details EnhancedDataLoader.initial_integrity)
    with (@nil EnhancedDataLoader.IntegrityDetail) in Hd.
  rewrite Nat.add_0_l in Hv. rewrite app_nil_l in Hd.
  split; [|split; [exact Hv | exact Hd]].
  intros Hnone.
  destruct (decide (got = EnhancedDataLoader.relationships)) as [|Hx]; [done|].
  destruct (Hne Hx) as [e He]. congruence.
Qed.

(** The violations the validator lists. *)
Lemma validator_check_violations (db : Sql.store) :
  ComprehensiveValidator.violations
    (ComprehensiveValidator.validate_referential_integrity None db).1
  = flat_map (fun rel => match orphans db (key_of rel) with
                         | Some n => if 0 <? n
                                     then [(ComprehensiveValidator.name rel, n)]
                                     else []
                         | None => []
                         end) (checked db ComprehensiveValidator.relationships).
Proof.
  rewrite validate_referential_integrity_loop. cbn [fst].
  destruct (check_loop_counts ComprehensiveValidator.relationships
              ComprehensiveValidator.initial_results db validator_names_distinct)
    as (_ & _ & H & _). exact H.
Qed.

(** What the check of the simple loader answers. *)
Lemma simple_check_result (db : Sql.store) :
  (SimpleEnhancedLoader.validate_referential_integrity None db).1
    = (orphan_total db (answered db SimpleEnhancedLoader.checks) =? 0) /\
  (SimpleEnhancedLoader.validate_referential_integrity None db).2 = db.
Proof.
  unfold SimpleEnhancedLoader.validate_referential_integrity.
  destruct (simple_check_loop SimpleEnhancedLoader.checks db 0) as [H1 H2].
  destruct (SimpleEnhancedLoader.check_loop SimpleEnhancedLoader.checks
              (Sql.connection_on db) 0) as [violations conn].
  cbn [fst snd] in *. by subst.
Qed.

(** The relationships of the validator and of the simple loader are
    among those of the loader. *)
Lemma validator_keys_are_loader_keys :
  Forall (fun rel => key_of rel ∈ EnhancedDataLoader.relationships)
    ComprehensiveValidator.relationships.
Proof. compute_done. Qed.

Lemma simple_keys_are_loader_keys :
  Forall (fun rel => rel ∈ EnhancedDataLoader.relationships) SimpleEnhancedLoader.checks.
Proof. compute_done. Qed.

Lemma checked_all (db : Sql.store) rels :
  (forall rel, rel ∈ rels -> checkable db rel = true) -> checked db rels = rels.
Proof.
  induction rels as [|rel rels IH]; intros H; cbn [checked]; [done|].
  rewrite (H rel) by left. f_equal. apply IH. intros rel' Hin. apply H. by right.
Qed.

(** When the loader gets through its check, the validator and the
    simple loader get through theirs. *)
Lemma every_check_goes_through (db : Sql.store) :
  answered db EnhancedDataLoader.relationships = EnhancedDataLoader.relationships ->
  checked db ComprehensiveValidator.relationships = ComprehensiveValidator.relationships /\
  answered db SimpleEnhancedLoader.checks = SimpleEnhancedLoader.checks.
Proof.
  intros Hall. rewrite answered_all in Hall. split.
  - apply checked_all. intros rel Hrel.
    destruct (checkable db rel) eqn:Hck; [reflexivity|]. exfalso.
    apply checkable_orphans in Hck. revert Hck. apply Hall.
    pose proof validator_keys_are_loader_keys as Hkeys.
    rewrite Forall_forall in Hkeys. by apply Hkeys.
  - apply answered_all. intros rel Hrel. apply Hall.
    pose proof simple_keys_are_loader_keys as Hkeys.
    rewrite Forall_forall in Hkeys. by apply Hkeys.
Qed.

(** X10: The integrity check of the loader gives up at the first query that
    raises: the relationships before it are counted, the others are
    not looked at, and [error] is set.  The violations it reports are
    the orphans of the relationships it got through, which are those of
    the details it recorded. *)
Theorem loader_check_stops_at_the_first_failure (db : Sql.store) :
  let r := EnhancedDataLoader.validate_referential_integrity None db in
  let got := answered db EnhancedDataLoader.relationships in
  EnhancedDataLoader.checks_performed r.1
    = Nat.min (length EnhancedDataLoader.relationships) (length got + 1) /\
  (EnhancedDataLoader.error r.1 = None <-> got = EnhancedDataLoader.relationships) /\
  EnhancedDataLoader.violations_found r.1 = orphan_total db got /\
  EnhancedDataLoader.violations_found r.1
    = sum_list (map EnhancedDataLoader.orphaned_records (EnhancedDataLoader.details r.1)) /\
  (EnhancedDataLoader.violations_found r.1 = 0 <-> EnhancedDataLoader.details r.1 = []).
Proof.
  unfold EnhancedDataLoader.validate_referential_integrity.
  destruct (loader_check_counts EnhancedDataLoader.relationships db
              EnhancedDataLoader.initial_integrity) as (Hv & Hd & Hc & Heq & Hne).
  cbv zeta.
  set (r := EnhancedDataLoader.check_relationships EnhancedDataLoader.relationships db
              EnhancedDataLoader.initial_integrity) in *.
  set (got := answered db EnhancedDataLoader.relationships) in *.
  change (EnhancedDataLoader.violations_found EnhancedDataLoader.initial_integrity)
    with 0 in Hv.
  change (EnhancedDataLoader.checks_performed EnhancedDataLoader.initial_integrity)
    with 0 in Hc.
  change (EnhancedDataLoader.details EnhancedDataLoader.initial_integrity)
    with (@nil EnhancedDataLoader.IntegrityDetail) in Hd.
  change (EnhancedDataLoader.error EnhancedDataLoader.initial_integrity)
    with (@None exn) in Heq, Hne.
  rewrite Nat.add_0_l in Hv, Hc. rewrite app_nil_l in Hd.
  split; [exact Hc|]. split.
  { split; [|exact Heq]. intros Hnone.
    destruct (decide (got = EnhancedDataLoader.relationships)) as [|Hx]; [done|].
    destruct (Hne Hx) as [e He]. congruence. }
  split; [exact Hv|]. split; [by rewrite Hv, Hd, detail_total|].
  rewrite Hv, Hd, orphan_total_zero, flat_map_nil_iff. split.
  - intros H rel Hrel. destruct (orphans db rel) as [n|] eqn:Ho; [|reflexivity].
    by rewrite (H rel n Hrel Ho).
  - intros H rel n Hrel Ho. specialize (H rel Hrel). rewrite Ho in H.
    destruct n; [reflexivity | discriminate].
Qed.

(** X11: The counters of the validator count its records: a check is
    passed when its record is valid and failed when it is not, whether
    for orphans, for nulls or for a query that failed.  The violations
    are the relationships with orphans among those checked before a
    query fails on the connection, in the order of the checks, and each
    of them is a failed check.  From the first query that fails, every
    check is a failed check, and the record of every later relationship
    holds zeroes, whatever the store holds. *)
Theorem validator_counters_match_the_records (db : Sql.store) :
  let r := ComprehensiveValidator.validate_referential_integrity None db in
  let records := ComprehensiveValidator.relationship_details r.1 in
  let got := checked db ComprehensiveValidator.relationships in
  ComprehensiveValidator.passed_checks r.1
    = length (List.filter (fun rel => valid_at records (ComprehensiveValidator.name rel))
                ComprehensiveValidator.relationships) /\
  ComprehensiveValidator.failed_checks r.1
    = length (List.filter
                (fun rel => negb (valid_at records (ComprehensiveValidator.name rel)))
                ComprehensiveValidator.relationships) /\
  ComprehensiveValidator.violations r.1
    = flat_map (fun rel => match orphans db (key_of rel) with
                           | Some n => if 0 <? n
                                       then [(ComprehensiveValidator.name rel, n)]
                                       else []
                           | None => []
                           end) got /\
  (forall rel n,
     rel ∈ got -> orphans db (key_of rel) = Some n -> 0 < n ->
     valid_at records (ComprehensiveValidator.name rel) = false /\
     exists entry, records !! ComprehensiveValidator.name rel = Some entry /\
                   ComprehensiveValidator.orphaned_records entry = n) /\
  (forall rel,
     rel ∈ ComprehensiveValidator.relationships -> rel ∉ got ->
     valid_at records (ComprehensiveValidator.name rel) = false) /\
  (forall rel,
     rel ∈ drop (S (length got)) ComprehensiveValidator.relationships ->
     exists entry, records !! ComprehensiveValidator.name rel = Some entry /\
                   unchecked entry).
Proof.
  rewrite validate_referential_integrity_loop. cbn [fst].
  destruct (check_loop_counts ComprehensiveValidator.relationships
              ComprehensiveValidator.initial_results db validator_names_distinct)
    as (Hp & Hf & Hv & Ho & Hbad & Hun).
  cbv zeta. split; [exact Hp|]. split; [exact Hf|]. split; [exact Hv|].
  split; [exact Ho|]. split; [exact Hbad | exact Hun].
Qed.

(** On the store that holds the providers and the encounters alone the
    validator lists no violation, although five encounters name a
    provider that does not exist. *)
Example ghost_provider_store_violations :
  orphans ghost_provider_store (key_of encounters_provider) = Some 5 /\
  checked ghost_provider_store ComprehensiveValidator.relationships = [] /\
  ComprehensiveValidator.violations
    (ComprehensiveValidator.validate_referential_integrity None ghost_provider_store).1 = [].
Proof. vm_compute. repeat split. Qed.

(** X12: The integrity check of the simple loader passes over a query that
    fails, and with it over every query that follows on the
    connection: it answers [True] exactly when no relationship it got
    through before a query failed has an orphan, so a store without the
    relations of the first check passes, whatever the others hold.
    It never writes, and it answers [False] without a connection. *)
Theorem simple_check_passes_what_it_cannot_query (db : Sql.store) :
  let r := SimpleEnhancedLoader.validate_referential_integrity None db in
  let got := answered db SimpleEnhancedLoader.checks in
  r.2 = db /\
  (r.1 = true <-> forall rel n, rel ∈ got -> orphans db rel = Some n -> n = 0) /\
  (got = [] -> r.1 = true) /\
  forall e, SimpleEnhancedLoader.validate_referential_integrity (Some e) db = (false, db).
Proof.
  destruct (simple_check_result db) as [H1 H2]. cbv zeta. rewrite H1, H2.
  split; [reflexivity|].
  assert ((orphan_total db (answered db SimpleEnhancedLoader.checks) =? 0) = true <->
          forall rel n, rel ∈ answered db SimpleEnhancedLoader.checks ->
                        orphans db rel = Some n -> n = 0)
    as Hiff by (rewrite Nat.eqb_eq; apply orphan_total_zero).
  split; [exact Hiff|]. split; [|reflexivity].
  intros Hnone. apply Hiff. rewrite Hnone. intros rel n H. inversion H.
Qed.

(** The store that holds the providers and the encounters alone passes
    the check of the simple loader, although five encounters name a
    provider that does not exist. *)
Example ghost_provider_store_passes :
  orphans ghost_provider_store ("encounters", "provider_id", "providers", "id") = Some 5 /\
  (SimpleEnhancedLoader.validate_referential_integrity None ghost_provider_store).1 = true.
Proof. vm_compute. by split. Qed.

(** The ten relationships of the loader are those of the validator, and
    the eight of the simple loader are among them. *)
Lemma orphan_total_relationships (db : Sql.store) :
  orphan_total db EnhancedDataLoader.relationships
    = orphan_total db (map key_of ComprehensiveValidator.relationships) /\
  orphan_total db SimpleEnhancedLoader.checks
    <= orphan_total db EnhancedDataLoader.relationships.
Proof. apply (sum_over_relationships (fun rel => default 0 (orphans db rel))). Qed.

(** The check of the loader when no query raised. *)
Lemma loader_check_complete (db : Sql.store) :
  let l := EnhancedDataLoader.validate_referential_integrity None db in
  EnhancedDataLoader.error l.1 = None ->
  EnhancedDataLoader.violations_found l.1 = orphan_total db EnhancedDataLoader.relationships /\
  EnhancedDataLoader.details l.1
    = flat_map (fun rel => match orphans db rel with
                           | Some n => if 0 <? n then [detail_of rel n] else []
                           | None => []
                           end) EnhancedDataLoader.relationships.
Proof.
  destruct (loader_check_reach db) as (Herr & Hv & Hd).
  intros l Hnone. apply Herr in Hnone. rewrite Hnone in Hv, Hd. by split.
Qed.

(** X13: On a store that answers every query of the loader's check, the
    three checks agree: the loader reports as many violations as the
    validator lists, relationship by relationship, and a store the
    loader finds clean passes the check of the simple loader. *)
Theorem verifiers_agree_when_every_query_returns (db : Sql.store) :
  let l := EnhancedDataLoader.validate_referential_integrity None db in
  let v := ComprehensiveValidator.validate_referential_integrity None db in
  let s := SimpleEnhancedLoader.validate_referential_integrity None db in
  EnhancedDataLoader.error l.1 = None ->
  EnhancedDataLoader.violations_found l.1
    = sum_list (map snd (ComprehensiveValidator.violations v.1)) /\
  length (EnhancedDataLoader.details l.1) = length (ComprehensiveValidator.violations v.1) /\
  (EnhancedDataLoader.violations_found l.1 = 0 -> s.1 = true).
Proof.
  intros l v s Herr.
  destruct (loader_check_complete db Herr) as [Hl Hd]. fold l in Hl, Hd.
  destruct (loader_check_reach db) as (Hreach & _). specialize (Hreach Herr).
  destruct (every_check_goes_through db Hreach) as [Hchecked Hanswered].
  pose proof (validator_check_violations db) as Hv. fold v in Hv.
  rewrite Hchecked in Hv.
  destruct (orphan_total_relationships db) as [Hsame Hle].
  split; [|split].
  - by rewrite Hl, Hv, violation_total.
  - rewrite Hd, Hv, !length_flat_map_sum.
    destruct (sum_over_relationships
                (fun rel => length match orphans db rel with
                                   | Some n => if 0 <? n then [detail_of rel n] else []
                                   | None => []
                                   end)) as [-> _].
    rewrite map_map. f_equal. apply map_ext. intros rel.
    destruct (orphans db (key_of rel)) as [n|]; [|done]. by destruct (0 <? n).
  - intros Hzero. rewrite Hl in Hzero.
    destruct (simple_check_result db) as [Hs _]. fold s in Hs. rewrite Hs, Hanswered.
    apply Nat.eqb_eq. lia.
Qed.

Lemma verifiers_agree_when_every_query_returns_witness :
  let l := EnhancedDataLoader.validate_referential_integrity None one_orphan_store in
  let v := ComprehensiveValidator.validate_referential_integrity None one_orphan_store in
  EnhancedDataLoader.error l.1 = None /\
  EnhancedDataLoader.violations_found l.1
    = sum_list (map snd (ComprehensiveValidator.violations v.1)) /\
  EnhancedDataLoader.violations_found l.1 = 1.
Proof.
  intros l v.
  assert (EnhancedDataLoader.error l.1 = None) as Herr by (vm_compute; reflexivity).
  destruct (verifiers_agree_when_every_query_returns one_orphan_store Herr) as [Hsum _].
  split; [exact Herr|]. split; [exact Hsum|]. vm_compute. reflexivity.
Defined.

End CheckTheorems.

(** ** The simple loader: batches and the outcome of a run *)

Section SimpleLoad.

Import SimpleEnhancedLoader.

(** The batches of a frame, whatever their size: they are not empty,
    and end to end they are the frame. *)
Lemma batch_slices n df :
  n <> 0 ->
  let batches := seq 0 ((len df + n - 1) / n) in
  concat (map (fun i => rows (simple_batch_of df n i)) batches) = rows df /\
  forall i, i ∈ batches -> 0 < len (simple_batch_of df n i) <= n.
Proof.
  intros Hn batches.
  set (cfg := EnhancedDataLoader.mkConfig n 0 0).
  assert (forall i, simple_batch_of df n i = batch_of cfg df i) as Hsame.
  { intros i. by rewrite simple_batch_of_slice, batch_of_slice. }
  split.
  - rewrite (map_ext _ (fun i => rows (batch_of cfg df i))) by (intros i; by rewrite Hsame).
    exact (batch_rows_concat cfg df Hn).
  - intros i Hi%list_elem_of_In%in_seq. rewrite Hsame.
    apply (batch_of_size cfg df i Hn). unfold EnhancedDataLoader.total_batches. cbn. lia.
Qed.

Lemma load_with_batch_processing_spec env table_name df n st :
  n <> 0 ->
  let r := load_with_batch_processing env table_name df n st in
  let batches := seq 0 ((len df + n - 1) / n) in
  r.1.1 = sum_list (map (fun i => if accepted (to_sql env (i + 1))
                                  then len (simple_batch_of df n i) else 0) batches) /\
  errors r.1.2 = errors st ++ rejected_batches env table_name df n /\
  r.2 = map (fun i => Write table_name (i + 1) 0 (rows (simple_batch_of df n i))
                        (accepted (to_sql env (i + 1)))) batches.
Proof.
  intros Hn. unfold load_with_batch_processing, rejected_batches.
  destruct (len df =? 0) eqn:Hl.
  - apply Nat.eqb_eq in Hl. rewrite Hl. cbn [Nat.add].
    rewrite (Nat.div_small (n - 1) n) by lia. cbn. by rewrite app_nil_r.
  - destruct (simple_batch_loop_spec env table_name df n
                (seq 0 ((len df + n - 1) / n)) 0 st) as (H1 & H2 & H3).
    cbv zeta. rewrite H1, H2, H3. done.
Qed.

(** X14: [load_with_batch_processing] shows every row of the frame to the
    store once, in batches of one to [batch_size] rows with a single
    attempt each; the rows it reports as loaded are those of the
    batches the store accepted, each rejected batch leaves one error,
    and everything is loaded exactly when no error was added. *)
Theorem simple_load_accounts_for_every_row
    (env : TableEnv) (table_name : string) (df : DataFrame) (batch_size : nat) (st : Stats) :
  batch_size <> 0 ->
  let r := load_with_batch_processing env table_name df batch_size st in
  offered_rows r.2 = rows df /\
  sublist (written_rows r.2) (rows df) /\
  r.1.1 = length (written_rows r.2) /\
  write_attempts r.2 = (len df + batch_size - 1) / batch_size /\
  errors r.1.2 = errors st ++ rejected_batches env table_name df batch_size /\
  length (rejected_batches env table_name df batch_size) + length (List.filter
      (fun i => accepted (to_sql env (i + 1)))
      (seq 0 ((len df + batch_size - 1) / batch_size)))
    = (len df + batch_size - 1) / batch_size /\
  (r.1.1 = len df <-> errors r.1.2 = errors st).
Proof.
  intros Hn.
  destruct (load_with_batch_processing_spec env table_name df batch_size st Hn)
    as (Hloaded & Herr & Htr).
  destruct (batch_slices batch_size df Hn) as [Hcat Hsize].
  cbv zeta in *.
  set (batches := seq 0 ((len df + batch_size - 1) / batch_size)) in *.
  rewrite Hloaded, Herr, Htr. clear Hloaded Herr Htr.
  unfold rejected_batches. fold batches.
  assert (length batches = (len df + batch_size - 1) / batch_size) as Hlen
    by (unfold batches; apply length_seq).
  clearbody batches.
  assert (offered_rows
            (map (fun i => Write table_name (i + 1) 0 (rows (simple_batch_of df batch_size i))
                             (accepted (to_sql env (i + 1)))) batches)
          = concat (map (fun i => rows (simple_batch_of df batch_size i)) batches)) as Hoff.
  { clear. induction batches as [|i l IH]; [reflexivity|].
    cbn [map concat]. rewrite <- IH. reflexivity. }
  assert (written_rows
            (map (fun i => Write table_name (i + 1) 0 (rows (simple_batch_of df batch_size i))
                             (accepted (to_sql env (i + 1)))) batches)
          = concat (map (fun i => if accepted (to_sql env (i + 1))
                                  then rows (simple_batch_of df batch_size i) else [])
                      batches)) as Hwr.
  { clear. induction batches as [|i l IH]; [reflexivity|].
    cbn [map concat]. rewrite <- IH. unfold written_rows at 1. cbn [flat_map].
    by destruct (accepted (to_sql env (i + 1))). }
  rewrite Hoff, Hwr, Hcat.
  split; [reflexivity|].
  split; [rewrite <- Hcat; apply sublist_concat_if|].
  split.
  { clear. induction batches as [|i l IH]; [reflexivity|].
    cbn [map concat]. rewrite length_app, <- IH. cbn.
    by destruct (accepted (to_sql env (i + 1))). }
  split.
  { rewrite <- Hlen. clear. unfold write_attempts.
    induction batches as [|i l IH]; [reflexivity|].
    cbn [map List.filter is_write length]. f_equal. exact IH. }
  split; [reflexivity|].
  split.
  { rewrite <- Hlen. clear. induction batches as [|i l IH]; [reflexivity|].
    cbn [flat_map List.filter length]. rewrite length_app. unfold accepted at 1.
    destruct (to_sql env (i + 1)); cbn [length]; lia. }
  assert (len df = sum_list (map (fun i => len (simple_batch_of df batch_size i)) batches))
    as Htotal.
  { unfold len at 1. rewrite <- Hcat. clear.
    induction batches as [|i l IH]; [reflexivity|].
    cbn [map concat]. rewrite length_app, IH. reflexivity. }
  rewrite Htotal. clear Htotal Hcat Hoff Hwr Hlen.
  induction batches as [|i l IH].
  { cbn. by rewrite app_nil_r. }
  assert (0 < len (simple_batch_of df batch_size i)) as Hpos by (apply Hsize; left).
  assert (forall l : list nat,
            sum_list (map (fun i => if accepted (to_sql env (i + 1))
                                    then len (simple_batch_of df batch_size i) else 0) l)
            <= sum_list (map (fun i => len (simple_batch_of df batch_size i)) l)) as Hle.
  { clear. intros l. induction l as [|j l IH]; [reflexivity|].
    cbn [map]. change (sum_list (?x :: ?y)) with (x + sum_list y).
    destruct (accepted (to_sql env (j + 1))); lia. }
  specialize (IH (fun j Hj => Hsize j (list_elem_of_further _ _ _ Hj))).
  specialize (Hle l).
  cbn [map flat_map]. change (sum_list (?x :: ?y)) with (x + sum_list y).
  unfold accepted at 1. destruct (to_sql env (i + 1)) as [e|].
  - split; [lia|]. intros H. apply (f_equal length) in H.
    rewrite !length_app in H. cbn in H. lia.
  - cbn [app]. split.
    + intros H. apply IH. lia.
    + intros H. apply IH in H. lia.
Qed.

Lemma simple_load_accounts_for_every_row_witness :
  let env := patients_locked "organizations" in
  let r := load_with_batch_processing env "organizations" organizations_extract 1000
             initial_stats in
  1000 <> 0 /\ offered_rows r.2 = rows organizations_extract /\ r.1.1 = 1.
Proof.
  intros env r.
  assert (1000 <> 0) as Hn by lia.
  destruct (simple_load_accounts_for_every_row env "organizations" organizations_extract
              1000 initial_stats Hn) as (Hoff & _ & Hloaded & _).
  split; [exact Hn|]. split; [exact Hoff|]. etrans; [exact Hloaded|]. reflexivity.
Defined.

End SimpleLoad.

Section SimpleRun.

Import SimpleEnhancedLoader.

Lemma import_table_spec (env : TableEnv) table_name st :
  import_table env table_name st =
  match prepared env with
  | Raised e => (Some 0, add_error (ImportError table_name e) st, [])
  | Returned df =>
      match truncate env with
      | Some _ => (None, st, [Truncate table_name false])
      | None =>
          let r := load_with_batch_processing env table_name df 1000 st in
          (Some r.1.1, r.1.2, Truncate table_name true :: r.2)
      end
  end.
Proof.
  unfold import_table, truncate_table.
  destruct (prepared env) as [df|e]; [|reflexivity].
  destruct (truncate env) as [e|]; [reflexivity|].
  by destruct (load_with_batch_processing env table_name df 1000 st) as [[n st'] tr].
Qed.

Lemma import_breaks_spec (env : TableEnv) :
  import_breaks env = true <->
  exists df e, prepared env = Returned df /\ truncate env = Some e.
Proof.
  unfold import_breaks. destruct (prepared env) as [df|e0].
  - destruct (truncate env) as [e|].
    + split; [intros _; by exists df, e | done].
    + split; [discriminate | intros (? & ? & _ & ?); discriminate].
  - split; [discriminate | intros (? & ? & ? & _); discriminate].
Qed.

Lemma import_errors_nil (env : TableEnv) table_name :
  import_errors env table_name = [] <->
  exists df, prepared env = Returned df /\
             forall i, i < (len df + 1000 - 1) / 1000 -> to_sql env (i + 1) = None.
Proof.
  unfold import_errors, rejected_batches. destruct (prepared env) as [df|e].
  2:{ split; [discriminate | intros (? & ? & _); discriminate]. }
  rewrite flat_map_nil_iff. split.
  - intros H. exists df. split; [reflexivity|]. intros i Hi.
    specialize (H i). destruct (to_sql env (i + 1)); [|reflexivity].
    discriminate H. apply list_elem_of_In, in_seq. lia.
  - intros (? & [= <-] & H) i Hi%list_elem_of_In%in_seq. rewrite H by lia. reflexivity.
Qed.

(** The loop over the imports: it raises at the first import whose
    truncate fails, and otherwise gathers the errors of all of them. *)
Lemma load_loop_outcome envs fns st :
  match (load_loop envs fns st).1 with
  | Raised _ => exists t, t ∈ fns /\ import_breaks (envs t) = true
  | Returned st' =>
      (forall t, t ∈ fns -> import_breaks (envs t) = false) /\
      errors st' = errors st ++ flat_map (fun t => import_errors (envs t) t) fns
  end.
Proof.
  revert st; induction fns as [|t fns IH]; intros st.
  { cbn. rewrite app_nil_r. split; [|reflexivity]. intros t Ht. inversion Ht. }
  cbn [load_loop flat_map]. rewrite import_table_spec.
  unfold import_errors at 1. unfold import_breaks in IH |- *.
  destruct (prepared (envs t)) as [df|e] eqn:Hp.
  - destruct (truncate (envs t)) as [e|] eqn:Ht.
    + cbn. exists t. split; [left|]. by rewrite Hp, Ht.
    + destruct (load_with_batch_processing_spec (envs t) t df 1000 st) as (_ & Herr & _);
        [lia|].
      destruct (load_with_batch_processing (envs t) t df 1000 st) as [[n st1] tr1].
      cbn [fst snd] in Herr |- *.
      match goal with |- context [load_loop envs fns ?s] => specialize (IH s) end.
      destruct (load_loop envs fns _) as [[st'|e'] tr]; cbn [fst] in *.
      * destruct IH as [Hno Herrs]. split.
        -- intros t' [-> | Hin]%elem_of_cons; [by rewrite Hp, Ht | by apply Hno].
        -- rewrite Herrs, app_assoc. f_equal. rewrite <- Herr. by destruct (0 <? n).
      * destruct IH as (t' & Hin & Hb). exists t'. split; [by right | exact Hb].
  - cbn [Nat.ltb Nat.leb].
    match goal with |- context [load_loop envs fns ?s] => specialize (IH s) end.
    destruct (load_loop envs fns _) as [[st'|e'] tr]; cbn [fst] in *.
    + destruct IH as [Hno Herrs]. split.
      * intros t' [-> | Hin]%elem_of_cons; [by rewrite Hp | by apply Hno].
      * rewrite Herrs. cbn [errors add_error]. by rewrite <- app_assoc.
    + destruct IH as (t' & Hin & Hb). exists t'. split; [by right | exact Hb].
Qed.

(** X15: A run of the simple loader raises exactly when some import has its
    frame ready and cannot truncate its table; it answers [True]
    exactly when every import reads and prepares its frame, truncates
    its table and has every batch accepted. *)
Theorem simple_run_outcome (envs : string -> TableEnv) :
  let r := (load_all_data envs).1 in
  ((exists e, r = Raised e) <->
     exists t df e, t ∈ loading_functions /\
                    prepared (envs t) = Returned df /\ truncate (envs t) = Some e) /\
  (r = Returned true <->
     forall t, t ∈ loading_functions ->
       exists df, prepared (envs t) = Returned df /\ truncate (envs t) = None /\
                  forall i, i < (len df + 1000 - 1) / 1000 -> to_sql (envs t) (i + 1) = None).
Proof.
  unfold load_all_data. generalize loading_functions. intros fns.
  pose proof (load_loop_outcome envs fns initial_stats) as H.
  destruct (load_loop envs fns initial_stats) as [[st'|e'] tr];
    cbn [fst] in H |- *.
  - destruct H as [Hno Herr]. cbn [errors initial_stats app] in Herr. split.
    + split; [intros [e He]; discriminate|].
      intros (t & df & e & Hin & Hp & Ht).
      assert (import_breaks (envs t) = true) as Hb by (apply import_breaks_spec; eauto).
      rewrite (Hno t Hin) in Hb. discriminate.
    + rewrite Herr. split.
      * intros [= Hlen]. apply Nat.eqb_eq, length_zero_iff_nil in Hlen.
        intros t Hin.
        destruct (proj1 (import_errors_nil (envs t) t)) as (df & Hp & Hall).
        { by apply (proj1 (flat_map_nil_iff _ _) Hlen). }
        exists df. split; [exact Hp|]. split; [|exact Hall].
        specialize (Hno t Hin). unfold import_breaks in Hno. rewrite Hp in Hno.
        by destruct (truncate (envs t)).
      * intros Hall. f_equal. apply Nat.eqb_eq, length_zero_iff_nil, flat_map_nil_iff.
        intros t Hin. destruct (Hall t Hin) as (df & Hp & _ & Hacc).
        apply import_errors_nil. eauto.
  - destruct H as (t & Hin & Hb). apply import_breaks_spec in Hb as (df & e & Hp & Ht).
    split.
    + split; [intros _; by exists t, df, e | intros _; by exists e'].
    + split; [discriminate|]. intros Hall. destruct (Hall t Hin) as (df' & _ & Ht' & _).
      congruence.
Qed.

End SimpleRun.

(** ** The imports of the simple loader *)

Section ImportFacts.

Import SimpleEnhancedLoader.

Lemma convert_in_place_shape f col df df' :
  convert_in_place f col df = Returned df' ->
  columns df' = columns df /\ len df' = len df /\ Str.mem col (columns df) = true.
Proof.
  unfold convert_in_place.
  destruct (List.filter (String.eqb col) (columns df)) as [|c [|c' l]] eqn:Hf; try discriminate.
  intros [= <-]. split; [reflexivity|]. split; [apply len_assign_col|].
  unfold Str.mem. apply existsb_exists. exists c.
  assert (In c (List.filter (String.eqb col) (columns df))) as Hin by (rewrite Hf; by left).
  by apply filter_In in Hin.
Qed.

Lemma convert_if_present_shape f col df df' :
  convert_if_present f col df = Returned df' ->
  columns df' = columns df /\ len df' = len df.
Proof.
  unfold convert_if_present. destruct (Str.mem col (columns df)).
  - intros H. apply convert_in_place_shape in H as (? & ? & _). by split.
  - by intros [= <-].
Qed.

Lemma convert_each_shape step cols df df' :
  (forall col d d', step col d = Returned d' -> columns d' = columns d /\ len d' = len d) ->
  convert_each step cols df = Returned df' ->
  columns df' = columns df /\ len df' = len df.
Proof.
  intros Hstep. revert df; induction cols as [|col cols IH]; intros df; cbn [convert_each].
  { by intros [= <-]. }
  destruct (step col df) as [d|e] eqn:Hs; [|discriminate].
  intros H. apply IH in H as [-> ->]. by apply (Hstep col).
Qed.

(** An unguarded conversion raises when its label is missing. *)
Lemma convert_each_missing f cols df col :
  col ∈ cols -> Str.mem col (columns df) = false ->
  exists e, convert_each (convert_in_place f) cols df = Raised e.
Proof.
  revert df; induction cols as [|c cols IH]; intros df Hin Hmem; [inversion Hin|].
  cbn [convert_each].
  destruct (convert_in_place f c df) as [d|e] eqn:Hs; [|by exists e].
  apply convert_in_place_shape in Hs as (Hcols & _ & Hc).
  apply elem_of_cons in Hin as [-> | Hin]; [congruence|].
  apply IH; [exact Hin | by rewrite Hcols].
Qed.

Lemma get_col_cells name cols (r : list cell) c :
  c ∈ get_col name cols r -> c ∈ r.
Proof.
  revert r; induction cols as [|c0 cols IH]; intros [|x r]; cbn [get_col];
    try (intros H; inversion H; fail).
  destruct (String.eqb c0 name).
  - intros [-> | H]%elem_of_cons; [left | right; by apply IH].
  - intros H. right. by apply IH.
Qed.

(** [select_columns]: the rows stay, the labels are among the names
    asked for, and the cells are cells of the row they come from. *)
Lemma select_columns_spec names df :
  len (select_columns names df) = len df /\
  (forall c, c ∈ columns (select_columns names df) -> c ∈ names /\ c ∈ columns df) /\
  (forall r, r ∈ rows (select_columns names df) ->
     exists r0, r0 ∈ rows df /\ forall c, c ∈ r -> c ∈ r0).
Proof.
  unfold select_columns, len. cbn [columns rows]. split; [apply length_map|]. split.
  - intros c Hc%list_elem_of_In%in_flat_map. destruct Hc as (n & Hn & Hc).
    apply filter_In in Hn as [Hn _]. apply filter_In in Hc as [Hc Heq].
    apply String.eqb_eq in Heq as ->. split; by apply list_elem_of_In.
  - intros r (r0 & -> & Hr0)%list_elem_of_fmap. exists r0. split; [exact Hr0|].
    intros c Hc%list_elem_of_In%in_flat_map. destruct Hc as (n & _ & Hc).
    by apply list_elem_of_In, get_col_cells in Hc.
Qed.

Lemma normalize_nulls_no_inf df r c b :
  r ∈ rows (normalize_nulls df) -> c ∈ r -> c <> CInf b.
Proof.
  unfold normalize_nulls. cbn [rows].
  intros (r0 & -> & _)%list_elem_of_fmap (c0 & -> & _)%list_elem_of_fmap.
  by destruct c0.
Qed.

(** The frame an import hands to the store. *)
Lemma prepare_import_spec pd spec df df' :
  prepare_import pd spec df = Returned df' ->
  len df' = len df /\
  (forall c, c ∈ columns df' ->
     c ∈ map snd (column_mapping spec (map Str.upper (columns df)))) /\
  (forall r c b, r ∈ rows df' -> c ∈ r -> c <> CInf b) /\
  (forall col, col ∈ timestamp_columns spec ->
     Str.mem col
       (columns (rename_upper (list_to_map (column_mapping spec (map Str.upper (columns df))))
                   df)) = true).
Proof.
  unfold prepare_import.
  set (mapping := column_mapping spec (map Str.upper (columns df))).
  set (df0 := rename_upper (list_to_map mapping) df).
  destruct (convert_each (convert_in_place (to_datetime pd)) (timestamp_columns spec) df0)
    as [df1|e] eqn:H1; [|discriminate].
  destruct (convert_each (convert_if_present (to_datetime pd)) (date_columns spec) df1)
    as [df2|e] eqn:H2; [|discriminate].
  destruct (convert_each (convert_if_present (to_numeric pd)) (numeric_columns spec) df2)
    as [df3|e] eqn:H3; [|discriminate].
  intros [= <-].
  assert (forall col, col ∈ timestamp_columns spec -> Str.mem col (columns df0) = true) as Hts.
  { intros col Hcol. destruct (Str.mem col (columns df0)) eqn:Hm; [reflexivity|].
    destruct (convert_each_missing (to_datetime pd) _ df0 col Hcol Hm) as [e He]. congruence. }
  apply convert_each_shape in H1 as [_ L1];
    [|intros col d d' H; apply convert_in_place_shape in H as (? & ? & _); by split].
  apply convert_each_shape in H2 as [_ L2]; [|apply convert_if_present_shape].
  apply convert_each_shape in H3 as [_ L3]; [|apply convert_if_present_shape].
  destruct (select_columns_spec (map snd mapping) (validate_and_clean_data df3))
    as (Hlen & Hcols & Hrows).
  split.
  { rewrite Hlen. unfold validate_and_clean_data, normalize_nulls, len. cbn [rows].
    rewrite length_map. unfold len in *. rewrite L3, L2, L1. reflexivity. }
  split; [intros c Hc; by apply Hcols|]. split; [|exact Hts].
  intros r c b Hr Hc. destruct (Hrows r Hr) as (r0 & Hr0 & Hsub).
  apply (normalize_nulls_no_inf df3 r0); [exact Hr0 | by apply Hsub].
Qed.

Lemma upper_ascii_idempotent a : Str.upper_ascii (Str.upper_ascii a) = Str.upper_ascii a.
Proof. destruct a as [[] [] [] [] [] [] [] []]; reflexivity. Qed.

Lemma upper_idempotent s : Str.upper (Str.upper s) = Str.upper s.
Proof.
  induction s as [|a s IH]; [reflexivity|].
  cbn [Str.upper]. by rewrite upper_ascii_idempotent, IH.
Qed.

Lemma nodup_snd_functional {A B} (l : list (A * B)) x1 x2 y :
  NoDup l.*2 -> (x1, y) ∈ l -> (x2, y) ∈ l -> x1 = x2.
Proof.
  induction l as [|[a b] l IH]; intros Hnd H1 H2; [inversion H1|].
  apply NoDup_cons in Hnd as [Hnot Hnd]. cbn in Hnot.
  apply elem_of_cons in H1 as [E1 | H1]; apply elem_of_cons in H2 as [E2 | H2];
    simplify_eq.
  - reflexivity.
  - exfalso. apply Hnot. apply list_elem_of_fmap. by exists (x2, b).
  - exfalso. apply Hnot. apply list_elem_of_fmap. by exists (x1, b).
  - by apply IH.
Qed.

(** Where a label of a renamed frame comes from. *)
Lemma renamed_label (mapping : list (string * string)) df col :
  Str.mem col (columns (rename_upper (list_to_map mapping) df)) = true ->
  (exists key, (key, col) ∈ mapping /\ key ∈ map Str.upper (columns df)) \/
  col ∈ map Str.upper (columns df).
Proof.
  unfold Str.mem, rename_upper. cbn [columns]. intros H.
  apply existsb_exists in H as (c' & Hin & Heq). apply String.eqb_eq in Heq as <-.
  apply in_map_iff in Hin as (c & <- & Hc).
  destruct (list_to_map (M := gmap string string) mapping !! Str.upper c) as [v|] eqn:Hm;
    cbn [default].
  - left. exists (Str.upper c). split; [by apply elem_of_list_to_map_2 in Hm|].
    apply list_elem_of_In, in_map. exact Hc.
  - right. apply list_elem_of_In, in_map. exact Hc.
Qed.

(** A timestamp column whose label the file lacks makes the
    preparation raise. *)
Lemma prepare_import_missing pd spec df col key :
  let mapping := column_mapping spec (map Str.upper (columns df)) in
  NoDup mapping.*2 -> Str.upper col <> col ->
  col ∈ timestamp_columns spec -> (key, col) ∈ mapping ->
  key ∉ map Str.upper (columns df) ->
  exists e, prepare_import pd spec df = Raised e.
Proof.
  intros mapping Hnd Hup Hcol Hkey Hmiss. unfold prepare_import. fold mapping.
  destruct (Str.mem col (columns (rename_upper (list_to_map mapping) df))) eqn:Hm.
  { exfalso. apply renamed_label in Hm as [(key' & Hk' & Hin) | Hin].
    - rewrite (nodup_snd_functional mapping key' key col Hnd Hk' Hkey) in Hin. by apply Hmiss.
    - apply list_elem_of_In, in_map_iff in Hin as (c & Hc & _).
      apply Hup. rewrite <- Hc. apply upper_idempotent. }
  destruct (convert_each_missing (to_datetime pd) (timestamp_columns spec) _ col Hcol Hm)
    as [e ->].
  by exists e.
Qed.

Lemma Forall_fmap_sublist {A B} (P : B -> Prop) (f : A -> B) (full l : list A) :
  sublist l full -> Forall P (f <$> full) -> Forall P (f <$> l).
Proof.
  intros Hsub Hall. rewrite Forall_forall in Hall |- *. intros x Hx.
  apply Hall. apply list_elem_of_fmap in Hx as (a & -> & Ha).
  apply list_elem_of_fmap. exists a. split; [reflexivity|].
  eapply elem_of_submseteq; [exact Ha | by apply sublist_submseteq].
Qed.

Lemma import_spec_cases table_name spec :
  import_spec table_name = Some spec ->
  (table_name, spec) ∈
    [ ("organizations", organizations_spec); ("payers", payers_spec);
      ("patients", patients_spec); ("providers", providers_spec);
      ("encounters", encounters_spec); ("conditions", conditions_spec);
      ("medications", medications_spec) ].
Proof. unfold import_spec. apply elem_of_list_to_map_2. Qed.

Lemma filter_eqb_singleton (l : list string) col :
  NoDup l -> Str.mem col l = true -> List.filter (String.eqb col) l = [col].
Proof.
  unfold Str.mem. induction l as [|c l IH]; intros Hnd Hm; [discriminate|].
  apply NoDup_cons in Hnd as [Hnot Hnd]. cbn [existsb List.filter] in *.
  destruct (String.eqb col c) eqn:Heq.
  - apply String.eqb_eq in Heq as <-. f_equal.
    clear -Hnot. induction l as [|c l IH]; [reflexivity|].
    apply not_elem_of_cons in Hnot as [Hne Hnot]. cbn [List.filter].
    destruct (String.eqb col c) eqn:Heq; [apply String.eqb_eq in Heq; done | by apply IH].
  - by apply IH.
Qed.

Lemma convert_in_place_returns f col df :
  NoDup (columns df) -> Str.mem col (columns df) = true ->
  convert_in_place f col df = Returned (assign_col col f df).
Proof.
  intros Hnd Hm. unfold convert_in_place. by rewrite (filter_eqb_singleton _ _ Hnd Hm).
Qed.

(** On a frame whose labels are all different, the conversions raise
    only for want of a label they do not look for. *)
Lemma convert_each_in_place_returns f cols df :
  NoDup (columns df) ->
  (forall col, col ∈ cols -> Str.mem col (columns df) = true) ->
  exists df', convert_each (convert_in_place f) cols df = Returned df' /\
              columns df' = columns df.
Proof.
  revert df; induction cols as [|col cols IH]; intros df Hnd Hall; cbn [convert_each].
  { by exists df. }
  rewrite (convert_in_place_returns f col df Hnd) by (apply Hall; left).
  destruct (IH (assign_col col f df)) as (df' & -> & Hc); [exact Hnd | |by exists df'].
  intros c Hc. apply Hall. by right.
Qed.

Lemma convert_each_if_present_returns f cols df :
  NoDup (columns df) ->
  exists df', convert_each (convert_if_present f) cols df = Returned df' /\
              columns df' = columns df.
Proof.
  revert df; induction cols as [|col cols IH]; intros df Hnd; cbn [convert_each].
  { by exists df. }
  assert (exists d, convert_if_present f col df = Returned d /\ columns d = columns df)
    as (d & -> & Hd).
  { unfold convert_if_present. destruct (Str.mem col (columns df)) eqn:Hm.
    - rewrite (convert_in_place_returns f col df Hnd Hm). by eexists.
    - by eexists. }
  destruct (IH d) as (df' & -> & Hc); [by rewrite Hd|].
  exists df'. split; [reflexivity | congruence].
Qed.

(** Renaming keeps the labels apart when the mapping has one label per
    key and none of its labels is in upper case. *)
Lemma renamed_labels_distinct (mapping : list (string * string)) df :
  NoDup mapping.*2 ->
  Forall (fun v => Str.upper v <> v) mapping.*2 ->
  NoDup (map Str.upper (columns df)) ->
  NoDup (columns (rename_upper (list_to_map mapping) df)).
Proof.
  intros Hnd Hlow Hup. unfold rename_upper. cbn [columns].
  rewrite <- (map_map Str.upper
                (fun u => default u (list_to_map (M := gmap string string) mapping !! u))).
  apply (NoDup_fmap_2_strong _ _); [|exact Hup].
  assert (forall u v c, list_to_map (M := gmap string string) mapping !! u = Some v ->
                        v <> Str.upper c) as Hmixed.
  { intros u v c Hm Heq. apply elem_of_list_to_map_2 in Hm.
    rewrite Forall_forall in Hlow. apply (Hlow v).
    - apply list_elem_of_fmap. by exists (u, v).
    - rewrite Heq. apply upper_idempotent. }
  intros x y Hx Hy.
  apply list_elem_of_In, in_map_iff in Hx as (cx & <- & _).
  apply list_elem_of_In, in_map_iff in Hy as (cy & <- & _).
  intros Heq. cbn beta in Heq.
  destruct (list_to_map (M := gmap string string) mapping !! Str.upper cx) as [vx|] eqn:Hmx;
    destruct (list_to_map (M := gmap string string) mapping !! Str.upper cy) as [vy|] eqn:Hmy;
    cbn [default from_option id] in Heq.
  - subst vy. apply elem_of_list_to_map_2 in Hmx, Hmy.
    exact (nodup_snd_functional mapping _ _ vx Hnd Hmx Hmy).
  - exfalso. exact (Hmixed _ _ cy Hmx Heq).
  - exfalso. exact (Hmixed _ _ cx Hmy (eq_sym Heq)).
  - exact Heq.
Qed.

Lemma filter_sublist {A} (p : A -> bool) (l : list A) : sublist (List.filter p l) l.
Proof.
  induction l as [|a l IH]; [constructor|]. cbn [List.filter].
  destruct (p a); by constructor.
Qed.

(** What the seven mappings have in common. *)
Lemma import_spec_mapping table_name spec df_columns :
  import_spec table_name = Some spec ->
  let mapping := column_mapping spec df_columns in
  NoDup mapping.*1 /\ NoDup mapping.*2 /\
  Forall (fun v => Str.upper v <> v) mapping.*2 /\
  Forall (fun col => col ∈ mapping.*2 /\ Str.upper col <> col) (timestamp_columns spec).
Proof.
  intros Hspec%import_spec_cases.
  repeat (apply elem_of_cons in Hspec as [[= -> ->] | Hspec]); try (inversion Hspec; fail);
    cbv zeta; cbn [column_mapping timestamp_columns organizations_spec patients_spec
                     providers_spec encounters_spec conditions_spec medications_spec
                     payers_spec];
    try (split; [compute_done|]; split; [compute_done|]; split; compute_done).
  set (full := [("ID", "id"); ("NAME", "name")] ++ optional_mappings).
  assert (sublist ([("ID", "id"); ("NAME", "name")]
                     ++ List.filter (fun '(csv_col, _) => Str.mem csv_col df_columns)
                          optional_mappings) full) as Hsub.
  { apply sublist_app; [reflexivity | apply filter_sublist]. }
  split; [apply (sublist_NoDup _ (full.*1)); [compute_done | by apply fmap_sublist]|].
  split; [apply (sublist_NoDup _ (full.*2)); [compute_done | by apply fmap_sublist]|].
  split; [|constructor].
  apply (Forall_fmap_sublist _ _ full); [exact Hsub | compute_done].
Qed.

End ImportFacts.

Section ImportTheorems.

Import SimpleEnhancedLoader.

(** X16: The frame an [import_*] function hands to the store has the rows it
    read, one for one; its labels are values of the column mapping, so
    a column of the file the mapping does not name never reaches the
    store; and no cell of it is an infinity. *)
Theorem import_keeps_the_rows_and_only_mapped_columns
    (pd : Pandas) (spec : ImportSpec) (df df' : DataFrame) :
  prepare_import pd spec df = Returned df' ->
  len df' = len df /\
  (forall c, c ∈ columns df' ->
     c ∈ map snd (column_mapping spec (map Str.upper (columns df)))) /\
  (forall r c b, r ∈ rows df' -> c ∈ r -> c <> CInf b).
Proof.
  intros H. apply prepare_import_spec in H as (H1 & H2 & H3 & _). done.
Qed.

Lemma import_keeps_the_rows_and_only_mapped_columns_witness :
  let df' := {| columns := ["id"; "revenue"]; rows := [[CStr "o1"; CNull]] |} in
  prepare_import pandas_rejecting organizations_spec organizations_extract = Returned df' /\
  len df' = len organizations_extract.
Proof.
  intros df'.
  assert (prepare_import pandas_rejecting organizations_spec organizations_extract
          = Returned df') as H by (vm_compute; reflexivity).
  split; [exact H|].
  exact (proj1 (import_keeps_the_rows_and_only_mapped_columns
                  pandas_rejecting organizations_spec organizations_extract df' H)).
Defined.

(** X17: [import_encounters], [import_conditions] and [import_medications]
    convert their two timestamp columns without looking whether the
    file has them: when the label of one is missing, the import records
    one error and returns 0 before it reaches its truncate, so the
    table keeps what it held. *)
Theorem import_without_a_timestamp_column_leaves_the_table
    (pd : Pandas) (table_name : string) (spec : ImportSpec) (df : DataFrame)
    (truncate : option exn) (to_sql : nat -> option exn) (st : Stats) (col key : string) :
  import_spec table_name = Some spec ->
  col ∈ timestamp_columns spec ->
  (key, col) ∈ column_mapping spec (map Str.upper (columns df)) ->
  key ∉ map Str.upper (columns df) ->
  exists e,
    import_table (import_env pd spec (Returned df) truncate to_sql) table_name st
    = (Some 0, add_error (ImportError table_name e) st, []).
Proof.
  intros Hspec Hcol Hkey Hmiss.
  assert (exists e, prepare_import pd spec df = Raised e) as [e He].
  { apply import_spec_cases in Hspec.
    repeat (apply elem_of_cons in Hspec as [[= -> ->] | Hspec]);
      try (inversion Hspec; fail); try (inversion Hcol; fail);
      (apply (prepare_import_missing pd _ df col key);
       [ compute_done
       | repeat (apply elem_of_cons in Hcol as [-> | Hcol]);
           [discriminate | discriminate | inversion Hcol]
       | exact Hcol | exact Hkey | exact Hmiss ]). }
  exists e. unfold import_table, import_env. cbn [prepared]. by rewrite He.
Qed.

Lemma import_without_a_timestamp_column_leaves_the_table_witness :
  exists e,
    import_table
      (import_env pandas_rejecting encounters_spec (Returned organizations_extract) None
         (fun _ => None))
      "encounters" initial_stats
    = (Some 0, add_error (ImportError "encounters" e) initial_stats, []).
Proof.
  apply (import_without_a_timestamp_column_leaves_the_table pandas_rejecting "encounters"
           encounters_spec organizations_extract None (fun _ => None) initial_stats
           "start_time" "START").
  - reflexivity.
  - left.
  - cbn. right. left.
  - compute_done.
Defined.

(** X18: When the labels of a file differ even without regard to case, the
    preparation of an import fails for one reason only: a timestamp
    column that is converted without a guard and whose label the file
    lacks.  The imports of organizations, payers, patients and
    providers have no such column and always reach their truncate. *)
Theorem import_preparation_fails_only_for_want_of_a_timestamp
    (pd : Pandas) (table_name : string) (spec : ImportSpec) (df : DataFrame) :
  import_spec table_name = Some spec ->
  NoDup (map Str.upper (columns df)) ->
  ((exists e, prepare_import pd spec df = Raised e) <->
   exists col key, col ∈ timestamp_columns spec /\
                   (key, col) ∈ column_mapping spec (map Str.upper (columns df)) /\
                   key ∉ map Str.upper (columns df)).
Proof.
  intros Hspec Hup.
  destruct (import_spec_mapping table_name spec (map Str.upper (columns df)) Hspec)
    as (Hkeys & Hvals & Hlow & Hts).
  set (mapping := column_mapping spec (map Str.upper (columns df))) in *.
  rewrite Forall_forall in Hts. split.
  - intros [e He].
    set (df0 := rename_upper (list_to_map mapping) df).
    destruct (decide (Forall (fun col => Str.mem col (columns df0) = true)
                        (timestamp_columns spec))) as [Hall | Hnot].
    + exfalso. rewrite Forall_forall in Hall.
      pose proof (renamed_labels_distinct mapping df Hvals Hlow Hup) as Hnd. fold df0 in Hnd.
      destruct (convert_each_in_place_returns (to_datetime pd) (timestamp_columns spec)
                  df0 Hnd Hall) as (df1 & H1 & C1).
      rewrite <- C1 in Hnd.
      destruct (convert_each_if_present_returns (to_datetime pd) (date_columns spec)
                  df1 Hnd) as (df2 & H2 & C2).
      rewrite <- C2 in Hnd.
      destruct (convert_each_if_present_returns (to_numeric pd) (numeric_columns spec)
                  df2 Hnd) as (df3 & H3 & C3).
      unfold prepare_import in He. fold mapping in He. fold df0 in He.
      rewrite H1, H2, H3 in He. discriminate.
    + apply not_Forall_Exists in Hnot; [|intros col; apply _].
      apply Exists_exists in Hnot as (col & Hcol & Hmem). cbn in Hmem.
      destruct (Hts col Hcol) as [Hval _].
      apply list_elem_of_fmap in Hval as ([key col'] & -> & Hkey). cbn [snd] in *.
      exists col', key. split; [exact Hcol|]. split; [exact Hkey|].
      intros Hin. apply Hmem. unfold Str.mem. apply existsb_exists.
      exists col'. split; [|apply String.eqb_refl].
      apply list_elem_of_In, in_map_iff in Hin as (c & Hc & Hin).
      unfold df0, rename_upper. cbn [columns]. apply in_map_iff. exists c.
      split; [|exact Hin].
      rewrite Hc, (elem_of_list_to_map_1 (M := gmap string) mapping key col' Hkeys Hkey).
      reflexivity.
  - intros (col & key & Hcol & Hkey & Hmiss).
    destruct (Hts col Hcol) as [_ Hupper].
    exact (prepare_import_missing pd spec df col key Hvals Hupper Hcol Hkey Hmiss).
Qed.

Lemma import_preparation_fails_only_for_want_of_a_timestamp_witness :
  import_spec "conditions" = Some conditions_spec /\
  NoDup (map Str.upper (columns organizations_extract)) /\
  exists e, prepare_import pandas_rejecting conditions_spec organizations_extract = Raised e.
Proof.
  assert (import_spec "conditions" = Some conditions_spec) as Hspec by reflexivity.
  assert (NoDup (map Str.upper (columns organizations_extract))) as Hnd by compute_done.
  split; [exact Hspec|]. split; [exact Hnd|].
  apply (import_preparation_fails_only_for_want_of_a_timestamp pandas_rejecting
           "conditions" conditions_spec organizations_extract Hspec Hnd).
  exists "stop_date", "STOP". split; [right; left|]. split; [cbn; right; left | compute_done].
Defined.

End ImportTheorems.

(** ** The labels of a cleaned frame *)

Section CleaningLabels.

Import EnhancedDataLoader.

Lemma clean_dataframe_columns pd inspection df table_name :
  columns (clean_dataframe pd inspection df table_name).1 = columns (prepare table_name df).
Proof.
  unfold clean_dataframe.
  destruct (convert_types pd (get_table_schema inspection) (prepare table_name df))
    as [converted log] eqn:Hc.
  destruct (drop_loop_spec (schema_primary_keys (get_table_schema inspection)) converted log)
    as (-> & _).
  destruct (convert_loop_shape pd (schema_columns (get_table_schema inspection))
              (prepare table_name df) []) as [Hcols _].
  unfold convert_types in Hc. rewrite Hc in Hcols. exact Hcols.
Qed.

Lemma unmapped_tables table_name :
  table_name ∈ loading_order ->
  (column_mappings !! table_name = None <->
   table_name ∈ ["procedures"; "observations"; "immunizations"; "allergies"; "care_plans"]).
Proof.
  intros H. repeat (apply elem_of_cons in H as [-> | H]); try (inversion H; fail);
    (split; [first [discriminate | intros _; compute_done]
            | first [intros _; reflexivity | intros Hin; exfalso; revert Hin; compute_done]]).
Qed.

(** X19: Cleaning renames the labels of a table that has a mapping and
    leaves those of the others as the file has them; it never adds,
    drops or reorders a column. *)
Theorem cleaning_renames_but_keeps_every_column
    (pd : Pandas) (inspection : outcome Inspection) (df : DataFrame) (table_name : string) :
  columns (clean_dataframe pd inspection df table_name).1
  = match column_mappings !! table_name with
    | Some mapping =>
        map (fun c => default (Str.upper c) (mapping !! Str.upper c)) (columns df)
    | None => columns df
    end.
Proof.
  rewrite clean_dataframe_columns. unfold prepare.
  by destruct (column_mappings !! table_name).
Qed.

(** X20: Five of the twelve tables of the loading order have no mapping:
    their labels reach the store as the file has them, in whatever case,
    and their files are never found to lack a column. *)
Theorem tables_without_a_mapping_keep_their_labels
    (pd : Pandas) (inspection : outcome Inspection) (df : DataFrame) (f : CsvFile)
    (table_name : string) :
  table_name ∈ loading_order ->
  (column_mappings !! table_name = None <->
   table_name ∈ ["procedures"; "observations"; "immunizations"; "allergies"; "care_plans"]) /\
  (column_mappings !! table_name = None ->
   columns (clean_dataframe pd inspection df table_name).1 = columns df /\
   ((validate_csv_file f table_name).1 = true -> (validate_csv_file f table_name).2 = [])).
Proof.
  intros Hin. split; [by apply unmapped_tables|]. intros Hnone. split.
  - rewrite clean_dataframe_columns. unfold prepare. by rewrite Hnone.
  - destruct (validate_csv_file_spec f table_name) as (_ & _ & Hvalid).
    intros Hv. destruct (Hvalid Hv) as [Hnil | (mapping & ? & Hm & _)]; [exact Hnil|].
    congruence.
Qed.

Lemma tables_without_a_mapping_keep_their_labels_witness :
  "observations" ∈ loading_order /\
  columns (clean_dataframe pandas_rejecting (Returned organizations_inspection)
             organizations_extract "observations").1 = ["Id"; "Revenue"].
Proof.
  assert ("observations" ∈ loading_order) as Hin by compute_done.
  split; [exact Hin|].
  destruct (tables_without_a_mapping_keep_their_labels pandas_rejecting
              (Returned organizations_inspection) organizations_extract
              (mkCsvFile false 0 (Raised "") (Raised "")) "observations" Hin) as [_ H].
  exact (proj1 (H eq_refl)).
Defined.

(** X21: For a table that has a mapping, the labels of the file are read
    without regard to case: two files whose labels differ in case only
    are cleaned to the same frame, with the same warnings. *)
Theorem labels_are_read_without_regard_to_case
    (pd : Pandas) (inspection : outcome Inspection) (df df' : DataFrame)
    (table_name : string) (mapping : gmap string string) :
  column_mappings !! table_name = Some mapping ->
  map Str.upper (columns df) = map Str.upper (columns df') ->
  rows df = rows df' ->
  clean_dataframe pd inspection df table_name = clean_dataframe pd inspection df' table_name.
Proof.
  intros Hm Hcols Hrows. unfold clean_dataframe.
  assert (prepare table_name df = prepare table_name df') as ->; [|reflexivity].
  unfold prepare. rewrite Hm. unfold rename_upper. rewrite Hrows. f_equal. f_equal.
  rewrite <- !(map_map Str.upper (fun u => default u (mapping !! u))). by rewrite Hcols.
Qed.

Lemma labels_are_read_without_regard_to_case_witness :
  let shouted := {| columns := ["ID"; "REVENUE"]; rows := rows organizations_extract |} in
  map Str.upper (columns organizations_extract) = map Str.upper (columns shouted) /\
  clean_dataframe pandas_rejecting (Returned organizations_inspection)
    organizations_extract "organizations"
  = clean_dataframe pandas_rejecting (Returned organizations_inspection)
      shouted "organizations".
Proof.
  intros shouted.
  assert (map Str.upper (columns organizations_extract) = map Str.upper (columns shouted))
    as Hcols by reflexivity.
  split; [exact Hcols|].
  assert (column_mappings !! "organizations"
          = Some (default ∅ (column_mappings !! "organizations"))) as Hm
    by (vm_compute; reflexivity).
  exact (labels_are_read_without_regard_to_case pandas_rejecting
           (Returned organizations_inspection) organizations_extract shouted
           "organizations" _ Hm Hcols eq_refl).
Defined.

End CleaningLabels.

(** ** The structure of the tables *)

Section TableStructure.

Import ComprehensiveValidator.

(** The result of a table that exists: no query raises. *)
Lemma validate_table_existing table_name expectations (db : Sql.store) rel :
  db !! table_name = Some rel ->
  let cols := Sql.rel_columns rel in
  let count := length (Sql.rel_rows rel) in
  let nulls := null_count (Sql.rel_rows rel) (primary_key expectations) in
  let has_pk := Str.mem (primary_key expectations) cols in
  validate_table table_name expectations db =
  {| table_exists := true; row_count := count;
     column_validation :=
       map (fun req_col => (req_col, Str.mem req_col cols)) (required_columns expectations);
     primary_key_valid := has_pk && (nulls =? 0);
     meets_min_rows := expected_min_rows expectations <=? count;
     table_issues :=
       (if expected_min_rows expectations <=? count then []
        else [RowCountBelow count (expected_min_rows expectations)]) ++
       flat_map (fun req_col => if Str.mem req_col cols then []
                                else [MissingRequiredColumn req_col])
         (required_columns expectations) ++
       (if has_pk && (0 <? nulls)
        then [PrimaryKeyNulls (primary_key expectations) nulls] else []) |}.
Proof.
  intros Hrel cols count nulls has_pk.
  unfold validate_table, Sql.execute, Sql.lookup_relation. rewrite Hrel.
  cbn [forallb fst]. fold cols. fold has_pk.
  destruct has_pk eqn:Hpk; cbn [andb fst].
  - rewrite <- app_assoc. reflexivity.
  - by rewrite app_nil_r.
Qed.

(** What the result of a table says. *)
Lemma validate_table_spec
    (table_name : string) (expectations : Expectations) (db : Sql.store) :
  let r := validate_table table_name expectations db in
  let pk := primary_key expectations in
  (table_exists r = true <-> exists rel, db !! table_name = Some rel) /\
  (primary_key_valid r = true <->
     exists rel, db !! table_name = Some rel /\
                 Str.mem pk (Sql.rel_columns rel) = true /\
                 null_count (Sql.rel_rows rel) pk = 0) /\
  (table_issues r = [] <->
     exists rel, db !! table_name = Some rel /\
                 expected_min_rows expectations <= length (Sql.rel_rows rel) /\
                 (forall c, c ∈ required_columns expectations ->
                            Str.mem c (Sql.rel_columns rel) = true) /\
                 (Str.mem pk (Sql.rel_columns rel) = true ->
                  null_count (Sql.rel_rows rel) pk = 0)) /\
  (pk ∈ required_columns expectations ->
   table_issues r = [] -> primary_key_valid r = true) /\
  (forall rel, db !! table_name = Some rel ->
               Str.mem pk (Sql.rel_columns rel) = false ->
               primary_key_valid r = false /\
               forall n, PrimaryKeyNulls pk n ∉ table_issues r).
Proof.
  cbv zeta. destruct (db !! table_name) as [rel|] eqn:Hrel.
  2:{ unfold validate_table. rewrite Hrel. cbn.
      split; [split; [discriminate | intros [? ?]; discriminate]|].
      split; [split; [discriminate | intros (? & ? & _); discriminate]|].
      split; [split; [discriminate | intros (? & ? & _); discriminate]|].
      split; [discriminate|]. intros ? ?; discriminate. }
  rewrite (validate_table_existing table_name expectations db rel Hrel).
  cbn [table_exists primary_key_valid table_issues].
  set (pk := primary_key expectations).
  set (cols := Sql.rel_columns rel).
  set (nulls := null_count (Sql.rel_rows rel) pk).
  assert ((if expected_min_rows expectations <=? length (Sql.rel_rows rel) then []
           else [RowCountBelow (length (Sql.rel_rows rel)) (expected_min_rows expectations)])
          ++ flat_map (fun req_col => if Str.mem req_col cols then []
                                      else [MissingRequiredColumn req_col])
               (required_columns expectations)
          ++ (if Str.mem pk cols && (0 <? nulls) then [PrimaryKeyNulls pk nulls] else [])
          = [] <->
          expected_min_rows expectations <= length (Sql.rel_rows rel) /\
          (forall c, c ∈ required_columns expectations -> Str.mem c cols = true) /\
          (Str.mem pk cols = true -> nulls = 0)) as Hissues.
  { split.
    - intros (H1 & (H2 & H3)%app_eq_nil)%app_eq_nil. split; [|split].
      + destruct (Nat.leb_spec (expected_min_rows expectations) (length (Sql.rel_rows rel)));
          [lia | discriminate].
      + intros c Hc. rewrite flat_map_nil_iff in H2. specialize (H2 c Hc).
        by destruct (Str.mem c cols).
      + intros Hpk. rewrite Hpk in H3. cbn [andb] in H3.
        destruct (Nat.ltb_spec 0 nulls); [discriminate | lia].
    - intros (H1 & H2 & H3).
      apply Nat.leb_le in H1. rewrite H1. cbn [app].
      rewrite (proj2 (flat_map_nil_iff _ _)) by (intros c Hc; by rewrite (H2 c Hc)).
      cbn [app]. destruct (Str.mem pk cols); [|reflexivity].
      rewrite (H3 eq_refl). reflexivity. }
  split; [split; [intros _; by exists rel | done]|].
  split.
  { rewrite andb_true_iff, Nat.eqb_eq. split.
    - intros [Hpk Hn]. by exists rel.
    - intros (rel' & [= <-] & Hpk & Hn). by split. }
  split.
  { rewrite Hissues. split.
    - intros (H1 & H2 & H3). by exists rel.
    - intros (rel' & [= <-] & H1 & H2 & H3). by split. }
  split.
  { intros Hreq Hnil. apply Hissues in Hnil as (_ & H2 & H3).
    rewrite (H2 pk Hreq), (H3 (H2 pk Hreq)). reflexivity. }
  intros rel' [= <-] Hpk. fold cols in Hpk. rewrite Hpk. cbn [andb].
  split; [reflexivity|]. intros n Hin.
  rewrite app_nil_r in Hin. apply elem_of_app in Hin as [Hin | Hin].
  - destruct (expected_min_rows expectations <=? length (Sql.rel_rows rel));
      [inversion Hin | apply list_elem_of_singleton in Hin; discriminate].
  - apply list_elem_of_In, in_flat_map in Hin as (c & _ & Hin).
    destruct (Str.mem c cols); [inversion Hin|]. destruct Hin as [Hin | []]. discriminate.
Qed.

Lemma expected_tables_distinct : NoDup expected_tables.*1.
Proof. compute_done. Qed.

(** [validate_table_structure] files one result per expected table,
    under its name, and nothing else. *)
Lemma table_structure_results (db : Sql.store) :
  let r := validate_table_structure None db in
  r.2 = None /\
  (forall table_name expectations,
     (table_name, expectations) ∈ expected_tables ->
     r.1 !! table_name = Some (validate_table table_name expectations db)) /\
  (forall table_name, table_name ∉ expected_tables.*1 -> r.1 !! table_name = None) /\
  forall e, validate_table_structure (Some e) db = (∅, Some e).
Proof.
  unfold validate_table_structure. cbn [fst snd].
  assert (forall l (m : gmap string TableResult),
            NoDup l.*1 ->
            let m' := fold_left
                        (fun table_validation '(table_name, expectations) =>
                           <[table_name := validate_table table_name expectations db]>
                             table_validation) l m in
            (forall t x, (t, x) ∈ l -> m' !! t = Some (validate_table t x db)) /\
            (forall t, t ∉ l.*1 -> m' !! t = m !! t)) as Hloop.
  { induction l as [|[t0 x0] l IH]; intros m Hnd; cbn [fold_left].
    { split; [intros t x H; inversion H | done]. }
    apply NoDup_cons in Hnd as [Hnot Hnd]. cbn [fst] in Hnot.
    destruct (IH (<[t0 := validate_table t0 x0 db]> m) Hnd) as [Hin Hout]. split.
    - intros t x [[= -> ->] | H]%elem_of_cons.
      + rewrite (Hout t0 Hnot). apply lookup_insert_eq.
      + by apply Hin.
    - intros t [Hne Ht]%not_elem_of_cons. cbn [fst] in Hne.
      rewrite (Hout t Ht). by apply lookup_insert_ne. }
  destruct (Hloop expected_tables ∅ expected_tables_distinct) as [Hin Hout].
  split; [reflexivity|]. split; [exact Hin|]. split; [|reflexivity].
  intros t Ht. rewrite (Hout t Ht). apply lookup_empty.
Qed.

(** X22: [validate_table_structure] looks for null keys only in a primary
    key column that exists: the key of a table is reported as valid
    exactly when the table has the column and no row is null in it,
    while the issues are silent about a key column that is missing.  A
    table whose key is among its required columns cannot pass without
    issues and without a valid key; conditions and medications, whose
    key [id] is not required, can. *)
Theorem structure_check_is_silent_about_a_missing_key
    (table_name : string) (expectations : Expectations) (db : Sql.store) :
  (table_name, expectations) ∈ expected_tables ->
  let pk := primary_key expectations in
  exists r,
    (validate_table_structure None db).1 !! table_name = Some r /\
    (table_exists r = true <-> exists rel, db !! table_name = Some rel) /\
    (primary_key_valid r = true <->
       exists rel, db !! table_name = Some rel /\
                   Str.mem pk (Sql.rel_columns rel) = true /\
                   null_count (Sql.rel_rows rel) pk = 0) /\
    (table_issues r = [] <->
       exists rel, db !! table_name = Some rel /\
                   expected_min_rows expectations <= length (Sql.rel_rows rel) /\
                   (forall c, c ∈ required_columns expectations ->
                              Str.mem c (Sql.rel_columns rel) = true) /\
                   (Str.mem pk (Sql.rel_columns rel) = true ->
                    null_count (Sql.rel_rows rel) pk = 0)) /\
    (pk ∈ required_columns expectations ->
     table_issues r = [] -> primary_key_valid r = true) /\
    (forall rel, db !! table_name = Some rel ->
                 Str.mem pk (Sql.rel_columns rel) = false ->
                 primary_key_valid r = false /\
                 forall n, PrimaryKeyNulls pk n ∉ table_issues r).
Proof.
  intros Hin pk. exists (validate_table table_name expectations db). split.
  - destruct (table_structure_results db) as (_ & H & _). by apply H.
  - apply validate_table_spec.
Qed.

Lemma structure_check_is_silent_about_a_missing_key_witness :
  exists r,
    (validate_table_structure None clean_store).1 !! "conditions" = Some r /\
    primary_key_valid r = false /\
    forall n, PrimaryKeyNulls "id" n ∉ table_issues r.
Proof.
  assert (("conditions",
           {| required_columns := ["start_date"; "patient_id"; "code"; "description"];
              primary_key := "id"; expected_min_rows := 50 |}) ∈ expected_tables) as Hin
    by (do 5 right; left).
  destruct (structure_check_is_silent_about_a_missing_key "conditions" _ clean_store Hin)
    as (r & Hr & _ & _ & _ & _ & Hsilent).
  exists r. split; [exact Hr|].
  apply (Hsilent (empty_relation ["patient_id"; "encounter_id"])); reflexivity.
Defined.

End TableStructure.
